(** * Windowed scheduling-decision pipeline of [main.py]

    A shallow embedding of the algorithmic core of [main.py]: window
    extraction, the evaluation pivot grid, the interferer reduction, the
    top-k availability mask, the training objective and the stitching of
    the reception series.

    Conventions.
    - Tensor entries are 32-bit floats in the program.  They are idealised
      here as exact rationals ([Q]); NaN, infinities and rounding are outside
      the model.  Division by zero, which torch answers with [inf]/[nan], is
      [0] in [Q]: every statement about a quotient carries the positivity of
      its divisor.
    - The loss uses a logarithm, so it is computed in [R].
    - Python integers are unbounded: they are [Z].
    - A tensor is a nested list, axis 0 outermost.  A nested list cannot
      record the inner extents of a tensor whose axis 0 is empty; the
      statements below are about tensors with at least one entry along
      axis 0 wherever that matters.
    - A nested list does not record how a tensor is stored in memory;
      where an operation depends on it ([.view]), the layout is an
      argument of its own.
    - Operations that raise in Python return [None]. *)

From Stdlib Require Import List ZArith QArith Qminmax Lia Lqa.
From Stdlib Require Import Permutation Sorted Bool.
From Stdlib Require String Reals Qreals Lra.
Import ListNotations String.StringSyntax.
Delimit Scope string_scope with string.

(* ================================================================== *)
(** * Part I. Definitions *)
(* ================================================================== *)

(** ** Error-returning computations *)

Definition bind {A B : Type} (x : option A) (f : A -> option B) : option B :=
  match x with
  | Some a => f a
  | None => None
  end.

Notation "x <- e ;; k" := (bind e (fun x => k))
  (at level 61, e at next level, right associativity).

Fixpoint mapM {A B : Type} (f : A -> option B) (l : list A) : option (list B) :=
  match l with
  | [] => Some []
  | a :: l' => b <- f a ;; bs <- mapM f l' ;; Some (b :: bs)
  end.

(** ** Tensors *)

Definition tensor2 := list (list Q).
Definition tensor3 := list (list (list Q)).
Definition mask := list (list bool).

Definition shape2 {A : Type} (n0 n1 : nat) (m : list (list A)) : Prop :=
  length m = n0 /\ Forall (fun r => length r = n1) m.

Definition shape3 (n0 n1 n2 : nat) (t : tensor3) : Prop :=
  length t = n0 /\ Forall (shape2 n1 n2) t.

(** Pointwise combination of two lists of equal length. *)
Fixpoint map2 {A B C : Type} (f : A -> B -> C) (l : list A) (l' : list B)
  : list C :=
  match l, l' with
  | a :: t, b :: t' => f a b :: map2 f t t'
  | _, _ => []
  end.

Definition cell (m : tensor2) (i j : nat) : Q := nth j (nth i m []) 0%Q.

(** The values of a 3-D tensor along axis 0 at position [(i, j)]. *)
Definition fiber (t : tensor3) (i j : nat) : list Q :=
  map (fun m => cell m i j) t.

Definition Qsum (l : list Q) : Q := fold_right Qplus 0%Q l.

(** ** Python, numpy and torch primitives used by [main.py] *)

Module Py.

Definition Qltb (x y : Q) : bool := negb (Qle_bool y x).

(** *** Slicing *)

(** A slice bound as Python normalises it for a sequence of length [n]:
    a negative bound counts from the end, and the result is clamped to
    [0 .. n]. *)
Definition slice_bound (n i : Z) : Z :=
  if (i <? 0)%Z then Z.max 0 (i + n) else Z.min i n.

(** [l[start:stop]] along axis 0. *)
Definition slice {A : Type} (l : list A) (start stop : Z) : list A :=
  let n := Z.of_nat (length l) in
  let lo := slice_bound n start in
  let hi := slice_bound n stop in
  firstn (Z.to_nat (hi - lo)) (skipn (Z.to_nat lo) l).

(** [l[start:]] along axis 0. *)
Definition slice_from {A : Type} (l : list A) (start : Z) : list A :=
  skipn (Z.to_nat (slice_bound (Z.of_nat (length l)) start)) l.

(** *** Index generation *)

(** [np.arange(start, stop, step)] on integers: [ceil((stop - start) / step)]
    values when that is positive, none otherwise; a zero step raises. *)
Definition np_arange (start stop step : Z) : option (list Z) :=
  if (step =? 0)%Z then None
  else
    let n := Z.max 0 (- ((start - stop) / step)) in
    Some (map (fun i => (start + Z.of_nat i * step)%Z) (seq 0 (Z.to_nat n))).

(** [np.random.randint(low, high, size)]: [size] integers, each of them
    anywhere in the half-open range; raises when the range is empty.  The
    generator is modelled by the set of its possible outcomes. *)
Definition randint (low high size : Z) (out : list Z) : Prop :=
  (low < high)%Z /\ Z.of_nat (length out) = size /\
  Forall (fun v => (low <= v < high)%Z) out.

(** [int(0.80 * n)] for a size [n]: the product is rounded to a double
    and truncated, which is [floor (4 n / 5)] for every size that a tensor
    can have. *)
Definition int_080 (n : Z) : Z := (4 * n / 5)%Z.

(** *** Concatenation and reshaping *)

(** [torch.cat(ts, dim=1)] on 3-D tensors: position [t] of the result is
    the concatenation of the tensors' entries at [t].  Raises on an empty
    list and when the extents along axis 0 differ.  (The extents along
    axis 2 must agree as well; every use here concatenates slices of one
    Series, whose channel axis is shared.) *)
Fixpoint cat_dim1 (ts : list tensor3) : option tensor3 :=
  match ts with
  | [] => None
  | t :: rest =>
      match rest with
      | [] => Some t
      | _ :: _ =>
          r <- cat_dim1 rest ;;
          if (length t =? length r)%nat then Some (map2 (@app _) t r)
          else None
      end
  end.

(** [torch.cat((a, b), dim=0)] on 2-D tensors: raises when the widths
    differ. *)
Definition cat_dim0 (a b : tensor2) : option tensor2 :=
  match a, b with
  | r :: _, r' :: _ =>
      if (length r =? length r')%nat then Some (a ++ b) else None
  | _, _ => Some (a ++ b)
  end.

(** [m.permute(1, 0)]. *)
Fixpoint permute_1_0 (m : tensor2) : tensor2 :=
  match m with
  | [] => []
  | r :: m' =>
      match m' with
      | [] => map (fun x => [x]) r
      | _ :: _ => map2 cons r (permute_1_0 m')
      end
  end.

(** [m.view(-1, 1)]: the entries in row-major order, one per row.  A view
    never copies, so it raises unless the two axes of [m] can be merged in
    memory: [m] is stored row by row ([row_major]), or it has at most one
    row, or at most one column.  The transpose of a contiguous tensor with
    two or more rows and columns is not stored row by row.  Nested lists
    do not record how a tensor is stored; the caller says. *)
Definition view_column (row_major : bool) (m : tensor2) : option tensor2 :=
  if row_major || (length m <=? 1)%nat || (length (hd [] m) <=? 1)%nat
  then Some (map (fun x => [x]) (concat m))
  else None.

(** [m.unsqueeze(dim=2)]. *)
Definition unsqueeze_dim2 (m : tensor2) : tensor3 :=
  map (map (fun x => [x])) m.

(** [torch.mul(a, b)] with [a] of shape (n0, n1, 1) broadcast along
    axis 2, the broadcasting that line 89 uses. *)
Definition mul (a b : tensor3) : tensor3 :=
  map2 (map2 (fun ra rb =>
                match ra with
                | [x] => map (Qmult x) rb
                | _ => map2 Qmult ra rb
                end)) a b.

(** *** Reductions along axis 0 *)

Definition add2 (a b : tensor2) : tensor2 := map2 (map2 Qplus) a b.
Definition max2 (a b : tensor2) : tensor2 := map2 (map2 Qmax) a b.
Definition div2 (a b : tensor2) : tensor2 := map2 (map2 Qdiv) a b.

(** [torch.sum(t, dim=0)]. *)
Definition sum_dim0 (t : tensor3) : tensor2 :=
  match t with
  | [] => []
  | m :: ms => fold_left add2 ms m
  end.

(** [torch.max(t, dim=0)], the values of the pair it returns (the source
    discards the indices).  Raises when axis 0 is empty. *)
Definition max_dim0 (t : tensor3) : option tensor2 :=
  match t with
  | [] => None
  | m :: ms => Some (fold_left max2 ms m)
  end.

(** [torch.mean(t)] over all entries of a 3-D tensor. *)
Definition mean (t : tensor3) : Q :=
  let entries := concat (concat t) in
  (Qsum entries / inject_Z (Z.of_nat (length entries)))%Q.

(** [torch.mean(m)] over all entries of a 2-D tensor. *)
Definition mean2 (m : tensor2) : Q :=
  let entries := concat m in
  (Qsum entries / inject_Z (Z.of_nat (length entries)))%Q.

(** *** Sorting and comparison *)

(** [np.sort] along the last axis: each row rearranged in ascending
    order.  The result of a sort is determined by its input up to the
    order of equal values, so any sorting algorithm models it. *)
Fixpoint insert (x : Q) (l : list Q) : list Q :=
  match l with
  | [] => [x]
  | y :: l' => if Qle_bool x y then x :: l else y :: insert x l'
  end.

Definition sort_row (row : list Q) : list Q := fold_right insert [] row.

Definition np_sort (m : tensor2) : tensor2 := map sort_row m.

(** [m[:, j]]: raises [IndexError] when axis 1 has no position [j]. *)
Definition column (j : nat) (m : tensor2) : option (list Q) :=
  mapM (fun r => nth_error r j) m.

(** [np.expand_dims(v, axis=1)]. *)
Definition expand_dims_axis1 (v : list Q) : tensor2 := map (fun t => [t]) v.

(** [a < b] with [b] of shape (batch, 1) broadcast along axis 1. *)
Definition lt_broadcast (a b : tensor2) : mask :=
  map2 (fun ra rb =>
          match rb with
          | [t] => map (fun x => Qltb x t) ra
          | _ => map2 Qltb ra rb
          end) a b.

End Py.

(** ** [main.py], lines 16-22: [reduce] *)

Definition reduce (values : tensor3) (method : String.string)
  (matrix : option tensor3) : option tensor2 :=
  if String.eqb method "mean"%string then
    match matrix with
    | Some matrix =>
        let channels_sums := Py.sum_dim0 values in
        let channels_weights := Py.sum_dim0 matrix in
        Some (Py.div2 channels_sums channels_weights)
    | None => None
    end
  else Py.max_dim0 values.

(** Lines 89-90: the error values attributed to the channels, then
    reduced. *)
Definition error_props_per_channel (error_prop_values : tensor2)
  (channels_matrix : tensor3) : tensor3 :=
  Py.mul (Py.unsqueeze_dim2 error_prop_values) channels_matrix.

Definition errors_reduced (error_prop_values : tensor2)
  (channels_matrix : tensor3) (reducing_method : String.string)
  : option tensor2 :=
  reduce (error_props_per_channel error_prop_values channels_matrix)
         reducing_method (Some channels_matrix).

(** The reductions in the words of the specification. *)
Definition weighted_average (weights values : list Q) : Q :=
  (Qsum (map2 Qmult weights values) / Qsum weights)%Q.

Definition arithmetic_mean (values : list Q) : Q :=
  (Qsum values / inject_Z (Z.of_nat (length values)))%Q.

Definition is_maximum (x : Q) (values : list Q) : Prop :=
  In x values /\ Forall (fun y => y <= x)%Q values.

(** An attribution matrix of the given shape whose weights are all one. *)
Definition ones3 (n0 n1 n2 : nat) : tensor3 :=
  repeat (repeat (repeat 1%Q n2) n1) n0.

(** Column [i] of a 2-D tensor: its values along axis 0. *)
Definition column_values (m : tensor2) (i : nat) : list Q :=
  map (fun row => nth i row 0%Q) m.

(** ** [main.py], lines 148-151: the availability mask *)

Definition available_channels (blacklist : tensor2) : option mask :=
  let scores_sorted := Py.np_sort blacklist in
  thresholds <- Py.column 8 scores_sorted ;;
  let thresholds := Py.expand_dims_axis1 thresholds in
  Some (Py.lt_broadcast blacklist thresholds).

(** Number of available channels in one row of a mask. *)
Definition count_true (row : list bool) : nat := length (filter id row).

(** Number of channels of a row whose score equals [t]. *)
Definition count_eq (t : Q) (row : list Q) : nat :=
  length (filter (fun x => Qeq_bool x t) row).

(** Number of channels of a row whose score is strictly below [t]. *)
Definition count_lt (t : Q) (row : list Q) : nat :=
  length (filter (fun x => Py.Qltb x t) row).

(** ** [main.py], lines 92-97: the training objective *)

Module Loss.
Import Reals Qreals.
Local Open Scope R_scope.

Definition rtensor2 := list (list R).

Definition of_tensor2 (m : tensor2) : rtensor2 := map (map Q2R) m.

Definition Rsum (l : list R) : R := fold_right Rplus 0 l.

(** [torch.mean(m)] over all entries. *)
Definition mean (m : rtensor2) : R :=
  Rsum (concat m) / INR (length (concat m)).

Definition zeros (n0 n1 : nat) : rtensor2 := repeat (repeat 0 n1) n0.

Definition unit_entries (m : rtensor2) : Prop :=
  Forall (Forall (fun x => 0 <= x <= 1)) m.

Definition ones (n0 n1 : nat) : rtensor2 := repeat (repeat 1 n1) n0.

Definition ones_like (m : rtensor2) : rtensor2 := map (map (fun _ => 1)) m.
Definition zeros_like (m : rtensor2) : rtensor2 := map (map (fun _ => 0)) m.

(** A pointwise operation on two 2-D tensors, broadcast as torch does:
    along each axis the two extents agree, or one of them is 1 and its
    entry is repeated; any other pair of extents raises. *)
Definition broadcast_row (f : R -> R -> R) (ra rb : list R) : option (list R) :=
  if (length ra =? length rb)%nat then Some (map2 f ra rb)
  else
    match ra, rb with
    | [x], _ => Some (map (f x) rb)
    | _, [y] => Some (map (fun x => f x y) ra)
    | _, _ => None
    end.

Definition broadcast2 (f : R -> R -> R) (a b : rtensor2) : option rtensor2 :=
  if (length a =? length b)%nat
  then mapM (fun rr => broadcast_row f (fst rr) (snd rr)) (combine a b)
  else
    match a, b with
    | [ra], _ => mapM (fun rb => broadcast_row f ra rb) b
    | _, [rb] => mapM (fun ra => broadcast_row f ra rb) a
    | _, _ => None
    end.

(** [a - b] and [torch.mul(a, b)]. *)
Definition sub (a b : rtensor2) : option rtensor2 := broadcast2 Rminus a b.
Definition mul (a b : rtensor2) : option rtensor2 := broadcast2 Rmult a b.

(** Whether two tensors have the same extents. *)
Definition same_shape (a b : rtensor2) : bool :=
  (length a =? length b)%nat
  && forallb (fun rr => (length (fst rr) =? length (snd rr))%nat) (combine a b).

Definition in_unit (x : R) : bool :=
  if Rle_dec 0 x then (if Rle_dec x 1 then true else false) else false.

(** [nn.BCELoss()]: the mean over all entries of
    [-(y * log x + (1 - y) * log (1 - x))], each logarithm clamped from
    below at -100; raises when an input entry lies outside [0, 1] and when
    the target has another shape than the input.

    The logarithm of 0 is minus infinity in torch and is clamped to -100
    like every value below it.  ([ln] of the standard library is 0 outside
    the positive reals, so the case is written out; a negative argument
    does not occur, the inputs being checked to lie in [0, 1].) *)
Definition log_clamped (x : R) : R :=
  if Rle_dec x 0 then -100 else Rmax (ln x) (-100).

Definition bce_entry (x y : R) : R :=
  - (y * log_clamped x + (1 - y) * log_clamped (1 - x)).

Definition criterion (input target : rtensor2) : option R :=
  if same_shape input target && forallb (forallb in_unit) input
  then Some (mean (map2 (map2 bce_entry) input target))
  else None.

Definition loss_func (penalty_weight : R) (errors_reduced blacklist : rtensor2)
  : option R :=
  whitelist <- sub (ones_like blacklist) blacklist ;;
  outputs <- mul errors_reduced whitelist ;;
  let desired_outputs := zeros_like outputs in
  cross_entropy_loss <- criterion outputs desired_outputs ;;
  let blacklisting_penalty := mean blacklist in
  Some (cross_entropy_loss + blacklisting_penalty * penalty_weight).

(** The objective in the words of the specification: the binary cross
    entropy of [predictedFailure = reducedError * (1 - score)] against an
    all-zero target, plus the penalty weight times the mean score.

    The binary cross entropy of predictions [p] against targets [y] is
    the average of [-(y log p + (1 - y) log (1 - p))], where a logarithm
    counts as -100 once its argument is [exp (-100)] or less, 0
    included. *)
Definition predicted_failure (reducedError score : rtensor2) : list R :=
  concat (map2 (map2 (fun e s => e * (1 - s))) reducedError score).

Definition floored_log (x : R) : R :=
  if Rlt_dec (exp (-100)) x then ln x else -100.

Definition binary_cross_entropy (p target : list R) : R :=
  Rsum (map2 (fun x y => - (y * floored_log x + (1 - y) * floored_log (1 - x)))
             p target)
  / INR (length p).

Definition all_zeros (n : nat) : list R := repeat 0 n.

Definition spec_total_loss (penaltyWeight : R) (reducedError score : rtensor2)
  : R :=
  binary_cross_entropy (predicted_failure reducedError score)
                       (all_zeros (length (predicted_failure reducedError score)))
  + penaltyWeight * mean score.

(** Against an all-zero target the criterion is the mean of
    [- log (1 - p)] over the entries [p]. *)
Definition cross_entropy_to_zero (p : list R) : R :=
  Rsum (map (fun x => - log_clamped (1 - x)) p) / INR (length p).

End Loss.

(** ** Command-line arguments (lines 40-56), those the core reads *)

Record Args : Type := {
  train_split : Z;
  sample_rate : Z;
  target_rate : Z;
  past_window : Z;
  future_window : Z;
  iterations : Z;
  batch_size : Z
}.

(** The defaults of the argument parser. *)
Definition default_args : Args :=
  {| train_split := 240; sample_rate := 2000; target_rate := 10;
     past_window := 5; future_window := 5; iterations := 1000;
     batch_size := 32 |}.

(** ** [main.py], lines 25-33: [describe]

    The packet reception ratio over the evaluation interval and the energy
    per delivered packet, as the function computes them before it formats
    and prints them.  [train_samples_cutoff] and [args] are globals of the
    script.

    The ratio divides the energy.  At a ratio of zero, and on an empty
    interval (whose mean is [nan]), the program reports [inf] or [nan],
    which the rationals do not have: what is stated below about the
    energy is stated for a positive ratio. *)
Definition describe (receptions : tensor2) (train_samples_cutoff : Z)
  (args : Args) (ed_enabled : bool) : Q * Q :=
  let prr :=
    Py.mean2 (Py.slice receptions train_samples_cutoff (300 * sample_rate args)) in
  let '(n_ed, n_rx, n_tx) := ((if ed_enabled then 3 else 0), 7, 1)%Q in
  let '(i_ed, i_rx, i_tx) := (5 # 1000, 5 # 1000, 10 # 1000)%Q in
  let '(t_ed, t_tx) := (128 # 1000000, 32 # 10000)%Q in
  let v_cc := (33 # 10)%Q in
  let energy :=
    ((i_ed * n_ed * t_ed + (i_rx * n_rx * t_tx + i_tx * n_tx * t_tx) / prr)
     * v_cc)%Q in
  (prr, energy).

(** Line 62. *)
Definition validation_data (args : Args) (data : tensor3) : tensor3 :=
  Py.slice_from data (train_split args * sample_rate args).

(** The window lengths in samples, [pastLen] and [futureLen] in the
    specification. *)
Definition pastLen (args : Args) : Z := (past_window args * sample_rate args)%Z.
Definition futureLen (args : Args) : Z := (future_window args * sample_rate args)%Z.

(** ** Window extraction (lines 80-81 and 142-143) *)

Definition past_windows (series : tensor3) (args : Args) (indices : list Z)
  : option tensor3 :=
  Py.cat_dim1
    (map (fun index =>
            Py.slice series (index - past_window args * sample_rate args) index)
         indices).

Definition future_windows (series : tensor3) (args : Args) (indices : list Z)
  : option tensor3 :=
  Py.cat_dim1
    (map (fun index =>
            Py.slice series index (index + future_window args * sample_rate args))
         indices).

(** The windows in the words of the specification: rows [lo, lo + len) of
    the Series, and their concatenation along the sequence axis. *)
Definition interval_rows (series : tensor3) (lo : Z) (len : nat) : tensor3 :=
  map (fun i => nth (Z.to_nat (lo + Z.of_nat i)) series []) (seq 0 len).

Definition concat_sequence_axis (len : nat) (slices : list tensor3) : tensor3 :=
  map (fun t => concat (map (fun s => nth t s []) slices)) (seq 0 len).

(** The boundary invariant of a pivot. *)
Definition boundary_invariant (pastLen futureLen datapoints pivot : Z) : Prop :=
  (pastLen <= pivot <= datapoints - futureLen)%Z.

(** ** Pivot generation (lines 79 and 141) *)

(** Line 141. *)
Definition pivots (args : Args) (datapoints : Z) : option (list Z) :=
  Py.np_arange (past_window args * sample_rate args) datapoints
               (future_window args * sample_rate args).

(** Line 79: the possible values of [random_indices]. *)
Definition random_indices (args : Args) (datapoints : Z) (out : list Z) : Prop :=
  Py.randint (past_window args * sample_rate args)
             (Py.int_080 datapoints - future_window args * sample_rate args)
             (batch_size args) out.

(** ** The collaborators of the core

    [model.Network], [protocols.tsch], [protocols.intelligent_tsch],
    [simulation.BitErrorProb], [simulation.PacketReceptionProb] and the
    torch routines whose results are not rational ([torch.std],
    [func.interpolate], the optimiser) are not part of [main.py]; the core
    is written against them. *)

Class External : Type := {
  (** A predictor: its parameters together with the state of its optimiser. *)
  Network : Type;
  (** [network(x)]: scores of shape (batch, channels). *)
  forward : Network -> tensor3 -> tensor2;
  (** [loss_func.backward(); optimizer.step()], a function of the
      predictor and of what the loss was computed from. *)
  optimizer_step : Network -> tensor3 -> tensor2 -> Q -> Network;
  (** [func.interpolate(x.permute(1, 2, 0), scale_factor=s, mode='linear')
      .permute(2, 0, 1)]. *)
  downsample : tensor3 -> Q -> tensor3;
  torch_std : tensor3 -> Q;
  (** [tsch(x)]: interference power and the channel-attribution matrix. *)
  tsch : tensor3 -> tensor2 * tensor3;
  intelligent_tsch : tensor3 -> mask -> tensor2;
  error_props : tensor2 -> tensor2;
  (** Whether the tensor [error_props(x)] is stored column by column, as
      the transpose of a contiguous (batch, time) tensor is; a contiguous
      (time, batch) tensor with two or more rows and columns is not.
      [.permute(1, 0).view(-1, 1)] at line 154 depends on it. *)
  error_props_column_major : tensor2 -> bool;
  reception_props : tensor2 -> tensor2
}.

Section Program.
Context {ext : External}.

(** *** Program variables that outlive the set-up *)

Record Env : Type := {
  data : tensor3;
  train_samples_cutoff : Z;
  training_data : tensor3;
  data_mean : Q;
  data_std : Q;
  models : list (String.string * (Q * Network))
}.

Fixpoint lookup {V : Type} (k : String.string) (d : list (String.string * V))
  : option V :=
  match d with
  | [] => None
  | (k', v) :: d' => if String.eqb k k' then Some v else lookup k d'
  end.

Fixpoint assign {V : Type} (k : String.string) (v : V)
  (d : list (String.string * V)) : list (String.string * V) :=
  match d with
  | [] => [(k, v)]
  | (k', v') :: d' =>
      if String.eqb k k' then (k, v) :: d' else (k', v') :: assign k v d'
  end.

(** Lines 58-68. *)
Definition setup (args : Args) (data : tensor3) (net_mean net_max : Network)
  : Env :=
  let train_samples_cutoff := (train_split args * sample_rate args)%Z in
  let training_data := Py.slice data 0 train_samples_cutoff in
  {| data := data;
     train_samples_cutoff := train_samples_cutoff;
     training_data := training_data;
     data_mean := Py.mean training_data;
     data_std := torch_std training_data;
     models := [("mean"%string, (5 # 100, net_mean));
                ("max"%string, (55 # 100, net_max))] |}.

(** Lines 83-84 and 144-145. *)
Definition past_windows_downsampled (args : Args) (past_windows : tensor3)
  : tensor3 :=
  downsample past_windows
             (inject_Z (target_rate args) / inject_Z (sample_rate args))%Q.

Definition standardize (x : tensor3) (mean std : Q) : tensor3 :=
  map (map (map (fun v => ((v - mean) / std)%Q))) x.

Definition past_windows_normalized (env : Env) (args : Args)
  (past_windows : tensor3) : tensor3 :=
  standardize (past_windows_downsampled args past_windows)
              (data_mean env) (data_std env).

(** *** One training iteration (lines 77-101) *)

(** Lines 80-84: what the predictor is fed in a training iteration. *)
Definition training_input (env : Env) (args : Args) (indices : list Z)
  : option tensor3 :=
  pw <- past_windows (training_data env) args indices ;;
  Some (past_windows_normalized env args pw).

Definition train_iteration (env : Env) (args : Args)
  (reducing_method : String.string) (indices : list Z) : option Env :=
  model <- lookup reducing_method (models env) ;;
  let '(penalty_weight, network) := model in
  input <- training_input env args indices ;;
  fw <- future_windows (training_data env) args indices ;;
  let blacklist := forward network input in
  let '(interference_power_levels, channels_matrix) := tsch fw in
  let error_prop_values := error_props interference_power_levels in
  reduced <- errors_reduced error_prop_values channels_matrix reducing_method ;;
  _ <- Loss.loss_func (Rdefinitions.Q2R penalty_weight) (Loss.of_tensor2 reduced)
                      (Loss.of_tensor2 blacklist) ;;
  let network := optimizer_step network input reduced penalty_weight in
  Some {| data := data env;
          train_samples_cutoff := train_samples_cutoff env;
          training_data := training_data env;
          data_mean := data_mean env;
          data_std := data_std env;
          models := assign reducing_method (penalty_weight, network)
                           (models env) |}.

(** Lines 121-123: a saved predictor replaces the fresh one. *)
Definition load_model (env : Env) (reducing_method : String.string)
  (saved : Network) : option Env :=
  model <- lookup reducing_method (models env) ;;
  Some {| data := data env;
          train_samples_cutoff := train_samples_cutoff env;
          training_data := training_data env;
          data_mean := data_mean env;
          data_std := data_std env;
          models := assign reducing_method (fst model, saved) (models env) |}.

(** The states of the program between set-up and evaluation: any number
    of training iterations, each on indices that line 79 can draw, or the
    loading of saved predictors. *)
Inductive reachable (args : Args) (data0 : tensor3) (net_mean net_max : Network)
  : Env -> Prop :=
| reachable_setup :
    reachable args data0 net_mean net_max (setup args data0 net_mean net_max)
| reachable_train env env' reducing_method indices :
    reachable args data0 net_mean net_max env ->
    random_indices args (Z.of_nat (length data0)) indices ->
    train_iteration env args reducing_method indices = Some env' ->
    reachable args data0 net_mean net_max env'
| reachable_load env env' reducing_method saved :
    reachable args data0 net_mean net_max env ->
    load_model env reducing_method saved = Some env' ->
    reachable args data0 net_mean net_max env'.

(** *** Evaluation (lines 126-128 and 139-154) *)

(** Lines 141-145: what the predictor is fed in the evaluation. *)
Definition evaluation_input (env : Env) (args : Args) : option tensor3 :=
  grid <- pivots args (Z.of_nat (length (data env))) ;;
  pw <- past_windows (data env) args grid ;;
  Some (past_windows_normalized env args pw).

(** Lines 141-151: the mask handed to the simulator. *)
Definition evaluation_mask (env : Env) (args : Args)
  (reducing_method : String.string) : option mask :=
  model <- lookup reducing_method (models env) ;;
  input <- evaluation_input env args ;;
  let blacklist := forward (snd model) input in
  available_channels blacklist.

(** Lines 126-127. *)
Definition tsch_errors (env : Env) : tensor2 :=
  error_props (fst (tsch (data env))).

(** Line 128. *)
Definition tsch_receptions (env : Env) : tensor2 :=
  reception_props (tsch_errors env).

(** Lines 141-154: the stitched reception series of one model. *)
Definition reception_props_values (env : Env) (args : Args)
  (reducing_method : String.string) : option tensor2 :=
  grid <- pivots args (Z.of_nat (length (data env))) ;;
  fw <- future_windows (data env) args grid ;;
  available <- evaluation_mask env args reducing_method ;;
  let interference_values := intelligent_tsch fw available in
  let error_props_values := error_props interference_values in
  masked <- Py.view_column (error_props_column_major interference_values)
                           (Py.permute_1_0 error_props_values) ;;
  stitched <- Py.cat_dim0
                (Py.slice (tsch_errors env) 0
                          (past_window args * sample_rate args))
                masked ;;
  Some (reception_props stitched).

(** The penalty weights of the models, without the predictors. *)
Definition penalty_weights (d : list (String.string * (Q * Network)))
  : list (String.string * Q) :=
  map (fun kv => (fst kv, fst (snd kv))) d.

End Program.

(** Entries of a tensor within [0, 1]. *)
Definition unit_entriesQ (m : tensor2) : Prop :=
  Forall (Forall (fun q => 0 <= q <= 1)%Q) m.

(** ** Hand-built inputs

    Small tensors, arguments and collaborators on which the definitions
    above are run. *)

(** A row whose sixteen scores are pairwise distinct. *)
Definition distinct_scores : list Q :=
  map (fun n => (inject_Z n / 16)%Q)
      [3; 14; 0; 9; 6; 11; 1; 15; 8; 2; 13; 5; 10; 4; 12; 7]%Z.

(** Error values, attribution weights and attributed values with two
    entries along axis 0, one batch row and two channels. *)
Definition fixture_errors : tensor2 := [[1 # 10]; [3 # 10]]%Q.
Definition fixture_attribution : tensor3 := [[[1; 0]]; [[1; 2]]]%Q.
Definition fixture_values : tensor3 := [[[1 # 10; 4 # 10]]; [[3 # 10; 2 # 10]]]%Q.

(** What lines 89-90 return on them for the two reducers. *)
Definition fixture_reduced_mean : tensor2 :=
  match errors_reduced fixture_errors fixture_attribution "mean"%string with
  | Some r => r
  | None => []
  end.

Definition fixture_reduced_max : tensor2 :=
  match errors_reduced fixture_errors fixture_attribution "max"%string with
  | Some r => r
  | None => []
  end.

(** A synthetic Series of [n] time steps with one sequence and one
    channel, whose entry at time [t] is [t]. *)
Definition synthetic_series (n : nat) : tensor3 :=
  map (fun t => [[inject_Z (Z.of_nat t)]]) (seq 0 n).

(** Windows of 50 samples: 5 seconds at 10 samples per second. *)
Definition synthetic_args : Args :=
  {| train_split := 80; sample_rate := 10; target_rate := 10;
     past_window := 5; future_window := 5; iterations := 1;
     batch_size := 1 |}.

(** A run with [--train-split 100 --sample-rate 1 --target-rate 1
    --batch-size 1]. *)
Definition short_split_args : Args :=
  {| train_split := 100; sample_rate := 1; target_rate := 1;
     past_window := 5; future_window := 5; iterations := 1000;
     batch_size := 1 |}.

(** Hand-built collaborators: a predictor that returns the same sixteen
    distinct scores for every batch row, a baseline simulator that reads
    the first channel and attributes it to each of sixteen channels with
    weight one, a masked simulator that adds up the available channels,
    and pointwise error and reception models.  The error model
    hands its result over stored column by column, one batch entry after
    the other. *)
Definition toy_masked_power (chans : list Q) (available : list bool) : Q :=
  Qsum (map2 (fun v (a : bool) => if a then v else 0%Q) chans available).

Definition toy : External :=
  {| Network := unit;
     forward := fun _ x => map (fun _ => distinct_scores) (hd [] x);
     optimizer_step := fun net _ _ _ => net;
     downsample := fun x _ => x;
     torch_std := fun _ => 1%Q;
     tsch := fun x => (map (map (fun chans => hd 0%Q chans)) x,
                       map (map (fun _ => repeat 1%Q 16)) x);
     intelligent_tsch := fun fw available =>
       map (fun frame =>
              map (fun bc => toy_masked_power (snd bc) (nth (fst bc) available []))
                  (combine (seq 0 (length frame)) frame)) fw;
     error_props := map (map (fun p => (p / (p + 1))%Q));
     error_props_column_major := fun _ => true;
     reception_props := map (map (fun p => (1 - p)%Q)) |}.

(** The same collaborators with a predictor that scores every channel one
    half. *)
Definition flat_toy : External :=
  {| Network := unit;
     forward := fun _ x => map (fun _ => repeat (1 # 2)%Q 16) (hd [] x);
     optimizer_step := fun net _ _ _ => net;
     downsample := @downsample toy;
     torch_std := @torch_std toy;
     tsch := @tsch toy;
     intelligent_tsch := @intelligent_tsch toy;
     error_props := @error_props toy;
     error_props_column_major := @error_props_column_major toy;
     reception_props := @reception_props toy |}.

(** The same collaborators with an error model whose result is a
    contiguous (time, batch) tensor. *)
Definition contiguous_toy : External :=
  {| Network := unit;
     forward := @forward toy;
     optimizer_step := fun net _ _ _ => net;
     downsample := @downsample toy;
     torch_std := @torch_std toy;
     tsch := @tsch toy;
     intelligent_tsch := @intelligent_tsch toy;
     error_props := @error_props toy;
     error_props_column_major := fun _ => false;
     reception_props := @reception_props toy |}.

(** The program after its set-up on Series of 70 and of 150 time steps. *)
Definition short_env : @Env toy :=
  @setup toy synthetic_args (synthetic_series 70) tt tt.

Definition toy_env : @Env toy :=
  @setup toy synthetic_args (synthetic_series 150) tt tt.

Definition flat_env : @Env flat_toy :=
  @setup flat_toy synthetic_args (synthetic_series 150) tt tt.

(** The state after one training iteration of the 'mean' model at the
    pivot 60, if that iteration goes through. *)
Definition toy_env_trained : @Env toy :=
  match @train_iteration toy toy_env synthetic_args "mean"%string [60%Z] with
  | Some env' => env'
  | None => toy_env
  end.

(** The state after that iteration and the loading of a saved predictor
    for the 'max' model. *)
Definition toy_env_loaded : @Env toy :=
  match @load_model toy toy_env_trained "max"%string tt with
  | Some env' => env'
  | None => toy_env_trained
  end.

(* ================================================================== *)
(** * Part II. Properties *)
(* ================================================================== *)

(** ** Sorting *)

Lemma Qltb_lt (x y : Q) : Py.Qltb x y = true <-> (x < y)%Q.
Proof.
  unfold Py.Qltb. rewrite negb_true_iff.
  split; intro H.
  - apply Qnot_le_lt. intro Hle. apply Qle_bool_iff in Hle. congruence.
  - apply not_true_is_false. intro Hle. apply Qle_bool_iff in Hle.
    exact (Qlt_not_le _ _ H Hle).
Qed.

Lemma Qltb_ge (x y : Q) : Py.Qltb x y = false <-> (y <= x)%Q.
Proof.
  unfold Py.Qltb. rewrite negb_false_iff. apply Qle_bool_iff.
Qed.

Lemma insert_perm (x : Q) (l : list Q) : Permutation (x :: l) (Py.insert x l).
Proof.
  induction l as [|y l IH]; simpl; [reflexivity|].
  destruct (Qle_bool x y); [reflexivity|].
  rewrite perm_swap. now apply perm_skip.
Qed.

Lemma sort_row_perm (row : list Q) : Permutation row (Py.sort_row row).
Proof.
  induction row as [|x row IH]; simpl; [constructor|].
  etransitivity; [apply perm_skip, IH | apply insert_perm].
Qed.

Lemma insert_sorted (x : Q) (l : list Q) :
  StronglySorted Qle l -> StronglySorted Qle (Py.insert x l).
Proof.
  induction 1 as [|y l Hs IH Hall]; simpl.
  - repeat constructor.
  - destruct (Qle_bool x y) eqn:E.
    + apply Qle_bool_iff in E. constructor.
      * now constructor.
      * constructor; [exact E|].
        eapply Forall_impl; [|exact Hall]. intros z Hz. now apply Qle_trans with y.
    + constructor; [exact IH|].
      assert (Hyx : (y <= x)%Q).
      { apply Qlt_le_weak. apply Qnot_le_lt. intro Hle.
        apply Qle_bool_iff in Hle. congruence. }
      eapply Permutation_Forall; [apply insert_perm|].
      now constructor.
Qed.

Lemma sort_row_sorted (row : list Q) : StronglySorted Qle (Py.sort_row row).
Proof.
  induction row as [|x row IH]; simpl; [constructor|].
  now apply insert_sorted.
Qed.

Lemma sort_row_length (row : list Q) : length (Py.sort_row row) = length row.
Proof. symmetry. apply Permutation_length, sort_row_perm. Qed.

(** ** Counting below a threshold *)

Lemma filter_length_perm {A : Type} (f : A -> bool) (l l' : list A) :
  Permutation l l' -> length (filter f l) = length (filter f l').
Proof.
  induction 1 as [| x l l' _ IH | x y l | l l' l'' _ IH1 _ IH2]; simpl.
  - reflexivity.
  - destruct (f x); simpl; congruence.
  - destruct (f x), (f y); reflexivity.
  - congruence.
Qed.

Lemma count_true_map {A : Type} (f : A -> bool) (l : list A) :
  count_true (map f l) = length (filter f l).
Proof.
  unfold count_true. induction l as [|x l IH]; simpl; [reflexivity|].
  unfold id at 1. destruct (f x); simpl; congruence.
Qed.

Lemma filter_none {A : Type} (f : A -> bool) (l : list A) :
  Forall (fun x => f x = false) l -> filter f l = [].
Proof.
  induction 1 as [|x l Hx _ IH]; simpl; [reflexivity|]. now rewrite Hx.
Qed.

Lemma filter_all {A : Type} (f : A -> bool) (l : list A) :
  Forall (fun x => f x = true) l -> filter f l = l.
Proof.
  induction 1 as [|x l Hx _ IH]; simpl; [reflexivity|]. now rewrite Hx, IH.
Qed.

(** A sorted row splits around position [k] into values not above and
    values not below the one stored there. *)
Lemma sorted_split (s : list Q) :
  StronglySorted Qle s ->
  forall (k : nat) (t : Q), nth_error s k = Some t ->
  exists a b, s = a ++ t :: b /\ length a = k /\
              Forall (fun x => x <= t)%Q a /\ Forall (fun x => t <= x)%Q b.
Proof.
  induction 1 as [|y s Hs IH Hall]; intros k t Hk.
  - destruct k; discriminate.
  - destruct k as [|k]; simpl in Hk.
    + injection Hk as ->. exists [], s. repeat split; auto.
    + destruct (IH k t Hk) as (a & b & -> & Hlen & Ha & Hb).
      exists (y :: a), b. repeat split; simpl; auto.
      constructor; [|exact Ha].
      apply Forall_app in Hall. destruct Hall as [_ Hall].
      now inversion Hall.
Qed.

Lemma count_lt_sorted_le (s : list Q) (k : nat) (t : Q) :
  StronglySorted Qle s -> nth_error s k = Some t -> (count_lt t s <= k)%nat.
Proof.
  intros Hs Hk. destruct (sorted_split _ Hs k t Hk) as (a & b & -> & Hlen & _ & Hb).
  unfold count_lt. rewrite filter_app, length_app.
  rewrite (filter_none _ (t :: b)).
  - simpl. rewrite Nat.add_0_r, <- Hlen. apply filter_length_le.
  - constructor; [apply Qltb_ge, Qle_refl|].
    eapply Forall_impl; [|exact Hb]. intros x Hx. now apply Qltb_ge.
Qed.

Lemma count_lt_sorted_eq (s : list Q) (k : nat) (t : Q) :
  StronglySorted Qle s -> nth_error s k = Some t ->
  count_eq t s = 1%nat -> count_lt t s = k.
Proof.
  intros Hs Hk Hone.
  destruct (sorted_split _ Hs k t Hk) as (a & b & -> & Hlen & Ha & Hb).
  unfold count_eq in Hone. unfold count_lt.
  rewrite filter_app, length_app in *.
  simpl in Hone. rewrite (proj2 (Qeq_bool_iff t t) (Qeq_refl t)) in Hone.
  simpl in Hone.
  assert (Hnone : filter (fun x => Qeq_bool x t) a = []).
  { destruct (filter (fun x => Qeq_bool x t) a); [reflexivity|simpl in Hone; lia]. }
  rewrite (filter_none _ (t :: b)).
  - simpl. rewrite Nat.add_0_r, <- Hlen. f_equal. apply filter_all.
    apply Forall_forall. intros x Hx. apply Qltb_lt.
    pose proof (proj1 (Forall_forall _ _) Ha x Hx) as Hle.
    apply Qle_lteq in Hle. destruct Hle as [Hlt|Heq]; [exact Hlt|].
    exfalso. apply Qeq_bool_iff in Heq.
    assert (Hin : In x (filter (fun x => Qeq_bool x t) a))
      by (apply filter_In; split; assumption).
    rewrite Hnone in Hin. exact Hin.
  - constructor; [apply Qltb_ge, Qle_refl|].
    eapply Forall_impl; [|exact Hb]. intros x Hx. now apply Qltb_ge.
Qed.

(** ** The availability mask, row by row *)

Lemma column_np_sort (k : nat) (blacklist : tensor2) :
  Forall (fun r => (k < length r)%nat) blacklist ->
  Py.column k (Py.np_sort blacklist)
  = Some (map (fun r => nth k (Py.sort_row r) 0%Q) blacklist).
Proof.
  unfold Py.column, Py.np_sort.
  induction 1 as [|r bl Hr _ IH]; simpl; [reflexivity|].
  rewrite IH. rewrite <- sort_row_length in Hr.
  now rewrite (nth_error_nth' _ 0%Q Hr).
Qed.

Lemma lt_broadcast_rows (blacklist : tensor2) (f : list Q -> Q) :
  Py.lt_broadcast blacklist (Py.expand_dims_axis1 (map f blacklist))
  = map (fun r => map (fun x => Py.Qltb x (f r)) r) blacklist.
Proof.
  unfold Py.lt_broadcast, Py.expand_dims_axis1.
  induction blacklist as [|r bl IH]; simpl; [reflexivity|]. now rewrite IH.
Qed.

Lemma available_channels_rows (blacklist : tensor2) :
  Forall (fun r => (8 < length r)%nat) blacklist ->
  available_channels blacklist
  = Some (map (fun r => map (fun x => Py.Qltb x (nth 8 (Py.sort_row r) 0%Q)) r)
              blacklist).
Proof.
  intro H. unfold available_channels.
  rewrite (column_np_sort _ _ H). simpl. now rewrite lt_broadcast_rows.
Qed.

Lemma row_mask_count (row : list Q) (k : nat) (t : Q) :
  nth_error (Py.sort_row row) k = Some t ->
  (count_true (map (fun x => Py.Qltb x t) row) <= k)%nat /\
  (count_eq t row = 1%nat -> count_true (map (fun x => Py.Qltb x t) row) = k).
Proof.
  intro Hk. rewrite count_true_map.
  pose proof (sort_row_perm row) as Hp.
  pose proof (sort_row_sorted row) as Hs.
  fold (count_lt t row). unfold count_lt, count_eq.
  rewrite (filter_length_perm _ _ _ Hp), (filter_length_perm (fun x => Qeq_bool x t) _ _ Hp).
  split.
  - exact (count_lt_sorted_le _ k t Hs Hk).
  - exact (count_lt_sorted_eq _ k t Hs Hk).
Qed.

(** C1. For a score matrix with 16 channels per row, the mask of lines
    148-151 exists, each of its rows marks exactly the channels whose score
    is strictly below the row's threshold (the value at position 8 of the
    row sorted ascending), no row has more than 16 - 8 = 8 available
    channels, and a row in which the threshold value is held by a single
    channel (no tie at the threshold) has exactly 8. *)
Theorem available_channels_budget (blacklist : tensor2) :
  Forall (fun r => length r = 16%nat) blacklist ->
  exists m : mask,
    available_channels blacklist = Some m /\
    length m = length blacklist /\
    forall (i : nat) (row : list Q),
      nth_error blacklist i = Some row ->
      exists (t : Q) (mrow : list bool),
        nth_error (Py.sort_row row) 8 = Some t /\
        nth_error m i = Some mrow /\
        mrow = map (fun x => Py.Qltb x t) row /\
        (count_true mrow <= 16 - 8)%nat /\
        (count_eq t row = 1%nat -> count_true mrow = (16 - 8)%nat).
Proof.
  intro Hshape.
  assert (H8 : Forall (fun r : list Q => (8 < length r)%nat) blacklist).
  { eapply Forall_impl; [|exact Hshape]. simpl. intros r ->. lia. }
  eexists. split; [apply (available_channels_rows _ H8)|].
  split; [apply length_map|].
  intros i row Hi.
  assert (Hlen : (8 < length (Py.sort_row row))%nat).
  { rewrite sort_row_length.
    exact (proj1 (Forall_forall _ _) H8 row (nth_error_In _ _ Hi)). }
  set (t := nth 8 (Py.sort_row row) 0%Q).
  assert (Ht : nth_error (Py.sort_row row) 8 = Some t)
    by (apply nth_error_nth'; exact Hlen).
  exists t, (map (fun x => Py.Qltb x t) row).
  split; [exact Ht|].
  split; [rewrite nth_error_map, Hi; reflexivity|].
  split; [reflexivity|].
  exact (row_mask_count row 8 t Ht).
Qed.

Lemma available_channels_budget_witness :
  exists m : mask,
    available_channels [distinct_scores] = Some m /\
    length m = 1%nat /\
    forall (i : nat) (row : list Q),
      nth_error [distinct_scores] i = Some row ->
      exists (t : Q) (mrow : list bool),
        nth_error (Py.sort_row row) 8 = Some t /\
        nth_error m i = Some mrow /\
        mrow = map (fun x => Py.Qltb x t) row /\
        (count_true mrow <= 16 - 8)%nat /\
        (count_eq t row = 1%nat -> count_true mrow = (16 - 8)%nat).
Proof.
  apply (available_channels_budget [distinct_scores]).
  repeat constructor.
Defined.

(** The row of distinct scores by evaluation: the threshold 8/16 is held
    by one channel and the eight channels below it are available. *)
Example distinct_scores_mask :
  nth_error (Py.sort_row distinct_scores) 8 = Some (8 / 16)%Q /\
  count_eq (8 / 16) distinct_scores = 1%nat /\
  option_map (map count_true) (available_channels [distinct_scores])
  = Some [8%nat].
Proof. repeat split; vm_compute; reflexivity. Qed.

(** A tie at the threshold: seven distinct low scores and nine channels
    that share the next one leave seven channels available. *)
Example tie_at_threshold_mask :
  option_map (map count_true)
             (available_channels
                [map (fun n => (inject_Z n / 16)%Q)
                     [0; 1; 2; 3; 4; 5; 6; 9; 9; 9; 9; 9; 9; 9; 9; 9]%Z])
  = Some [7%nat].
Proof. vm_compute. reflexivity. Qed.

(** ** Rows of equal scores *)

Lemma sort_row_repeat (v : Q) (n : nat) : Py.sort_row (repeat v n) = repeat v n.
Proof.
  induction n as [|n IH]; simpl; [reflexivity|].
  fold (Py.sort_row (repeat v n)). rewrite IH.
  destruct n as [|n]; simpl; [reflexivity|].
  now rewrite (proj2 (Qle_bool_iff v v) (Qle_refl v)).
Qed.

Lemma Qltb_irrefl (v : Q) : Py.Qltb v v = false.
Proof. apply Qltb_ge, Qle_refl. Qed.

Lemma map_const_repeat {A B : Type} (b : B) (f : A -> B) (l : list A) :
  (forall a, In a l -> f a = b) -> map f l = repeat b (length l).
Proof.
  induction l as [|a l IH]; simpl; intro H; [reflexivity|].
  rewrite (H a (or_introl eq_refl)), IH; auto.
Qed.

Lemma count_true_repeat_false (n : nat) : count_true (repeat false n) = 0%nat.
Proof. unfold count_true. induction n; simpl; auto. Qed.

Lemma available_channels_constant (v : Q) (batch : nat) :
  available_channels (repeat (repeat v 16) batch)
  = Some (repeat (repeat false 16) batch).
Proof.
  rewrite available_channels_rows.
  - f_equal. rewrite map_repeat, sort_row_repeat. f_equal.
    change (nth 8 (repeat v 16) 0%Q) with v.
    rewrite (map_const_repeat false); [now rewrite repeat_length|].
    intros a Ha. apply repeat_spec in Ha. subst a. apply Qltb_irrefl.
  - apply Forall_forall. intros r Hr. apply repeat_spec in Hr. subst r.
    rewrite repeat_length. lia.
Qed.

(** C10. A score matrix whose rows each hold sixteen equal scores gets a
    mask without a single available channel: the threshold of such a row is
    the common score and no score is strictly below it.  One such matrix,
    with scores in [0, 1], is the row of sixteen halves. *)
Theorem available_channels_can_be_empty :
  (forall (v : Q) (batch : nat),
      exists m : mask,
        available_channels (repeat (repeat v 16) batch) = Some m /\
        length m = batch /\
        Forall (fun row => length row = 16%nat /\ count_true row = 0%nat) m) /\
  (exists blacklist : tensor2,
      shape2 1 16 blacklist /\
      Forall (Forall (fun x => 0 <= x <= 1)%Q) blacklist /\
      available_channels blacklist = Some [repeat false 16]).
Proof.
  split.
  - intros v batch. exists (repeat (repeat false 16) batch).
    split; [apply available_channels_constant|].
    split; [apply repeat_length|].
    apply Forall_forall. intros row Hrow. apply repeat_spec in Hrow. subst row.
    split; [apply repeat_length | apply count_true_repeat_false].
  - exists [repeat (1 # 2)%Q 16]. split; [|split].
    + split; [reflexivity|]. repeat constructor.
    + repeat constructor; discriminate.
    + exact (available_channels_constant (1 # 2) 1).
Qed.

(** ** Pointwise operations on tensors *)

Lemma length_map2 {A B C : Type} (f : A -> B -> C) (l : list A) (l' : list B) :
  length (map2 f l l') = Nat.min (length l) (length l').
Proof.
  revert l'. induction l as [|a l IH]; intros [|b l']; simpl; auto.
Qed.

Lemma nth_map2 {A B C : Type} (f : A -> B -> C) (l : list A) (l' : list B)
  (n : nat) (da : A) (db : B) (dc : C) :
  (n < length l)%nat -> (n < length l')%nat ->
  nth n (map2 f l l') dc = f (nth n l da) (nth n l' db).
Proof.
  revert l' n. induction l as [|a l IH]; intros [|b l'] n Hl Hl'; simpl in *;
    try lia.
  destruct n as [|n]; [reflexivity|]. apply IH; lia.
Qed.

Lemma shape2_row (n0 n1 : nat) (m : tensor2) (i : nat) :
  shape2 n0 n1 m -> (i < n0)%nat -> length (nth i m []) = n1.
Proof.
  intros [Hlen Hrows] Hi.
  apply (proj1 (Forall_forall _ _) Hrows). apply nth_In. lia.
Qed.

Section Pointwise.
Variable f : Q -> Q -> Q.
Variables n1 n2 : nat.

Lemma shape2_map2 (a b : tensor2) :
  shape2 n1 n2 a -> shape2 n1 n2 b -> shape2 n1 n2 (map2 (map2 f) a b).
Proof.
  intros [Ha Hra] [Hb Hrb]. split.
  - rewrite length_map2. lia.
  - clear Ha Hb. revert b Hrb.
    induction Hra as [|r a Hr _ IH]; intros [|r' b] Hrb; simpl; constructor.
    + inversion Hrb; subst. rewrite length_map2. lia.
    + inversion Hrb; subst. now apply IH.
Qed.

Lemma cell_map2 (a b : tensor2) (i j : nat) :
  shape2 n1 n2 a -> shape2 n1 n2 b -> (i < n1)%nat -> (j < n2)%nat ->
  cell (map2 (map2 f) a b) i j = f (cell a i j) (cell b i j).
Proof.
  intros Ha Hb Hi Hj. unfold cell.
  rewrite (nth_map2 (map2 f) a b i [] [] []);
    [| destruct Ha; lia | destruct Hb; lia].
  apply nth_map2.
  - now rewrite (shape2_row n1 n2 a i Ha Hi).
  - now rewrite (shape2_row n1 n2 b i Hb Hi).
Qed.

(** Folding a pointwise operation over the entries along axis 0 folds the
    operation over every fiber. *)
Lemma fold_map2 (ms : tensor3) :
  Forall (shape2 n1 n2) ms ->
  forall m : tensor2, shape2 n1 n2 m ->
  shape2 n1 n2 (fold_left (fun a b => map2 (map2 f) a b) ms m) /\
  forall i j, (i < n1)%nat -> (j < n2)%nat ->
    cell (fold_left (fun a b => map2 (map2 f) a b) ms m) i j
    = fold_left f (fiber ms i j) (cell m i j).
Proof.
  induction 1 as [|m' ms Hm' _ IH]; intros m Hm; simpl.
  - split; [exact Hm | reflexivity].
  - destruct (IH (map2 (map2 f) m m') (shape2_map2 m m' Hm Hm')) as [Hs Hc].
    split; [exact Hs|].
    intros i j Hi Hj. rewrite (Hc i j Hi Hj).
    now rewrite (cell_map2 m m' i j Hm Hm' Hi Hj).
Qed.
End Pointwise.

Lemma fold_left_Qplus (l : list Q) (a : Q) :
  (fold_left Qplus l a == a + Qsum l)%Q.
Proof.
  revert a. induction l as [|x l IH]; intro a; simpl.
  - now rewrite Qplus_0_r.
  - rewrite IH. now rewrite Qplus_assoc.
Qed.

Lemma Qmax_cases (x y : Q) : Qmax x y = x \/ Qmax x y = y.
Proof.
  unfold Qmax, GenericMinMax.gmax. destruct (x ?= y)%Q; auto.
Qed.

Lemma fold_left_Qmax (l : list Q) (a : Q) :
  is_maximum (fold_left Qmax l a) (a :: l).
Proof.
  revert a. induction l as [|x l IH]; intro a; simpl.
  - split; [now left | repeat constructor; apply Qle_refl].
  - destruct (IH (Qmax a x)) as [Hin Hub]. split.
    + destruct Hin as [Heq|Hin]; [|now right; right].
      rewrite <- Heq. destruct (Qmax_cases a x) as [-> | ->]; simpl; auto.
    + inversion Hub as [|? ? Hmax Hrest]; subst.
      constructor; [|constructor; [|exact Hrest]].
      * eapply Qle_trans; [apply Q.le_max_l | exact Hmax].
      * eapply Qle_trans; [apply Q.le_max_r | exact Hmax].
Qed.

(** ** Sums and maxima along axis 0 *)

Lemma sum_dim0_cell (n0 n1 n2 : nat) (t : tensor3) :
  (1 <= n0)%nat -> shape3 n0 n1 n2 t ->
  shape2 n1 n2 (Py.sum_dim0 t) /\
  forall i j, (i < n1)%nat -> (j < n2)%nat ->
    (cell (Py.sum_dim0 t) i j == Qsum (fiber t i j))%Q.
Proof.
  intros Hpos [Hlen Hall]. destruct t as [|m ms]; [simpl in Hlen; lia|].
  inversion Hall as [|? ? Hm Hms]; subst.
  destruct (fold_map2 Qplus n1 n2 ms Hms m Hm) as [Hs Hc].
  split; [exact Hs|].
  intros i j Hi Hj. pose proof (Hc i j Hi Hj) as E.
  change (cell (Py.sum_dim0 (m :: ms)) i j
          = fold_left Qplus (fiber ms i j) (cell m i j)) in E.
  rewrite E. apply fold_left_Qplus.
Qed.

Lemma max_dim0_cell (n0 n1 n2 : nat) (t : tensor3) :
  (1 <= n0)%nat -> shape3 n0 n1 n2 t ->
  exists r : tensor2,
    Py.max_dim0 t = Some r /\ shape2 n1 n2 r /\
    forall i j, (i < n1)%nat -> (j < n2)%nat ->
      is_maximum (cell r i j) (fiber t i j).
Proof.
  intros Hpos [Hlen Hall]. destruct t as [|m ms]; [simpl in Hlen; lia|].
  inversion Hall as [|? ? Hm Hms]; subst.
  destruct (fold_map2 Qmax n1 n2 ms Hms m Hm) as [Hs Hc].
  exists (fold_left Py.max2 ms m). split; [reflexivity|].
  split; [exact Hs|].
  intros i j Hi Hj. pose proof (Hc i j Hi Hj) as E.
  change (cell (fold_left Py.max2 ms m) i j
          = fold_left Qmax (fiber ms i j) (cell m i j)) in E.
  rewrite E. apply fold_left_Qmax.
Qed.

(** ** The attributed error values of line 89 *)

Lemma mul_unsqueeze_row (r : list Q) (rm : list (list Q)) :
  map2 (fun ra rb => match ra with
                     | [x] => map (Qmult x) rb
                     | _ => map2 Qmult ra rb
                     end) (map (fun x => [x]) r) rm
  = map2 (fun x rb => map (Qmult x) rb) r rm.
Proof.
  revert rm. induction r as [|x r IH]; intros [|rb rm]; simpl; auto.
  now rewrite IH.
Qed.

Lemma error_props_per_channel_eq (e : tensor2) (m : tensor3) :
  error_props_per_channel e m
  = map2 (map2 (fun x rb => map (Qmult x) rb)) e m.
Proof.
  unfold error_props_per_channel, Py.mul, Py.unsqueeze_dim2.
  revert m. induction e as [|r e IH]; intros [|rm m]; simpl; auto.
  now rewrite IH, mul_unsqueeze_row.
Qed.

Lemma scaled_rows_shape (n1 n2 : nat) (r : list Q) (rm : tensor2) :
  length r = n1 -> shape2 n1 n2 rm ->
  shape2 n1 n2 (map2 (fun x rb => map (Qmult x) rb) r rm).
Proof.
  intros Hr [Hlen Hrows]. split.
  - rewrite length_map2. lia.
  - clear Hr Hlen. revert r.
    induction Hrows as [|rb rm Hrb _ IH]; intros [|x r]; simpl; constructor.
    + now rewrite length_map.
    + apply IH.
Qed.

Lemma scaled_rows_cell (n1 n2 : nat) (r : list Q) (rm : tensor2) (i j : nat) :
  length r = n1 -> shape2 n1 n2 rm -> (i < n1)%nat -> (j < n2)%nat ->
  cell (map2 (fun x rb => map (Qmult x) rb) r rm) i j
  = (nth i r 0 * cell rm i j)%Q.
Proof.
  intros Hr Hrm Hi Hj. unfold cell.
  rewrite (nth_map2 _ r rm i 0%Q [] []); [| lia | destruct Hrm; lia].
  rewrite (nth_indep _ 0%Q (nth i r 0 * 0)%Q).
  - apply (map_nth (Qmult (nth i r 0%Q))).
  - rewrite length_map. now rewrite (shape2_row n1 n2 rm i Hrm Hi).
Qed.

Lemma error_props_per_channel_fiber (n0 n1 n2 : nat) (e : tensor2) (m : tensor3) :
  shape2 n0 n1 e -> shape3 n0 n1 n2 m ->
  shape3 n0 n1 n2 (error_props_per_channel e m) /\
  forall i j, (i < n1)%nat -> (j < n2)%nat ->
    fiber (error_props_per_channel e m) i j
    = map2 Qmult (column_values e i) (fiber m i j).
Proof.
  rewrite error_props_per_channel_eq.
  intros [He Hre] [Hm Hrm]. revert n0 m He Hm Hrm.
  induction Hre as [|r e Hr _ IH]; intros n0 [|rm m] He Hm Hrm; simpl in *.
  - split; [split; [exact He | constructor] | reflexivity].
  - lia.
  - lia.
  - apply Forall_cons_iff in Hrm. destruct Hrm as [Hrm0 Hrm'].
    destruct (IH (length e) m eq_refl ltac:(lia) Hrm') as [[Hl Hs] Hf].
    split.
    + split; [simpl; lia|]. constructor; [|exact Hs].
      now apply scaled_rows_shape.
    + intros i j Hi Hj. rewrite (Hf i j Hi Hj). f_equal.
      now apply (scaled_rows_cell n1 n2).
Qed.

Lemma Qsum_map2_comm (a b : list Q) :
  (Qsum (map2 Qmult a b) == Qsum (map2 Qmult b a))%Q.
Proof.
  revert b. induction a as [|x a IH]; intros [|y b]; simpl; try reflexivity.
  now rewrite IH, Qmult_comm.
Qed.

Lemma Qsum_repeat_one (n : nat) : (Qsum (repeat 1 n) == inject_Z (Z.of_nat n))%Q.
Proof.
  induction n as [|n IH]; [reflexivity|].
  cbn [repeat Qsum fold_right]. fold (Qsum (repeat 1%Q n)). rewrite IH.
  rewrite Nat2Z.inj_succ, <- Z.add_1_l, inject_Z_plus. reflexivity.
Qed.

Lemma Qsum_map2_ones (l : list Q) :
  (Qsum (map2 Qmult l (repeat 1 (length l))) == Qsum l)%Q.
Proof.
  induction l as [|x l IH]; simpl; [reflexivity|].
  fold (Qsum (map2 Qmult l (repeat 1%Q (length l)))). fold (Qsum l).
  now rewrite IH, Qmult_1_r.
Qed.

Lemma ones3_shape (n0 n1 n2 : nat) : shape3 n0 n1 n2 (ones3 n0 n1 n2).
Proof.
  unfold ones3. split; [apply repeat_length|].
  apply Forall_forall. intros m Hm. apply repeat_spec in Hm. subst m.
  split; [apply repeat_length|].
  apply Forall_forall. intros r Hr. apply repeat_spec in Hr. subst r.
  apply repeat_length.
Qed.

Lemma ones3_fiber (n0 n1 n2 i j : nat) :
  (i < n1)%nat -> (j < n2)%nat -> fiber (ones3 n0 n1 n2) i j = repeat 1%Q n0.
Proof.
  intros Hi Hj. unfold fiber, ones3. rewrite map_repeat. f_equal.
  unfold cell. rewrite (nth_indep _ [] (repeat 1%Q n2)) by (now rewrite repeat_length).
  rewrite nth_repeat. rewrite (nth_indep _ 0%Q 1%Q) by (now rewrite repeat_length).
  apply nth_repeat.
Qed.

Lemma fiber_length (t : tensor3) (i j : nat) : length (fiber t i j) = length t.
Proof. apply length_map. Qed.

(** What [reduce] computes for the method 'mean', entry by entry. *)
Lemma reduce_mean_cell (n0 n1 n2 : nat) (values matrix : tensor3) :
  (1 <= n0)%nat -> shape3 n0 n1 n2 values -> shape3 n0 n1 n2 matrix ->
  exists r : tensor2,
    reduce values "mean"%string (Some matrix) = Some r /\ shape2 n1 n2 r /\
    forall i j, (i < n1)%nat -> (j < n2)%nat ->
      (cell r i j == Qsum (fiber values i j) / Qsum (fiber matrix i j))%Q.
Proof.
  intros Hpos Hv Hm.
  destruct (sum_dim0_cell n0 n1 n2 values Hpos Hv) as [Hsv Hcv].
  destruct (sum_dim0_cell n0 n1 n2 matrix Hpos Hm) as [Hsm Hcm].
  exists (Py.div2 (Py.sum_dim0 values) (Py.sum_dim0 matrix)).
  split; [reflexivity|].
  split; [now apply shape2_map2|].
  intros i j Hi Hj. unfold Py.div2.
  rewrite (cell_map2 Qdiv n1 n2 _ _ i j Hsv Hsm Hi Hj).
  now rewrite (Hcv i j Hi Hj), (Hcm i j Hi Hj).
Qed.

(** C2 (as amended).  For values and an attribution matrix of one shape
    whose weights along axis 0 have a positive sum at every position,
    [reduce] with the method 'mean' returns the sum of the values along
    axis 0 divided by the sum of the weights.  Lines 89-90 hand it the
    error values already multiplied by their weights, and what they
    return is the average of the error values along axis 0 weighted by
    the attribution matrix.  With an all-ones attribution matrix [reduce]
    returns the arithmetic mean of its values along axis 0. *)
Theorem mean_reduction_weighted_average
  (n0 n1 n2 : nat) (e : tensor2) (m values : tensor3) :
  (1 <= n0)%nat ->
  shape2 n0 n1 e -> shape3 n0 n1 n2 m -> shape3 n0 n1 n2 values ->
  (forall i j, (i < n1)%nat -> (j < n2)%nat -> (0 < Qsum (fiber m i j))%Q) ->
  (exists r : tensor2,
      reduce values "mean"%string (Some m) = Some r /\ shape2 n1 n2 r /\
      forall i j, (i < n1)%nat -> (j < n2)%nat ->
        (cell r i j == Qsum (fiber values i j) / Qsum (fiber m i j))%Q) /\
  (exists r : tensor2,
      errors_reduced e m "mean"%string = Some r /\ shape2 n1 n2 r /\
      forall i j, (i < n1)%nat -> (j < n2)%nat ->
        (cell r i j == weighted_average (fiber m i j) (column_values e i))%Q) /\
  (exists r : tensor2,
      reduce values "mean"%string (Some (ones3 n0 n1 n2)) = Some r /\
      shape2 n1 n2 r /\
      forall i j, (i < n1)%nat -> (j < n2)%nat ->
        (cell r i j == arithmetic_mean (fiber values i j))%Q).
Proof.
  intros Hpos He Hm Hv Hw. split; [|split].
  - exact (reduce_mean_cell n0 n1 n2 values m Hpos Hv Hm).
  - destruct (error_props_per_channel_fiber n0 n1 n2 e m He Hm) as [Hs Hf].
    destruct (reduce_mean_cell n0 n1 n2 _ m Hpos Hs Hm) as (r & Hr & Hshape & Hc).
    exists r. split; [exact Hr|]. split; [exact Hshape|].
    intros i j Hi Hj. rewrite (Hc i j Hi Hj), (Hf i j Hi Hj).
    unfold weighted_average. now rewrite Qsum_map2_comm.
  - destruct (reduce_mean_cell n0 n1 n2 values _ Hpos Hv (ones3_shape n0 n1 n2))
      as (r & Hr & Hshape & Hc).
    exists r. split; [exact Hr|]. split; [exact Hshape|].
    intros i j Hi Hj. rewrite (Hc i j Hi Hj), (ones3_fiber n0 n1 n2 i j Hi Hj).
    unfold arithmetic_mean. rewrite Qsum_repeat_one, fiber_length.
    destruct Hv as [-> _]. reflexivity.
Qed.

Lemma mean_reduction_weighted_average_witness :
  (exists r : tensor2,
      reduce fixture_values "mean"%string (Some fixture_attribution) = Some r /\
      shape2 1 2 r /\
      forall i j, (i < 1)%nat -> (j < 2)%nat ->
        (cell r i j
         == Qsum (fiber fixture_values i j) / Qsum (fiber fixture_attribution i j))%Q) /\
  (exists r : tensor2,
      errors_reduced fixture_errors fixture_attribution "mean"%string = Some r /\
      shape2 1 2 r /\
      forall i j, (i < 1)%nat -> (j < 2)%nat ->
        (cell r i j == weighted_average (fiber fixture_attribution i j)
                                        (column_values fixture_errors i))%Q) /\
  (exists r : tensor2,
      reduce fixture_values "mean"%string (Some (ones3 2 1 2)) = Some r /\
      shape2 1 2 r /\
      forall i j, (i < 1)%nat -> (j < 2)%nat ->
        (cell r i j == arithmetic_mean (fiber fixture_values i j))%Q).
Proof.
  apply (mean_reduction_weighted_average 2 1 2).
  - lia.
  - repeat constructor.
  - repeat constructor.
  - repeat constructor.
  - intros i j Hi Hj.
    destruct i as [|i]; [|lia].
    destruct j as [|[|j]]; [reflexivity | reflexivity | lia].
Defined.

(** Where C2 fails as it is written.  On an error tensor of the
    attribution matrix's shape the 'mean' reduction is not the average of the error values weighted
    by the attribution matrix: with the values 1 and 3 along axis 0 and
    the same two numbers as weights (weight sum 4), [reduce] returns
    (1 + 3) / (1 + 3) = 1, and the weighted average is
    (1 * 1 + 3 * 3) / (1 + 3) = 5/2. *)
Lemma mean_reduction_equal_shapes_counterexample :
  shape3 2 1 1 [[[1]]; [[3]]]%Q /\
  (0 < Qsum (fiber [[[1]]; [[3]]]%Q 0 0))%Q /\
  exists r : tensor2,
    reduce [[[1]]; [[3]]]%Q "mean"%string (Some [[[1]]; [[3]]]%Q) = Some r /\
    (cell r 0 0 == 1)%Q /\
    (weighted_average (fiber [[[1]]; [[3]]]%Q 0 0) (fiber [[[1]]; [[3]]]%Q 0 0)
     == 5 # 2)%Q /\
    ~ (cell r 0 0
       == weighted_average (fiber [[[1]]; [[3]]]%Q 0 0)
                           (fiber [[[1]]; [[3]]]%Q 0 0))%Q.
Proof.
  split; [repeat constructor|]. split; [reflexivity|].
  eexists. split; [reflexivity|].
  split; [reflexivity|]. split; [reflexivity|].
  vm_compute. discriminate.
Qed.

(** The fixture by evaluation: (0.1 * 1 + 0.3 * 1) / 2 and
    (0.1 * 0 + 0.3 * 2) / 2 for the weighted average, (0.1 + 0.3) / 2 and
    (0.4 + 0.2) / 2 for the all-ones mean. *)
Example mean_reduction_fixture :
  option_map (map (map Qred))
             (errors_reduced fixture_errors fixture_attribution "mean"%string)
  = Some [[1 # 5; 3 # 10]]%Q /\
  option_map (map (map Qred))
             (reduce fixture_values "mean"%string (Some (ones3 2 1 2)))
  = Some [[1 # 5; 3 # 10]]%Q.
Proof. split; vm_compute; reflexivity. Qed.

(** [reduce] on its own divides the sum of its values by the sum of the
    weights; it is the values handed over by line 89 that carry the
    weights as factors. *)
Example reduce_mean_unweighted_values :
  option_map (map (map Qred))
             (reduce [[[1]]; [[3]]]%Q "mean"%string (Some [[[1]]; [[3]]]%Q))
  = Some [[1]]%Q.
Proof. vm_compute. reflexivity. Qed.

(** C3. With the method 'max' (any method other than 'mean'), [reduce]
    returns at every position the maximum of the values along axis 0: a
    value that occurs there and that none of them exceeds.  Axis 0 must
    hold at least one entry; on an empty axis the call raises. *)
Theorem max_reduction_elementwise
  (n0 n1 n2 : nat) (values : tensor3) (matrix : option tensor3) :
  (1 <= n0)%nat -> shape3 n0 n1 n2 values ->
  exists r : tensor2,
    reduce values "max"%string matrix = Some r /\ shape2 n1 n2 r /\
    forall i j, (i < n1)%nat -> (j < n2)%nat ->
      is_maximum (cell r i j) (fiber values i j).
Proof.
  intros Hpos Hv. unfold reduce. simpl String.eqb. cbv iota.
  exact (max_dim0_cell n0 n1 n2 values Hpos Hv).
Qed.

Lemma max_reduction_elementwise_witness :
  exists r : tensor2,
    reduce fixture_values "max"%string (Some fixture_attribution) = Some r /\
    shape2 1 2 r /\
    forall i j, (i < 1)%nat -> (j < 2)%nat ->
      is_maximum (cell r i j) (fiber fixture_values i j).
Proof.
  apply (max_reduction_elementwise 2 1 2).
  - lia.
  - repeat constructor.
Defined.

Example max_reduction_fixture :
  reduce fixture_values "max"%string None = Some [[3 # 10; 4 # 10]]%Q /\
  reduce [] "max"%string None = None.
Proof. split; reflexivity. Qed.

(** ** Slices and concatenation *)

Lemma map_seq_nth {A : Type} (d : A) (l : list A) (n : nat) :
  length l = n -> l = map (fun k => nth k l d) (seq 0 n).
Proof.
  intro Hn. apply (nth_ext _ _ d d).
  - now rewrite length_map, length_seq.
  - intros k Hk. symmetry.
    rewrite (nth_indep (map (fun k => nth k l d) (seq 0 n)) d (nth 0 l d))
      by (rewrite length_map, length_seq; lia).
    rewrite (map_nth (fun k => nth k l d) (seq 0 n) 0%nat k).
    rewrite seq_nth by lia. reflexivity.
Qed.

Lemma map2_map {A B C D : Type} (f : A -> B -> C) (g : D -> A) (h : D -> B)
  (l : list D) :
  map2 f (map g l) (map h l) = map (fun k => f (g k) (h k)) l.
Proof. induction l as [|x l IH]; simpl; [reflexivity | now rewrite IH]. Qed.

Lemma slice_bound_inside (n i : Z) :
  (0 <= i <= n)%Z -> Py.slice_bound n i = i.
Proof.
  intro H. unfold Py.slice_bound.
  destruct (Z.ltb_spec i 0); lia.
Qed.

(** Inside the sequence, a Python slice is the interval of rows that the
    specification names. *)
Lemma slice_interval_rows (series : tensor3) (lo : Z) (len : nat) :
  (0 <= lo)%Z -> (lo + Z.of_nat len <= Z.of_nat (length series))%Z ->
  Py.slice series lo (lo + Z.of_nat len) = interval_rows series lo len.
Proof.
  intros Hlo Hhi. unfold Py.slice, interval_rows.
  rewrite !slice_bound_inside by lia.
  replace (Z.to_nat (lo + Z.of_nat len - lo)) with len by lia.
  apply (nth_ext _ _ [] []).
  - rewrite length_firstn, length_skipn, length_map, length_seq. lia.
  - intros k Hk. rewrite length_firstn, length_skipn in Hk.
    rewrite nth_firstn. destruct (Nat.ltb_spec k len); [|lia].
    rewrite nth_skipn. symmetry.
    rewrite (nth_indep
               (map (fun i => nth (Z.to_nat (lo + Z.of_nat i)) series [])
                    (seq 0 len))
               [] (nth (Z.to_nat (lo + Z.of_nat 0)) series []))
      by (rewrite length_map, length_seq; lia).
    rewrite (map_nth (fun i => nth (Z.to_nat (lo + Z.of_nat i)) series [])
                     (seq 0 len) 0%nat k).
    rewrite seq_nth by lia. f_equal. lia.
Qed.

Lemma interval_rows_length (series : tensor3) (lo : Z) (len : nat) :
  length (interval_rows series lo len) = len.
Proof. unfold interval_rows. now rewrite length_map, length_seq. Qed.

Lemma concat_sequence_axis_length (len : nat) (slices : list tensor3) :
  length (concat_sequence_axis len slices) = len.
Proof. unfold concat_sequence_axis. now rewrite length_map, length_seq. Qed.

(** [torch.cat(_, dim=1)] on tensors of one length along axis 0. *)
Lemma cat_dim1_spec (len : nat) (ts : list tensor3) :
  ts <> [] -> Forall (fun t => length t = len) ts ->
  Py.cat_dim1 ts = Some (concat_sequence_axis len ts).
Proof.
  intros Hne Hall. revert Hne.
  induction Hall as [|t rest Ht Hrest IH]; intro Hne;
    [exfalso; apply Hne; reflexivity|].
  destruct rest as [|t' rest].
  - simpl. f_equal. unfold concat_sequence_axis. simpl.
    rewrite (map_seq_nth [] t len Ht) at 1.
    apply map_ext. intro k. now rewrite app_nil_r.
  - change (Py.cat_dim1 (t :: t' :: rest))
      with (r <- Py.cat_dim1 (t' :: rest) ;;
            if (length t =? length r)%nat then Some (map2 (@app _) t r)
            else None).
    rewrite IH by discriminate. simpl bind.
    rewrite concat_sequence_axis_length, Ht, Nat.eqb_refl. f_equal.
    unfold concat_sequence_axis.
    rewrite (map_seq_nth [] t len Ht) at 1.
    now rewrite map2_map.
Qed.

(** Under the boundary invariant the slices of lines 80-81 and 142-143
    are the row intervals of the specification. *)
Lemma past_slices_intervals (series : tensor3) (args : Args) (indices : list Z) :
  (0 <= pastLen args)%Z -> (0 <= futureLen args)%Z ->
  Forall (boundary_invariant (pastLen args) (futureLen args)
                             (Z.of_nat (length series))) indices ->
  map (fun index =>
         Py.slice series (index - past_window args * sample_rate args) index)
      indices
  = map (fun pivot =>
           interval_rows series (pivot - pastLen args) (Z.to_nat (pastLen args)))
        indices.
Proof.
  intros HP HF Hinv. apply map_ext_in. intros p Hp.
  pose proof (proj1 (Forall_forall _ _) Hinv p Hp) as [H1 H2].
  fold (pastLen args). rewrite <- slice_interval_rows by lia. f_equal. lia.
Qed.

Lemma future_slices_intervals (series : tensor3) (args : Args) (indices : list Z) :
  (0 <= pastLen args)%Z -> (0 <= futureLen args)%Z ->
  Forall (boundary_invariant (pastLen args) (futureLen args)
                             (Z.of_nat (length series))) indices ->
  map (fun index =>
         Py.slice series index (index + future_window args * sample_rate args))
      indices
  = map (fun pivot => interval_rows series pivot (Z.to_nat (futureLen args)))
        indices.
Proof.
  intros HP HF Hinv. apply map_ext_in. intros p Hp.
  pose proof (proj1 (Forall_forall _ _) Hinv p Hp) as [H1 H2].
  fold (futureLen args). rewrite <- slice_interval_rows by lia. f_equal. lia.
Qed.

Lemma interval_batch_lengths (series : tensor3) (len : nat) (lo : Z -> Z)
  (indices : list Z) :
  Forall (fun t => length t = len)
         (map (fun pivot => interval_rows series (lo pivot) len) indices).
Proof.
  apply Forall_map, Forall_forall. intros p _. apply interval_rows_length.
Qed.

Lemma map_not_nil {A B : Type} (f : A -> B) (l : list A) :
  l <> [] -> map f l <> [].
Proof. intros Hne E. apply map_eq_nil in E. contradiction. Qed.

(** C4. For pivots that satisfy the boundary invariant, the past-window
    batch is the concatenation along the sequence axis of the rows
    [pivot - pastLen, pivot) of the Series, and the future-window batch
    that of the rows [pivot, pivot + futureLen), pivot by pivot in the
    order of the list. *)
Theorem window_extraction (series : tensor3) (args : Args) (indices : list Z) :
  (0 <= pastLen args)%Z -> (0 <= futureLen args)%Z ->
  indices <> [] ->
  Forall (boundary_invariant (pastLen args) (futureLen args)
                             (Z.of_nat (length series))) indices ->
  past_windows series args indices
  = Some (concat_sequence_axis
            (Z.to_nat (pastLen args))
            (map (fun pivot =>
                    interval_rows series (pivot - pastLen args)
                                  (Z.to_nat (pastLen args)))
                 indices)) /\
  future_windows series args indices
  = Some (concat_sequence_axis
            (Z.to_nat (futureLen args))
            (map (fun pivot =>
                    interval_rows series pivot (Z.to_nat (futureLen args)))
                 indices)).
Proof.
  intros HP HF Hne Hinv. split.
  - unfold past_windows.
    rewrite (past_slices_intervals series args indices HP HF Hinv).
    apply cat_dim1_spec.
    + now apply map_not_nil.
    + apply (interval_batch_lengths series _ (fun pivot => pivot - pastLen args)%Z).
  - unfold future_windows.
    rewrite (future_slices_intervals series args indices HP HF Hinv).
    apply cat_dim1_spec.
    + now apply map_not_nil.
    + apply (interval_batch_lengths series _ (fun pivot => pivot)).
Qed.

Lemma window_extraction_witness :
  past_windows (synthetic_series 1000) synthetic_args [500%Z]
  = Some (concat_sequence_axis
            (Z.to_nat (pastLen synthetic_args))
            (map (fun pivot =>
                    interval_rows (synthetic_series 1000)
                                  (pivot - pastLen synthetic_args)
                                  (Z.to_nat (pastLen synthetic_args)))
                 [500%Z])) /\
  future_windows (synthetic_series 1000) synthetic_args [500%Z]
  = Some (concat_sequence_axis
            (Z.to_nat (futureLen synthetic_args))
            (map (fun pivot =>
                    interval_rows (synthetic_series 1000) pivot
                                  (Z.to_nat (futureLen synthetic_args)))
                 [500%Z])).
Proof.
  apply (window_extraction (synthetic_series 1000) synthetic_args [500%Z]).
  - vm_compute. discriminate.
  - vm_compute. discriminate.
  - discriminate.
  - constructor; [|constructor]. vm_compute. split; discriminate.
Defined.

(** The example of the specification by evaluation: rows 450..499 and rows
    500..549. *)
Example synthetic_windows_example :
  past_windows (synthetic_series 1000) synthetic_args [500%Z]
  = Some (map (fun t => [[inject_Z t]])
              (map (fun i => 450 + Z.of_nat i)%Z (seq 0 50))) /\
  future_windows (synthetic_series 1000) synthetic_args [500%Z]
  = Some (map (fun t => [[inject_Z t]])
              (map (fun i => 500 + Z.of_nat i)%Z (seq 0 50))).
Proof. split; vm_compute; reflexivity. Qed.

(** Two pivots: the batch holds the two windows side by side along the
    sequence axis, in the order of the pivots. *)
Example synthetic_windows_two_pivots :
  past_windows (synthetic_series 10)
               {| train_split := 1; sample_rate := 1; target_rate := 1;
                  past_window := 2; future_window := 2; iterations := 1;
                  batch_size := 2 |}
               [7%Z; 3%Z]
  = Some [[[5]; [1]]; [[6]; [2]]]%Q.
Proof. vm_compute. reflexivity. Qed.

(** ** The evaluation pivot grid *)

(** With a positive stride the grid is the arithmetic sequence that starts
    at [pastLen], advances by [futureLen] and stops at the last term
    strictly below [datapoints]. *)
Lemma pivots_arithmetic (args : Args) (datapoints : Z) :
  (0 < futureLen args)%Z ->
  exists n : nat,
    pivots args datapoints
    = Some (map (fun i => pastLen args + Z.of_nat i * futureLen args)%Z
                (seq 0 n)) /\
    (forall i : nat, (i < n)%nat ->
       (pastLen args + Z.of_nat i * futureLen args < datapoints)%Z) /\
    (datapoints <= pastLen args + Z.of_nat n * futureLen args)%Z.
Proof.
  intro HF. unfold pivots, Py.np_arange.
  fold (pastLen args). fold (futureLen args).
  destruct (Z.eqb_spec (futureLen args) 0) as [E|_]; [lia|].
  set (q := ((pastLen args - datapoints) / futureLen args)%Z).
  assert (Hq : (futureLen args * q <= pastLen args - datapoints
                < futureLen args * q + futureLen args)%Z).
  { subst q. pose proof (Z.mul_div_le (pastLen args - datapoints) _ HF).
    pose proof (Z.mul_succ_div_gt (pastLen args - datapoints) _ HF). lia. }
  exists (Z.to_nat (Z.max 0 (- q))). split; [reflexivity|]. split.
  - intros i Hi. nia.
  - destruct (Z.max_spec 0 (- q)) as [[H1 ->] | [H1 ->]].
    + rewrite Z2Nat.id by lia. nia.
    + simpl. nia.
Qed.

(** Consecutive pivots are one future window apart: the future windows
    [pivot, pivot + futureLen) follow one another without gap or overlap,
    from [pastLen] up to the first multiple at or beyond [datapoints]. *)
Lemma pivots_contiguous (args : Args) (datapoints : Z) (grid : list Z) (i : nat) :
  (0 < futureLen args)%Z ->
  pivots args datapoints = Some grid ->
  (S i < length grid)%nat ->
  (nth (S i) grid 0 = nth i grid 0 + futureLen args)%Z /\
  nth 0 grid 0%Z = pastLen args.
Proof.
  intros HF Hg Hi.
  destruct (pivots_arithmetic args datapoints HF) as (n & Hn & _).
  rewrite Hn in Hg. injection Hg as <-.
  rewrite length_map, length_seq in Hi.
  set (f := fun i : nat => (pastLen args + Z.of_nat i * futureLen args)%Z).
  assert (Hnth : forall k, (k < n)%nat -> nth k (map f (seq 0 n)) 0%Z = f k).
  { intros k Hk. rewrite (nth_indep _ 0%Z (f 0%nat))
      by (rewrite length_map, length_seq; lia).
    rewrite (map_nth f). now rewrite seq_nth by lia. }
  rewrite !Hnth by lia. unfold f. lia.
Qed.

(** When the samples after the first past window make up a whole number
    of future windows, every pivot of the grid leaves room for its window. *)
Lemma pivots_within_bound (args : Args) (datapoints : Z) (grid : list Z) :
  (0 < futureLen args)%Z ->
  ((datapoints - pastLen args) mod futureLen args = 0)%Z ->
  pivots args datapoints = Some grid ->
  Forall (fun pivot => (pastLen args <= pivot <= datapoints - futureLen args)%Z)
         grid.
Proof.
  intros HF Hdiv Hg.
  destruct (pivots_arithmetic args datapoints HF) as (n & Hn & Hlt & _).
  rewrite Hn in Hg. injection Hg as <-.
  apply Forall_map, Forall_forall. intros i Hi. apply in_seq in Hi.
  pose proof (Hlt i ltac:(lia)) as Hi'.
  apply Z.mod_divide in Hdiv; [|lia]. destruct Hdiv as [c Hc].
  assert (Z.of_nat i < c)%Z by nia.
  nia.
Qed.

(** X25. When [futureLen] does not divide [datapoints - pastLen], the
    last pivot of the grid lies beyond [datapoints - futureLen]: its
    future window runs past the end of the Series. *)
Lemma pivots_beyond_bound (args : Args) (datapoints : Z) :
  (0 < futureLen args)%Z -> (pastLen args < datapoints)%Z ->
  ((datapoints - pastLen args) mod futureLen args <> 0)%Z ->
  exists (grid : list Z) (pivot : Z),
    pivots args datapoints = Some grid /\ In pivot grid /\
    (datapoints - futureLen args < pivot < datapoints)%Z.
Proof.
  intros HF HPd Hrem.
  destruct (pivots_arithmetic args datapoints HF) as (n & Hn & Hlt & Hcover).
  destruct n as [|n]; [simpl in Hcover; lia|].
  exists (map (fun i => (pastLen args + Z.of_nat i * futureLen args)%Z)
              (seq 0 (S n))),
         (pastLen args + Z.of_nat n * futureLen args)%Z.
  split; [exact Hn|]. split.
  - apply in_map_iff. exists n. split; [reflexivity|]. apply in_seq. lia.
  - pose proof (Hlt n ltac:(lia)) as Hlast.
    split; [|exact Hlast].
    assert (datapoints <> pastLen args + Z.of_nat (S n) * futureLen args)%Z.
    { intro E. apply Hrem.
      replace (datapoints - pastLen args)%Z
        with (Z.of_nat (S n) * futureLen args)%Z by lia.
      apply Z.mod_mul. lia. }
    lia.
Qed.

(** The grid of the specification's example. *)
Example pivots_example :
  pivots synthetic_args 1000
  = Some [50; 100; 150; 200; 250; 300; 350; 400; 450; 500; 550; 600; 650;
          700; 750; 800; 850; 900; 950]%Z.
Proof. reflexivity. Qed.

(** C5 (the code departs from the claim).  On a Series of 1020 time steps
    with windows of 50 samples the grid of line 141 ends with the pivot
    1000, which exceeds [datapoints - futureLen = 970]: the Series holds
    only 20 rows from that pivot on, and the concatenation of the future
    windows raises. *)
Theorem pivots_overrun_the_series :
  exists grid : list Z,
    pivots synthetic_args 1020 = Some grid /\
    In 1000%Z grid /\
    (1020 - futureLen synthetic_args < 1000)%Z /\
    length (Py.slice (synthetic_series 1020) 1000
                     (1000 + futureLen synthetic_args)) = 20%nat /\
    future_windows (synthetic_series 1020) synthetic_args grid = None.
Proof.
  exists (map (fun i => 50 + Z.of_nat i * 50)%Z (seq 0 20)).
  split; [reflexivity|].
  split; [vm_compute; tauto|].
  split; [reflexivity|].
  split; vm_compute; reflexivity.
Qed.

(** ** Training pivots *)

(** Line 79 keeps its pivots inside a series that is at least
    [int(0.80 * datapoints)] rows long. *)
Lemma random_indices_within (args : Args) (datapoints : Z) (series : tensor3)
  (indices : list Z) :
  random_indices args datapoints indices ->
  (Py.int_080 datapoints <= Z.of_nat (length series))%Z ->
  Forall (boundary_invariant (pastLen args) (futureLen args)
                             (Z.of_nat (length series))) indices.
Proof.
  intros (_ & _ & Hall) Hlen.
  eapply Forall_impl; [|exact Hall]. intros v Hv.
  unfold boundary_invariant, pastLen, futureLen. simpl in Hv. lia.
Qed.

Lemma slice_length {A : Type} (l : list A) (start stop : Z) :
  Z.of_nat (length (Py.slice l start stop))
  = Z.max 0 (Py.slice_bound (Z.of_nat (length l)) stop
             - Py.slice_bound (Z.of_nat (length l)) start).
Proof.
  unfold Py.slice. rewrite length_firstn, length_skipn.
  assert (0 <= Py.slice_bound (Z.of_nat (length l)) start <= Z.of_nat (length l))%Z
    by (unfold Py.slice_bound; destruct (Z.ltb_spec start 0); lia).
  assert (0 <= Py.slice_bound (Z.of_nat (length l)) stop <= Z.of_nat (length l))%Z
    by (unfold Py.slice_bound; destruct (Z.ltb_spec stop 0); lia).
  lia.
Qed.

(** X26. When the series that is sliced has fewer than
    [int(0.80 * datapoints) - 1] rows, line 79 can draw a pivot whose
    future window runs past its end. *)
Lemma random_indices_beyond (args : Args) (datapoints : Z) (series : tensor3) :
  batch_size args = 1%Z ->
  (pastLen args < Py.int_080 datapoints - futureLen args)%Z ->
  (Z.of_nat (length series) + 1 < Py.int_080 datapoints)%Z ->
  exists indices : list Z,
    random_indices args datapoints indices /\
    ~ Forall (boundary_invariant (pastLen args) (futureLen args)
                                 (Z.of_nat (length series))) indices.
Proof.
  intros Hb Hrange Hshort.
  exists [(Py.int_080 datapoints - futureLen args - 1)%Z]. split.
  - unfold random_indices, Py.randint. fold (pastLen args) (futureLen args).
    split; [lia|]. split; [simpl; lia|].
    constructor; [lia | constructor].
  - intro H. inversion H as [|? ? [_ Hhi] _]; subst. lia.
Qed.

(** With the defaults of the parser and a Series of 300 seconds the two
    bounds agree: 0.80 * 600000 = 240 * 2000. *)
Example default_training_bounds_agree :
  Py.int_080 600000 = (train_split default_args * sample_rate default_args)%Z.
Proof. reflexivity. Qed.

(** C6 (the code departs from the claim).  The training windows are cut
    from [data[:train_split * sample_rate]] while line 79 draws its pivots
    below [int(0.80 * datapoints) - futureLen].  With a training split of
    100 of 300 time steps the pivot 200 can be drawn; it lies beyond the
    100 rows of the training portion, its past window is empty instead of
    5 rows long, and so is its future window. *)
Theorem training_pivot_outside_training_data :
  length (Py.slice (synthetic_series 300) 0
                   (train_split short_split_args * sample_rate short_split_args))
  = 100%nat /\
  random_indices short_split_args (Z.of_nat (length (synthetic_series 300)))
                 [200%Z] /\
  ~ boundary_invariant (pastLen short_split_args) (futureLen short_split_args)
                       100 200 /\
  past_windows
    (Py.slice (synthetic_series 300) 0
              (train_split short_split_args * sample_rate short_split_args))
    short_split_args [200%Z] = Some [] /\
  future_windows
    (Py.slice (synthetic_series 300) 0
              (train_split short_split_args * sample_rate short_split_args))
    short_split_args [200%Z] = Some [].
Proof.
  split; [vm_compute; reflexivity|].
  split.
  - unfold random_indices, Py.randint.
    split; [reflexivity|]. split; [reflexivity|].
    constructor; [|constructor]. vm_compute. split; [discriminate | reflexivity].
  - split; [|split; vm_compute; reflexivity].
    unfold boundary_invariant. vm_compute. intros [_ H]. apply H. reflexivity.
Qed.

(** ** The training objective *)

Lemma map2_map_l {A B C D : Type} (f : A -> B -> C) (g : D -> A)
  (l : list D) (l' : list B) :
  map2 f (map g l) l' = map2 (fun a b => f (g a) b) l l'.
Proof.
  revert l'. induction l as [|x l IH]; intros [|y l']; simpl; auto.
  now rewrite IH.
Qed.

Lemma map2_map_r {A B C D : Type} (f : A -> B -> C) (h : D -> B)
  (l : list A) (l' : list D) :
  map2 f l (map h l') = map2 (fun a b => f a (h b)) l l'.
Proof.
  revert l'. induction l as [|x l IH]; intros [|y l']; simpl; auto.
  now rewrite IH.
Qed.

Lemma map2_diag {A C : Type} (f : A -> A -> C) (l : list A) :
  map2 f l l = map (fun x => f x x) l.
Proof. induction l as [|x l IH]; simpl; [reflexivity | now rewrite IH]. Qed.

Lemma map2_ext {A B C : Type} (f g : A -> B -> C) (l : list A) (l' : list B) :
  (forall a b, f a b = g a b) -> map2 f l l' = map2 g l l'.
Proof.
  intro H. revert l'. induction l as [|x l IH]; intros [|y l']; simpl; auto.
  now rewrite H, IH.
Qed.

Lemma Forall_map2 {A B C : Type} (P : A -> Prop) (Q : B -> Prop) (R : C -> Prop)
  (f : A -> B -> C) (l : list A) (l' : list B) :
  (forall a b, P a -> Q b -> R (f a b)) ->
  Forall P l -> Forall Q l' -> Forall R (map2 f l l').
Proof.
  intros H Hl. revert l'.
  induction Hl as [|x l Hx _ IH]; intros l' Hl'; [constructor|].
  destruct Hl' as [|y l' Hy Hl']; simpl; constructor; auto.
Qed.

Lemma concat_length_shape {A : Type} (n0 n1 : nat) (m : list (list A)) :
  shape2 n0 n1 m -> length (concat m) = (n0 * n1)%nat.
Proof.
  intros [Hlen Hrows]. subst n0.
  induction Hrows as [|r m Hr _ IH]; simpl; [reflexivity|].
  rewrite length_app, IH, Hr. reflexivity.
Qed.

Module LossFacts.
Import Reals Lra Loss.
Local Open Scope R_scope.

Lemma in_unit_true (x : R) : 0 <= x <= 1 -> in_unit x = true.
Proof.
  intros [H0 H1]. unfold in_unit.
  destruct (Rle_dec 0 x); [|contradiction].
  destruct (Rle_dec x 1); [reflexivity | contradiction].
Qed.

Lemma log_clamped_one : log_clamped 1 = 0.
Proof.
  unfold log_clamped. destruct (Rle_dec 1 0) as [H|_]; [lra|].
  rewrite ln_1. apply Rmax_left. lra.
Qed.

Lemma log_clamped_zero : log_clamped 0 = -100.
Proof.
  unfold log_clamped. destruct (Rle_dec 0 0) as [_|H]; [reflexivity | lra].
Qed.

(** Where the clamp is inactive: [ln x] is -100 or more from [exp (-100)]
    on. *)
Lemma ln_above_floor (x : R) : exp (-100) <= x -> -100 <= ln x.
Proof.
  intro H. pose proof (exp_pos (-100)) as Hpos.
  rewrite <- (ln_exp (-100)). destruct H as [H|H].
  - left. now apply ln_increasing.
  - rewrite H. right. reflexivity.
Qed.

Lemma ln_below_floor (x : R) : 0 < x -> x <= exp (-100) -> ln x <= -100.
Proof.
  intros Hpos H. rewrite <- (ln_exp (-100)). destruct H as [H|H].
  - left. now apply ln_increasing.
  - rewrite H. right. reflexivity.
Qed.

Lemma exp_floor_small : exp (-100) <= 1 / 2.
Proof.
  pose proof (exp_ineq1 100 ltac:(lra)) as H.
  change (-100) with (Ropp 100).
  rewrite exp_Ropp. pose proof (exp_pos 100) as Hpos.
  apply Rmult_le_reg_r with (exp 100); [exact Hpos|].
  rewrite Rinv_l by lra. lra.
Qed.

(** The clamp of the criterion is the floor of the specification. *)
Lemma log_clamped_floored (x : R) : log_clamped x = floored_log x.
Proof.
  unfold log_clamped, floored_log. pose proof (exp_pos (-100)) as Hpos.
  destruct (Rle_dec x 0) as [H0|H0]; destruct (Rlt_dec (exp (-100)) x) as [H1|H1].
  - lra.
  - reflexivity.
  - apply Rmax_left. apply ln_above_floor. lra.
  - apply Rmax_right. apply ln_below_floor; lra.
Qed.

Lemma log_clamped_ln (x : R) : exp (-100) <= x -> log_clamped x = ln x.
Proof.
  intro H. unfold log_clamped. pose proof (exp_pos (-100)) as Hpos.
  destruct (Rle_dec x 0) as [H0|_]; [lra|].
  apply Rmax_left. now apply ln_above_floor.
Qed.

Lemma bce_entry_zero_target (x : R) : bce_entry x 0 = - log_clamped (1 - x).
Proof. unfold bce_entry. ring. Qed.

(** Broadcasting tensors of one shape is the pointwise operation. *)
Lemma broadcast_row_same (f : R -> R -> R) (ra rb : list R) :
  length ra = length rb -> broadcast_row f ra rb = Some (map2 f ra rb).
Proof.
  intro H. unfold broadcast_row. now rewrite H, Nat.eqb_refl.
Qed.

Lemma broadcast2_same (f : R -> R -> R) (n0 n1 : nat) (a b : rtensor2) :
  shape2 n0 n1 a -> shape2 n0 n1 b ->
  broadcast2 f a b = Some (map2 (map2 f) a b).
Proof.
  intros [Ha Hra] [Hb Hrb]. unfold broadcast2.
  rewrite Ha, Hb, Nat.eqb_refl. clear Ha Hb. revert b Hrb.
  induction Hra as [|ra a Hr _ IH]; intros [|rb b] Hrb; simpl; try reflexivity.
  apply Forall_cons_iff in Hrb. destruct Hrb as [Hr' Hrb].
  rewrite broadcast_row_same by congruence. cbn [bind].
  rewrite (IH b Hrb). reflexivity.
Qed.

Lemma ones_like_shape (n0 n1 : nat) (m : rtensor2) :
  shape2 n0 n1 m -> shape2 n0 n1 (ones_like m).
Proof.
  intros [Hlen Hrows]. unfold ones_like. split; [now rewrite length_map|].
  apply Forall_map. eapply Forall_impl; [|exact Hrows].
  simpl. intros r Hr. now rewrite length_map.
Qed.

Lemma shape2_map2_R (f : R -> R -> R) (n0 n1 : nat) (a b : rtensor2) :
  shape2 n0 n1 a -> shape2 n0 n1 b -> shape2 n0 n1 (map2 (map2 f) a b).
Proof.
  intros [Ha Hra] [Hb Hrb]. split.
  - rewrite length_map2. lia.
  - clear Ha Hb. revert b Hrb.
    induction Hra as [|r a Hr _ IH]; intros [|r' b] Hrb; simpl; constructor.
    + apply Forall_cons_iff in Hrb. rewrite length_map2. lia.
    + apply Forall_cons_iff in Hrb. now apply IH.
Qed.

(** Lines 92-93 on tensors of one shape: the residual error on the
    channels kept. *)
Lemma outputs_eq (n0 n1 : nat) (errors_reduced blacklist : rtensor2) :
  shape2 n0 n1 errors_reduced -> shape2 n0 n1 blacklist ->
  sub (ones_like blacklist) blacklist
  = Some (map (map (fun s => 1 - s)) blacklist) /\
  mul errors_reduced (map (map (fun s => 1 - s)) blacklist)
  = Some (map2 (map2 (fun e s => e * (1 - s))) errors_reduced blacklist).
Proof.
  intros He Hs.
  assert (Hw : map2 (map2 Rminus) (ones_like blacklist) blacklist
               = map (map (fun s => 1 - s)) blacklist).
  { unfold ones_like. rewrite map2_map_l, map2_diag. apply map_ext. intro r.
    now rewrite map2_map_l, map2_diag. }
  split.
  - unfold sub.
    rewrite (broadcast2_same Rminus n0 n1 _ _ (ones_like_shape _ _ _ Hs) Hs).
    now rewrite Hw.
  - unfold mul. rewrite <- Hw.
    rewrite (broadcast2_same Rmult n0 n1 errors_reduced _ He
               (shape2_map2_R Rminus n0 n1 _ _ (ones_like_shape _ _ _ Hs) Hs)).
    rewrite Hw. f_equal. rewrite map2_map_r. apply map2_ext. intros a b.
    now rewrite map2_map_r.
Qed.

Lemma same_shape_zeros_like (outputs : rtensor2) :
  same_shape outputs (zeros_like outputs) = true.
Proof.
  unfold same_shape, zeros_like. rewrite length_map, Nat.eqb_refl. simpl.
  induction outputs as [|r m IH]; simpl; [reflexivity|].
  now rewrite length_map, Nat.eqb_refl, IH.
Qed.

(** Lines 94-95 for inputs in range: the cross entropy against zeros. *)
Lemma criterion_zero_target (outputs : rtensor2) :
  unit_entries outputs ->
  criterion outputs (zeros_like outputs)
  = Some (cross_entropy_to_zero (concat outputs)).
Proof.
  intro Hu. unfold criterion. rewrite same_shape_zeros_like.
  assert (Hin : forallb (forallb in_unit) outputs = true).
  { apply forallb_forall. intros r Hr. apply forallb_forall. intros x Hx.
    apply in_unit_true.
    exact (proj1 (Forall_forall _ _)
                 (proj1 (Forall_forall _ _) Hu r Hr) x Hx). }
  rewrite Hin. cbn [andb]. f_equal.
  unfold mean, cross_entropy_to_zero, zeros_like.
  assert (He : map2 (map2 bce_entry) outputs (map (map (fun _ : R => 0)) outputs)
               = map (map (fun x => - log_clamped (1 - x))) outputs).
  { rewrite map2_map_r, map2_diag. apply map_ext. intro r.
    rewrite map2_map_r, map2_diag. apply map_ext. intro x.
    apply bce_entry_zero_target. }
  rewrite He, <- concat_map, length_map. reflexivity.
Qed.

Lemma outputs_in_unit (errors_reduced blacklist : rtensor2) :
  unit_entries errors_reduced -> unit_entries blacklist ->
  unit_entries (map2 (map2 (fun e s => e * (1 - s))) errors_reduced blacklist).
Proof.
  intros He Hs. unfold unit_entries.
  apply (Forall_map2 (Forall (fun x => 0 <= x <= 1))
                     (Forall (fun x => 0 <= x <= 1))); [|exact He|exact Hs].
  intros r r' Hr Hr'.
  apply (Forall_map2 (fun x => 0 <= x <= 1) (fun x => 0 <= x <= 1));
    [|exact Hr|exact Hr'].
  intros a b Ha Hb. split; nra.
Qed.

Lemma binary_cross_entropy_zero_target (p : list R) :
  binary_cross_entropy p (all_zeros (length p)) = cross_entropy_to_zero p.
Proof.
  unfold binary_cross_entropy, cross_entropy_to_zero, all_zeros. f_equal. f_equal.
  induction p as [|x p IH]; simpl; [reflexivity|].
  rewrite IH, log_clamped_floored. f_equal. ring.
Qed.

Lemma loss_func_spec (n0 n1 : nat) (penalty_weight : R)
  (errors_reduced blacklist : rtensor2) :
  shape2 n0 n1 errors_reduced -> shape2 n0 n1 blacklist ->
  unit_entries errors_reduced -> unit_entries blacklist ->
  loss_func penalty_weight errors_reduced blacklist
  = Some (spec_total_loss penalty_weight errors_reduced blacklist).
Proof.
  intros Hse Hsb He Hs. unfold loss_func.
  destruct (outputs_eq n0 n1 errors_reduced blacklist Hse Hsb) as [Hsub Hmul].
  rewrite Hsub. cbn [bind]. rewrite Hmul. cbn [bind].
  rewrite criterion_zero_target by now apply outputs_in_unit.
  cbn [bind]. unfold spec_total_loss. rewrite binary_cross_entropy_zero_target.
  unfold predicted_failure. f_equal. ring.
Qed.

Lemma Rsum_zeros (l : list R) : Forall (fun x => x = 0) l -> Rsum l = 0.
Proof.
  induction 1 as [|x l Hx _ IH]; simpl; [reflexivity|].
  fold (Rsum l). rewrite Hx, IH. ring.
Qed.

Lemma zeros_entries (n0 n1 : nat) :
  Forall (Forall (fun x => x = 0)) (zeros n0 n1).
Proof.
  apply Forall_forall. intros r Hr. apply repeat_spec in Hr. subst r.
  apply Forall_forall. intros x Hx. now apply repeat_spec in Hx.
Qed.

Lemma concat_zeros (m : rtensor2) :
  Forall (Forall (fun x => x = 0)) m -> Forall (fun x => x = 0) (concat m).
Proof.
  induction 1 as [|r m Hr _ IH]; simpl; [constructor|].
  apply Forall_app. now split.
Qed.

Lemma spec_total_loss_zeros (penalty_weight : R) (n0 n1 : nat) :
  spec_total_loss penalty_weight (zeros n0 n1) (zeros n0 n1) = 0.
Proof.
  unfold spec_total_loss. rewrite binary_cross_entropy_zero_target.
  unfold cross_entropy_to_zero, mean.
  rewrite (Rsum_zeros (concat (zeros n0 n1)))
    by apply concat_zeros, zeros_entries.
  rewrite Rsum_zeros.
  - unfold Rdiv. ring.
  - apply Forall_map. unfold predicted_failure.
    apply Forall_impl with (P := fun x => x = 0).
    + intros x Hx. rewrite Hx. replace (1 - 0) with 1 by ring.
      rewrite log_clamped_one. ring.
    + apply concat_zeros.
      apply (Forall_map2 (Forall (fun x => x = 0)) (Forall (fun x => x = 0)));
        [|apply zeros_entries|apply zeros_entries].
      intros r r' Hr Hr'.
      apply (Forall_map2 (fun x => x = 0) (fun x => x = 0));
        [|exact Hr|exact Hr'].
      intros a b -> ->. ring.
Qed.

Lemma zeros_unit (n0 n1 : nat) : unit_entries (zeros n0 n1).
Proof.
  unfold unit_entries.
  eapply Forall_impl; [|apply zeros_entries]. intros r Hr.
  eapply Forall_impl; [|exact Hr]. intros x ->. lra.
Qed.

Lemma repeat_shape (n0 n1 : nat) (c : R) : shape2 n0 n1 (repeat (repeat c n1) n0).
Proof.
  split; [apply repeat_length|].
  apply Forall_forall. intros r Hr. apply repeat_spec in Hr. subst r.
  apply repeat_length.
Qed.

Lemma zeros_shape (n0 n1 : nat) : shape2 n0 n1 (zeros n0 n1).
Proof. apply repeat_shape. Qed.

Lemma ones_shape (n0 n1 : nat) : shape2 n0 n1 (ones n0 n1).
Proof. apply repeat_shape. Qed.

Lemma ones_entries (n0 n1 : nat) : Forall (Forall (fun x => x = 1)) (ones n0 n1).
Proof.
  apply Forall_forall. intros r Hr. apply repeat_spec in Hr. subst r.
  apply Forall_forall. intros x Hx. now apply repeat_spec in Hx.
Qed.

Lemma ones_unit (n0 n1 : nat) : unit_entries (ones n0 n1).
Proof.
  unfold unit_entries.
  eapply Forall_impl; [|apply ones_entries]. intros r Hr.
  eapply Forall_impl; [|exact Hr]. intros x ->. lra.
Qed.

Lemma Rsum_const (c : R) (l : list R) :
  Forall (fun x => x = c) l -> Rsum l = c * INR (length l).
Proof.
  induction 1 as [|x l Hx _ IH]; [simpl; ring|].
  change (Rsum (x :: l)) with (x + Rsum l).
  change (length (x :: l)) with (S (length l)). rewrite S_INR, Hx, IH. ring.
Qed.

Lemma predicted_failure_length (n0 n1 : nat) (reducedError score : rtensor2) :
  shape2 n0 n1 reducedError -> shape2 n0 n1 score ->
  length (predicted_failure reducedError score) = (n0 * n1)%nat.
Proof.
  intros He Hs. unfold predicted_failure.
  apply concat_length_shape. now apply shape2_map2_R.
Qed.

(** Where no predicted failure comes within [exp (-100)] of 1 the clamp
    is inactive and the cross entropy is the mean of [- ln (1 - p)]. *)
Lemma cross_entropy_to_zero_ln (p : list R) :
  Forall (fun x => exp (-100) <= 1 - x) p ->
  cross_entropy_to_zero p = Rsum (map (fun x => - ln (1 - x)) p) / INR (length p).
Proof.
  intro H. unfold cross_entropy_to_zero. f_equal. f_equal.
  induction H as [|x p Hx _ IH]; simpl; [reflexivity|].
  now rewrite IH, log_clamped_ln.
Qed.

(** A predicted failure of one on every entry costs 100. *)
Lemma spec_total_loss_certain_failure (penalty_weight : R) (n0 n1 : nat) :
  (1 <= n0)%nat -> (1 <= n1)%nat ->
  spec_total_loss penalty_weight (ones n0 n1) (zeros n0 n1) = 100.
Proof.
  intros H0 H1. unfold spec_total_loss.
  rewrite binary_cross_entropy_zero_target.
  unfold cross_entropy_to_zero, mean.
  rewrite (Rsum_zeros (concat (zeros n0 n1)))
    by apply concat_zeros, zeros_entries.
  assert (Hpf : Forall (fun x => x = 1) (predicted_failure (ones n0 n1) (zeros n0 n1))).
  { unfold predicted_failure.
    assert (Hall : Forall (Forall (fun x => x = 1))
                          (map2 (map2 (fun e s => e * (1 - s)))
                                (ones n0 n1) (zeros n0 n1))).
    { apply (Forall_map2 (Forall (fun x => x = 1)) (Forall (fun x => x = 0)));
        [|apply ones_entries|apply zeros_entries].
      intros r r' Hr Hr'.
      apply (Forall_map2 (fun x => x = 1) (fun x => x = 0));
        [|exact Hr|exact Hr'].
      intros a b -> ->. ring. }
    clear - Hall. induction Hall as [|r m Hr _ IH]; simpl; [constructor|].
    apply Forall_app. now split. }
  rewrite (Rsum_const 100).
  - rewrite length_map.
    rewrite (predicted_failure_length n0 n1 _ _ (ones_shape n0 n1)
                                      (zeros_shape n0 n1)).
    assert (Hn : 0 < INR (n0 * n1)) by (apply lt_0_INR; nia).
    unfold Rdiv. rewrite Rmult_0_l, Rmult_assoc, Rinv_r by lra. ring.
  - apply Forall_map. eapply Forall_impl; [|exact Hpf].
    simpl. intros x ->. replace (1 - 1) with 0 by ring.
    rewrite log_clamped_zero. ring.
Qed.

End LossFacts.

(** ** Invariants of the program state *)

Section ProgramFacts.
Context {ext : External}.

Lemma assign_penalty_weights (k : String.string) (w : Q) (net net' : Network)
  (d : list (String.string * (Q * Network))) :
  lookup k d = Some (w, net) ->
  penalty_weights (assign k (w, net') d) = penalty_weights d.
Proof.
  induction d as [|[k' [w' n']] d IH]; simpl; [discriminate|].
  destruct (String.eqb_spec k k') as [->|Hne]; simpl.
  - intro H. injection H as -> _. reflexivity.
  - intro H. now rewrite (IH H).
Qed.

(** A training iteration changes nothing but the predictor it trains. *)
Lemma train_iteration_frame (env env' : Env) (args : Args)
  (reducing_method : String.string) (indices : list Z) :
  train_iteration env args reducing_method indices = Some env' ->
  data env' = data env /\
  train_samples_cutoff env' = train_samples_cutoff env /\
  training_data env' = training_data env /\
  data_mean env' = data_mean env /\
  data_std env' = data_std env /\
  penalty_weights (models env') = penalty_weights (models env).
Proof.
  unfold train_iteration.
  destruct (lookup reducing_method (models env)) as [[w net]|] eqn:Hl;
    simpl; [|discriminate].
  destruct (training_input env args indices); simpl; [|discriminate].
  destruct (future_windows (training_data env) args indices);
    simpl; [|discriminate].
  destruct (tsch t0) as [power attribution].
  destruct (errors_reduced (error_props power) attribution reducing_method);
    simpl; [|discriminate].
  destruct (Loss.loss_func _ _ _); simpl; [|discriminate].
  intro H. injection H as <-. simpl.
  repeat split. now apply assign_penalty_weights with (net := net).
Qed.

Lemma load_model_frame (env env' : Env) (reducing_method : String.string)
  (saved : Network) :
  load_model env reducing_method saved = Some env' ->
  data env' = data env /\
  train_samples_cutoff env' = train_samples_cutoff env /\
  training_data env' = training_data env /\
  data_mean env' = data_mean env /\
  data_std env' = data_std env /\
  penalty_weights (models env') = penalty_weights (models env).
Proof.
  unfold load_model.
  destruct (lookup reducing_method (models env)) as [[w net]|] eqn:Hl;
    simpl; [|discriminate].
  intro H. injection H as <-. simpl.
  repeat split. now apply assign_penalty_weights with (net := net).
Qed.

(** What every state between set-up and evaluation satisfies. *)
Lemma reachable_invariant (args : Args) (data0 : tensor3)
  (net_mean net_max : Network) (env : Env) :
  reachable args data0 net_mean net_max env ->
  data env = data0 /\
  training_data env
  = Py.slice data0 0 (train_split args * sample_rate args) /\
  data_mean env = Py.mean (training_data env) /\
  data_std env = torch_std (training_data env) /\
  penalty_weights (models env)
  = [("mean"%string, 5 # 100); ("max"%string, 55 # 100)].
Proof.
  induction 1 as [| env env' m idx _ IH _ Hstep | env env' m saved _ IH Hstep].
  - repeat split.
  - destruct (train_iteration_frame _ _ _ _ _ Hstep)
      as (-> & _ & -> & -> & -> & ->). exact IH.
  - destruct (load_model_frame _ _ _ _ Hstep)
      as (-> & _ & -> & -> & -> & ->). exact IH.
Qed.

(** In every state between set-up and evaluation the models are the two
    of line 68, under their reducers and with their penalty weights. *)
Lemma reachable_models (args : Args) (data0 : tensor3)
  (net_mean net_max : Network) (env : Env) :
  reachable args data0 net_mean net_max env ->
  exists net net' : Network,
    models env = [("mean"%string, (5 # 100, net));
                  ("max"%string, (55 # 100, net'))].
Proof.
  intro Hreach.
  destruct (reachable_invariant _ _ _ _ _ Hreach) as (_ & _ & _ & _ & Hw).
  unfold penalty_weights in Hw.
  destruct (models env) as [|[k1 [w1 net]] [|[k2 [w2 net']] [|]]];
    simpl in Hw; try discriminate.
  injection Hw as -> -> -> ->. now exists net, net'.
Qed.

(** C9. In every state that the program reaches after its set-up, by
    any number of training iterations or by loading saved predictors, the
    two statistics still are the mean and the standard deviation of the
    whole training portion [data[:train_split * sample_rate]] computed at
    line 63.  Where that standard deviation is not zero, every entry of
    the predictor's input, in a training iteration and in the evaluation
    alike, is [(x - mean) / std] for the entry [x] of the downsampled
    window and these two scalars. *)
Theorem normalization_statistics_fixed (args : Args) (data0 : tensor3)
  (net_mean net_max : Network) (env : Env) :
  reachable args data0 net_mean net_max env ->
  data_mean env
  = Py.mean (Py.slice data0 0 (train_split args * sample_rate args)) /\
  data_std env
  = torch_std (Py.slice data0 0 (train_split args * sample_rate args)) /\
  (~ (torch_std (Py.slice data0 0 (train_split args * sample_rate args)) == 0)%Q ->
   (forall (indices : list Z) (input : tensor3),
       training_input env args indices = Some input ->
       exists pw : tensor3,
         past_windows (Py.slice data0 0 (train_split args * sample_rate args))
                      args indices = Some pw /\
         input
         = map (map (map
             (fun x =>
                ((x - Py.mean (Py.slice data0 0
                                        (train_split args * sample_rate args)))
                 / torch_std (Py.slice data0 0
                                       (train_split args * sample_rate args)))%Q)))
             (downsample pw (inject_Z (target_rate args)
                             / inject_Z (sample_rate args))%Q)) /\
   (forall input : tensor3,
       evaluation_input env args = Some input ->
       exists (grid : list Z) (pw : tensor3),
         pivots args (Z.of_nat (length data0)) = Some grid /\
         past_windows data0 args grid = Some pw /\
         input
         = map (map (map
             (fun x =>
                ((x - Py.mean (Py.slice data0 0
                                        (train_split args * sample_rate args)))
                 / torch_std (Py.slice data0 0
                                       (train_split args * sample_rate args)))%Q)))
             (downsample pw (inject_Z (target_rate args)
                             / inject_Z (sample_rate args))%Q))).
Proof.
  intro Hreach.
  destruct (reachable_invariant _ _ _ _ _ Hreach) as (Hd & Ht & Hm & Hs & _).
  rewrite Ht in Hm, Hs.
  split; [exact Hm|]. split; [exact Hs|]. intros _. split.
  - intros indices input. unfold training_input. rewrite Ht.
    destruct (past_windows _ args indices) as [pw|]; simpl; [|discriminate].
    intro H. injection H as <-. exists pw. split; [reflexivity|].
    unfold past_windows_normalized, standardize, past_windows_downsampled.
    now rewrite Hm, Hs.
  - intro input. unfold evaluation_input. rewrite Hd.
    destruct (pivots args _) as [grid|] eqn:Hg; simpl; [|discriminate].
    destruct (past_windows data0 args grid) as [pw|] eqn:Hp; simpl;
      [|discriminate].
    intro H. injection H as <-. exists grid, pw.
    split; [reflexivity|]. split; [exact Hp|].
    unfold past_windows_normalized, standardize, past_windows_downsampled.
    now rewrite Hm, Hs.
Qed.

End ProgramFacts.

(** ** Shapes along the evaluation path *)

Lemma concat_map_length {A B : Type} (f : A -> list B) (l : list A) (n : nat) :
  (forall x, In x l -> length (f x) = n) ->
  length (concat (map f l)) = (length l * n)%nat.
Proof.
  induction l as [|x l IH]; simpl; intro H; [reflexivity|].
  rewrite length_app, IH, (H x) by auto. reflexivity.
Qed.

Lemma permute_1_0_shape (n0 n1 : nat) (m : tensor2) :
  (1 <= n0)%nat -> shape2 n0 n1 m -> shape2 n1 n0 (Py.permute_1_0 m).
Proof.
  intros Hpos [Hlen Hrows]. revert n0 Hpos Hlen.
  induction Hrows as [|r m Hr Hrows IH]; intros n0 Hpos Hlen;
    [simpl in Hlen; lia|].
  destruct m as [|r' m].
  - simpl in *. subst n0. split; [now rewrite length_map|].
    apply Forall_map, Forall_forall. reflexivity.
  - change (Py.permute_1_0 (r :: r' :: m))
      with (map2 cons r (Py.permute_1_0 (r' :: m))).
    destruct (IH (length (r' :: m)) ltac:(simpl; lia) eq_refl) as [Hl Hs].
    split.
    + rewrite length_map2. lia.
    + change (length (r :: r' :: m)) with (S (length (r' :: m))) in Hlen.
      subst n0. clear - Hs.
      generalize dependent (Py.permute_1_0 (r' :: m)). intros cs Hs.
      revert r.
      induction Hs as [|c cs Hc _ IHc]; intros [|x r]; simpl; constructor.
      * simpl. now rewrite Hc.
      * apply IHc.
Qed.

Lemma view_column_spec (row_major : bool) (m column : tensor2) :
  Py.view_column row_major m = Some column ->
  column = map (fun x => [x]) (concat m) /\
  length column = length (concat m) /\
  Forall (fun r => length r = 1%nat) column.
Proof.
  unfold Py.view_column.
  destruct (row_major || (length m <=? 1)%nat || (length (hd [] m) <=? 1)%nat);
    [|discriminate].
  intro H. injection H as <-. split; [reflexivity|].
  split; [apply length_map|].
  apply Forall_map, Forall_forall. reflexivity.
Qed.

(** On a tensor of [n0] rows and [n1] columns the view is refused exactly
    when the tensor is not stored row by row and both extents are two or
    more. *)
Lemma view_column_defined (n0 n1 : nat) (row_major : bool) (m : tensor2) :
  shape2 n0 n1 m ->
  Py.view_column row_major m
  = if row_major || (n0 <=? 1)%nat || (n1 <=? 1)%nat
    then Some (map (fun x => [x]) (concat m))
    else None.
Proof.
  intros [Hlen Hrows]. unfold Py.view_column. rewrite Hlen.
  destruct row_major; [reflexivity|]. cbn [orb].
  destruct (Nat.leb_spec n0 1) as [H0|H0]; [reflexivity|]. cbn [orb].
  destruct m as [|r m]; [simpl in Hlen; lia|].
  apply Forall_cons_iff in Hrows. destruct Hrows as [Hr _].
  simpl hd. now rewrite Hr.
Qed.

Lemma cat_dim0_columns (a b : tensor2) :
  Forall (fun r => length r = 1%nat) a ->
  Forall (fun r => length r = 1%nat) b ->
  Py.cat_dim0 a b = Some (a ++ b).
Proof.
  intros Ha Hb. unfold Py.cat_dim0.
  destruct Ha as [|r a Hr _]; [reflexivity|].
  destruct Hb as [|r' b Hr' _]; [reflexivity|].
  now rewrite Hr, Hr'.
Qed.

Lemma slice_prefix {A : Type} (l : list A) (n : Z) :
  (0 <= n)%Z -> Py.slice l 0 n = firstn (Z.to_nat n) l.
Proof.
  intro Hn. unfold Py.slice. simpl Py.slice_bound at 2.
  replace (Py.slice_bound (Z.of_nat (length l)) 0) with 0%Z
    by (unfold Py.slice_bound; simpl; lia).
  simpl skipn. rewrite Z.sub_0_r. unfold Py.slice_bound.
  destruct (Z.ltb_spec n 0); [lia|].
  destruct (Z.min_spec n (Z.of_nat (length l))) as [[H1 ->] | [H1 ->]];
    [reflexivity|].
  rewrite Nat2Z.id. rewrite firstn_all.
  symmetry. apply firstn_all2. lia.
Qed.

(** The frames of a batch of future windows: one row of the Series per
    pivot, so as many sequence entries as pivots times sequences. *)
Lemma window_batch_frames (series : tensor3) (d S C : nat) (grid : list Z)
  (len : nat) (lo : Z -> Z) :
  shape3 d S C series ->
  Forall (fun p => (0 <= lo p)%Z /\ (lo p + Z.of_nat len <= Z.of_nat d)%Z) grid ->
  Forall (fun frame => length frame = (length grid * S)%nat)
         (concat_sequence_axis
            len (map (fun p => interval_rows series (lo p) len) grid)).
Proof.
  intros [Hd Hrows] Hgrid. unfold concat_sequence_axis.
  apply Forall_map, Forall_forall. intros t Ht. apply in_seq in Ht.
  rewrite map_map. apply concat_map_length. intros p Hp.
  pose proof (proj1 (Forall_forall _ _) Hgrid p Hp) as [H1 H2].
  unfold interval_rows.
  rewrite (nth_indep _ [] (nth (Z.to_nat (lo p + Z.of_nat 0)) series []))
    by (rewrite length_map, length_seq; lia).
  rewrite (map_nth (fun i => nth (Z.to_nat (lo p + Z.of_nat i)) series [])).
  rewrite seq_nth by lia.
  assert (Hin : In (nth (Z.to_nat (lo p + Z.of_nat (0 + t))) series []) series)
    by (apply nth_In; lia).
  exact (proj1 (proj1 (Forall_forall _ _) Hrows _ Hin)).
Qed.

(** ** The stitched reception series on a grid of whole windows *)

Section Stitching.
Context {ext : External}.

(** What the core relies on from its collaborators: sixteen scores per
    batch row, simulator outputs shaped (time, batch), and error and
    reception models that keep the shape and act row by row. *)
Hypothesis forward_channels :
  forall net x, Forall (fun r => length r = 16%nat) (forward net x).
Hypothesis masked_shape :
  forall fw available n0 n1,
    length fw = n0 -> Forall (fun frame => length frame = n1) fw ->
    shape2 n0 n1 (intelligent_tsch fw available).
Hypothesis baseline_shape :
  forall x n0 n1 n2, shape3 n0 n1 n2 x -> shape2 n0 n1 (fst (tsch x)).
Hypothesis error_shape :
  forall m n0 n1, shape2 n0 n1 m -> shape2 n0 n1 (error_props m).
Hypothesis reception_rows :
  forall a b, reception_props (a ++ b) = reception_props a ++ reception_props b.
Hypothesis reception_length :
  forall a, length (reception_props a) = length a.

(** Line 154 on a batch of future windows of [len] rows and [n] sequence
    entries.  The masked errors come back with [len] rows and [n]
    columns; their transpose can be viewed as one column when it is
    stored row by row, or when [n] or [len] is at most one, and line 154
    raises otherwise.  When it goes through, the series is the baseline's
    first [pastLen] entries followed by [n * len] entries of the masked
    run. *)
Lemma stitched_series_of_windows (env : Env) (args : Args)
  (reducing_method : String.string) (model : Q * Network)
  (grid : list Z) (pw fw : tensor3) (d C len n : nat) :
  (0 <= pastLen args <= Z.of_nat d)%Z ->
  shape3 d 1 C (data env) ->
  pivots args (Z.of_nat d) = Some grid ->
  past_windows (data env) args grid = Some pw ->
  future_windows (data env) args grid = Some fw ->
  length fw = len -> (1 <= len)%nat ->
  Forall (fun frame => length frame = n) fw ->
  lookup reducing_method (models env) = Some model ->
  exists available : mask,
    evaluation_mask env args reducing_method = Some available /\
    (error_props_column_major (intelligent_tsch fw available)
     || (n <=? 1)%nat || (len <=? 1)%nat = true ->
     exists series : tensor2,
       reception_props_values env args reducing_method = Some series /\
       length series = (Z.to_nat (pastLen args) + n * len)%nat /\
       firstn (Z.to_nat (pastLen args)) series
       = firstn (Z.to_nat (pastLen args)) (tsch_receptions env)) /\
    (error_props_column_major (intelligent_tsch fw available)
     || (n <=? 1)%nat || (len <=? 1)%nat = false ->
     reception_props_values env args reducing_method = None).
Proof.
  intros HP Hdata Hgrid Hpw Hfw Hlen Hpos Hframes Hmodel.
  pose proof Hdata as [Hd _].
  (* the mask *)
  assert (Hmask : exists available,
             evaluation_mask env args reducing_method = Some available).
  { unfold evaluation_mask, evaluation_input.
    rewrite Hmodel. cbn [bind]. rewrite Hd, Hgrid. cbn [bind].
    rewrite Hpw. cbn [bind].
    eexists. apply available_channels_rows.
    eapply Forall_impl; [|apply forward_channels]. simpl. intros r ->. lia. }
  destruct Hmask as [available Hmask].
  exists available. split; [exact Hmask|].
  (* the masked segment *)
  set (errors := error_props (intelligent_tsch fw available)).
  assert (Herr : shape2 len n errors)
    by (apply error_shape, masked_shape; assumption).
  pose proof (permute_1_0_shape _ _ errors Hpos Herr) as Hperm.
  pose proof (view_column_defined
                n len (error_props_column_major (intelligent_tsch fw available))
                _ Hperm) as Hview.
  assert (Hrun : reception_props_values env args reducing_method
                 = (masked <- Py.view_column
                                (error_props_column_major
                                   (intelligent_tsch fw available))
                                (Py.permute_1_0 errors) ;;
                    stitched <- Py.cat_dim0
                                  (Py.slice (tsch_errors env) 0 (pastLen args))
                                  masked ;;
                    Some (reception_props stitched))).
  { unfold reception_props_values. rewrite Hd, Hgrid. cbn [bind].
    rewrite Hfw. cbn [bind]. rewrite Hmask. cbn [bind]. reflexivity. }
  split.
  - intro Hok. rewrite Hok in Hview.
    destruct (view_column_spec _ _ _ Hview) as (_ & Hvlen & Hvcols).
    rewrite (concat_length_shape _ _ _ Hperm) in Hvlen.
    (* the baseline prefix *)
    assert (Hbase : shape2 d 1 (tsch_errors env))
      by (apply error_shape, (baseline_shape _ d 1 C), Hdata).
    assert (Hprefix : Py.slice (tsch_errors env) 0 (pastLen args)
                      = firstn (Z.to_nat (pastLen args)) (tsch_errors env))
      by (apply slice_prefix; lia).
    assert (Hpcols : Forall (fun r => length r = 1%nat)
                            (firstn (Z.to_nat (pastLen args)) (tsch_errors env))).
    { pose proof (proj2 Hbase) as Hall.
      rewrite <- (firstn_skipn (Z.to_nat (pastLen args)) (tsch_errors env))
        in Hall.
      apply Forall_app in Hall. exact (proj1 Hall). }
    assert (Hplen : length (reception_props
                              (firstn (Z.to_nat (pastLen args)) (tsch_errors env)))
                    = Z.to_nat (pastLen args)).
    { rewrite reception_length, length_firstn. destruct Hbase as [-> _]. lia. }
    exists (reception_props
              (firstn (Z.to_nat (pastLen args)) (tsch_errors env)
               ++ map (fun x => [x]) (concat (Py.permute_1_0 errors)))).
    split; [|split].
    + rewrite Hrun, Hview. cbn [bind].
      rewrite Hprefix, (cat_dim0_columns _ _ Hpcols Hvcols). reflexivity.
    + rewrite reception_rows, length_app, Hplen, reception_length, Hvlen.
      reflexivity.
    + rewrite reception_rows, firstn_app, Hplen, Nat.sub_diag.
      simpl. rewrite app_nil_r.
      unfold tsch_receptions.
      rewrite <- (firstn_skipn (Z.to_nat (pastLen args)) (tsch_errors env)) at 2.
      rewrite reception_rows, firstn_app, Hplen, Nat.sub_diag.
      simpl. now rewrite app_nil_r.
  - intro Hno. rewrite Hno in Hview. rewrite Hrun, Hview. reflexivity.
Qed.

(** X23. Given collaborators with (time, batch)-shaped outputs, on a
    Series of one sequence whose samples after the first past window make
    up a whole number of future windows, the windows and the mask are
    obtained and line 154 decides: when the masked errors are stored
    column by column, or there is a single pivot, or [futureLen] is 1, the
    stitched series has [pastLen + pivots * futureLen] entries and its
    first [pastLen] entries are those of the baseline series; otherwise
    (contiguous errors, two or more pivots and time steps) [.view] raises
    and there is no stitched series. *)
Lemma stitched_series_on_whole_windows (env : Env) (args : Args)
  (reducing_method : String.string) (model : Q * Network) (d C : nat) :
  (0 <= pastLen args)%Z -> (0 < futureLen args)%Z ->
  shape3 d 1 C (data env) ->
  (pastLen args < Z.of_nat d)%Z ->
  ((Z.of_nat d - pastLen args) mod futureLen args = 0)%Z ->
  lookup reducing_method (models env) = Some model ->
  exists (grid : list Z) (fw : tensor3) (available : mask),
    pivots args (Z.of_nat d) = Some grid /\
    future_windows (data env) args grid = Some fw /\
    evaluation_mask env args reducing_method = Some available /\
    if error_props_column_major (intelligent_tsch fw available)
       || (length grid <=? 1)%nat || (futureLen args <=? 1)%Z
    then
      exists series : tensor2,
        reception_props_values env args reducing_method = Some series /\
        Z.of_nat (length series)
        = (pastLen args + Z.of_nat (length grid) * futureLen args)%Z /\
        firstn (Z.to_nat (pastLen args)) series
        = firstn (Z.to_nat (pastLen args)) (tsch_receptions env)
    else reception_props_values env args reducing_method = None.
Proof.
  intros HP HF Hdata HPd Hdiv Hmodel.
  pose proof Hdata as [Hd _].
  destruct (pivots_arithmetic args (Z.of_nat d) HF) as (n & Hgrid & _ & Hcover).
  set (grid := map (fun i => (pastLen args + Z.of_nat i * futureLen args)%Z)
                   (seq 0 n)) in *.
  pose proof (pivots_within_bound args (Z.of_nat d) grid HF Hdiv Hgrid) as Hin.
  assert (Hn : (1 <= n)%nat) by nia.
  assert (Hne : grid <> []).
  { unfold grid. destruct n; [lia|]. discriminate. }
  assert (Hinv : Forall (boundary_invariant (pastLen args) (futureLen args)
                                            (Z.of_nat (length (data env)))) grid)
    by (rewrite Hd; exact Hin).
  pose proof (Z.lt_le_incl _ _ HF) as HF0.
  set (fw := concat_sequence_axis
               (Z.to_nat (futureLen args))
               (map (fun pivot =>
                       interval_rows (data env) pivot
                                     (Z.to_nat (futureLen args))) grid)).
  assert (Hfw : future_windows (data env) args grid = Some fw).
  { unfold future_windows.
    rewrite (future_slices_intervals (data env) args grid HP HF0 Hinv).
    apply cat_dim1_spec; [now apply map_not_nil|].
    apply (interval_batch_lengths (data env) _ (fun pivot => pivot)). }
  destruct (stitched_series_of_windows
              env args reducing_method model grid
              (concat_sequence_axis
                 (Z.to_nat (pastLen args))
                 (map (fun pivot =>
                         interval_rows (data env) (pivot - pastLen args)
                                       (Z.to_nat (pastLen args))) grid))
              fw d C (Z.to_nat (futureLen args)) (length grid * 1))
    as (available & Hmask & Hyes & Hno).
  - lia.
  - exact Hdata.
  - exact Hgrid.
  - unfold past_windows.
    rewrite (past_slices_intervals (data env) args grid HP HF0 Hinv).
    apply cat_dim1_spec; [now apply map_not_nil|].
    apply (interval_batch_lengths (data env) _
                                  (fun pivot => pivot - pastLen args)%Z).
  - exact Hfw.
  - apply concat_sequence_axis_length.
  - lia.
  - apply (window_batch_frames (data env) d 1 C grid _ (fun p => p) Hdata).
    eapply Forall_impl; [|exact Hin]. simpl. intros p Hp. lia.
  - exact Hmodel.
  - exists grid, fw, available.
    split; [exact Hgrid|]. split; [exact Hfw|]. split; [exact Hmask|].
    assert (Hcond : (length grid * 1 <=? 1)%nat = (length grid <=? 1)%nat)
      by (now rewrite Nat.mul_1_r).
    assert (Hcond' : (Z.to_nat (futureLen args) <=? 1)%nat
                     = (futureLen args <=? 1)%Z).
    { destruct (Z.leb_spec (futureLen args) 1);
        [apply Nat.leb_le | apply Nat.leb_gt]; lia. }
    rewrite Hcond, Hcond' in Hyes, Hno.
    destruct (error_props_column_major (intelligent_tsch fw available)
              || (length grid <=? 1)%nat || (futureLen args <=? 1)%Z).
    + destruct (Hyes eq_refl) as (series & Hseries & Hlen & Hfirst).
      exists series. split; [exact Hseries|]. split; [|exact Hfirst].
      rewrite Hlen. lia.
    + exact (Hno eq_refl).
Qed.

(** X24. Given the same collaborators, on a Series that ends inside the
    first future window the grid is the single pivot [pastLen], its future
    window is cut short, and the stitched series has as many entries as
    the Series has time steps: fewer than [pastLen + 1 * futureLen]. *)
Lemma stitched_series_on_short_series (env : Env) (args : Args)
  (reducing_method : String.string) (model : Q * Network) (d C : nat) :
  (0 <= pastLen args)%Z ->
  shape3 d 1 C (data env) ->
  (pastLen args < Z.of_nat d < pastLen args + futureLen args)%Z ->
  lookup reducing_method (models env) = Some model ->
  exists series : tensor2,
    pivots args (Z.of_nat d) = Some [pastLen args] /\
    reception_props_values env args reducing_method = Some series /\
    length series = d /\
    (Z.of_nat (length series) < pastLen args + 1 * futureLen args)%Z /\
    firstn (Z.to_nat (pastLen args)) series
    = firstn (Z.to_nat (pastLen args)) (tsch_receptions env).
Proof.
  intros HP Hdata [HPd HdF] Hmodel.
  pose proof Hdata as [Hd Hrows].
  assert (HF : (0 < futureLen args)%Z) by lia.
  assert (Hgrid : pivots args (Z.of_nat d) = Some [pastLen args]).
  { destruct (pivots_arithmetic args (Z.of_nat d) HF) as (n & Hn & Hlt & Hcover).
    rewrite Hn. f_equal.
    assert (n = 1%nat).
    { destruct n as [|[|n]]; [lia | reflexivity|].
      pose proof (Hlt 1%nat ltac:(lia)). lia. }
    subst n. simpl. f_equal. lia. }
  destruct (stitched_series_of_windows
              env args reducing_method model [pastLen args]
              (Py.slice (data env) (pastLen args - pastLen args) (pastLen args))
              (Py.slice (data env) (pastLen args) (pastLen args + futureLen args))
              d C (d - Z.to_nat (pastLen args)) 1)
    as (available & _ & Hyes & _).
  - lia.
  - exact Hdata.
  - exact Hgrid.
  - reflexivity.
  - reflexivity.
  - apply Nat2Z.inj. rewrite slice_length, Hd.
    unfold Py.slice_bound.
    destruct (Z.ltb_spec (pastLen args + futureLen args) 0); [lia|].
    destruct (Z.ltb_spec (pastLen args) 0); lia.
  - lia.
  - unfold Py.slice.
    apply Forall_forall. intros frame Hin.
    assert (Hin' : In frame (data env)).
    { revert Hin. generalize (Z.to_nat
                                (Py.slice_bound (Z.of_nat (length (data env)))
                                                (pastLen args + futureLen args)
                                 - Py.slice_bound (Z.of_nat (length (data env)))
                                                  (pastLen args))).
      generalize (Z.to_nat (Py.slice_bound (Z.of_nat (length (data env)))
                                           (pastLen args))).
      intros k1 k2 Hin.
      rewrite <- (firstn_skipn k1 (data env)). apply in_or_app. right.
      rewrite <- (firstn_skipn k2 (skipn k1 (data env))). apply in_or_app.
      now left. }
    exact (proj1 (proj1 (Forall_forall _ _) Hrows frame Hin')).
  - exact Hmodel.
  - destruct Hyes as (series & Hseries & Hlen & Hfirst).
    { change (1 <=? 1)%nat with true. now rewrite orb_true_r. }
    exists series. split; [exact Hgrid|]. split; [exact Hseries|].
    split; [lia|]. split; [lia | exact Hfirst].
Qed.

End Stitching.

(** The hand-built collaborators meet what the core relies on; on a Series
    of 150 time steps, two whole future windows after the first past
    window, their masked errors come back stored column by column and the
    stitched series has 50 + 2 * 50 entries. *)
Example stitched_series_toy :
  exists (grid : list Z) (fw : tensor3) (available : mask),
    pivots synthetic_args 150 = Some grid /\
    future_windows
      (@data toy (@setup toy synthetic_args (synthetic_series 150) tt tt))
      synthetic_args grid = Some fw /\
    @evaluation_mask
      toy (@setup toy synthetic_args (synthetic_series 150) tt tt)
      synthetic_args "max"%string = Some available /\
    if @error_props_column_major toy (@intelligent_tsch toy fw available)
       || (length grid <=? 1)%nat || (futureLen synthetic_args <=? 1)%Z
    then
      exists series : tensor2,
        @reception_props_values
          toy (@setup toy synthetic_args (synthetic_series 150) tt tt)
          synthetic_args "max"%string = Some series /\
        Z.of_nat (length series)
        = (pastLen synthetic_args
           + Z.of_nat (length grid) * futureLen synthetic_args)%Z /\
        firstn (Z.to_nat (pastLen synthetic_args)) series
        = firstn (Z.to_nat (pastLen synthetic_args))
                 (@tsch_receptions
                    toy (@setup toy synthetic_args (synthetic_series 150) tt tt))
    else
      @reception_props_values
        toy (@setup toy synthetic_args (synthetic_series 150) tt tt)
        synthetic_args "max"%string = None.
Proof.
  apply (@stitched_series_on_whole_windows toy) with (d := 150%nat) (C := 1%nat)
                                                    (model := ((55 # 100)%Q, tt)).
  - intros net x. apply Forall_map, Forall_forall. reflexivity.
  - intros fw available n0 n1 Hlen Hframes. split.
    + simpl. now rewrite length_map.
    + simpl. apply Forall_map.
      eapply Forall_impl; [|exact Hframes]. simpl. intros frame Hf.
      rewrite length_map, length_combine, length_seq. lia.
  - intros x n0 n1 n2 [Hlen Hrows]. split.
    + simpl. now rewrite length_map.
    + simpl. apply Forall_map.
      eapply Forall_impl; [|exact Hrows]. simpl. intros m [Hm _].
      now rewrite length_map.
  - intros m n0 n1 [Hlen Hrows]. split.
    + simpl. now rewrite length_map.
    + simpl. apply Forall_map.
      eapply Forall_impl; [|exact Hrows]. simpl. intros r Hr.
      now rewrite length_map.
  - intros a b. simpl. apply map_app.
  - intro a. simpl. apply length_map.
  - vm_compute. discriminate.
  - reflexivity.
  - simpl data. unfold synthetic_series. split.
    + now rewrite length_map, length_seq.
    + apply Forall_map, Forall_forall. intros t _. repeat constructor.
  - reflexivity.
  - reflexivity.
  - reflexivity.
Defined.

(** The same run with an error model that returns a contiguous tensor:
    the grid has the two pivots 50 and 100, the masked errors have 50 rows
    and 2 columns, their transpose cannot be viewed as one column, and
    line 154 raises.  With a single pivot (a Series of 70 time steps) the
    same collaborators go through. *)
Example stitched_series_contiguous :
  pivots synthetic_args 150 = Some [50; 100]%Z /\
  @reception_props_values
    contiguous_toy
    (@setup contiguous_toy synthetic_args (synthetic_series 150) tt tt)
    synthetic_args "max"%string = None /\
  option_map (@length (list Q))
    (@reception_props_values
       contiguous_toy
       (@setup contiguous_toy synthetic_args (synthetic_series 70) tt tt)
       synthetic_args "max"%string) = Some 70%nat.
Proof. repeat split; vm_compute; reflexivity. Qed.

(** C8 (the code departs from the claim).  On a Series of 70 time steps
    with windows of 50 samples the grid is the single pivot 50, the future
    window [data[50:100]] holds 20 rows, and the stitched reception series
    has 70 entries, not 50 + 1 * 50.  Its first 50 entries are those of the
    baseline series. *)
Theorem stitched_series_short_of_formula :
  exists (grid : list Z) (series : tensor2),
    pivots synthetic_args (Z.of_nat (length (data short_env))) = Some grid /\
    length grid = 1%nat /\
    @reception_props_values toy short_env synthetic_args "mean"%string
    = Some series /\
    length series = 70%nat /\
    Z.of_nat (length series)
    <> (pastLen synthetic_args
        + Z.of_nat (length grid) * futureLen synthetic_args)%Z /\
    firstn 50 series = firstn 50 (@tsch_receptions toy short_env).
Proof.
  exists [50%Z].
  eexists. split; [reflexivity|]. split; [reflexivity|].
  split; [vm_compute; reflexivity|].
  split; [reflexivity|]. split; [discriminate|].
  vm_compute. reflexivity.
Qed.

(** ** The objective of a training iteration *)

Section TrainingLoss.
Context {ext : External}.

(** A training iteration that goes through has computed the loss of
    lines 92-97 with the penalty weight stored under its reducer. *)
Lemma train_iteration_loss (env env' : Env) (args : Args)
  (reducing_method : String.string) (indices : list Z) :
  train_iteration env args reducing_method indices = Some env' ->
  exists (w : Q) (net : Network) (input fw : tensor3) (reduced : tensor2)
         (v : Rdefinitions.R),
    lookup reducing_method (models env) = Some (w, net) /\
    training_input env args indices = Some input /\
    future_windows (training_data env) args indices = Some fw /\
    errors_reduced (error_props (fst (tsch fw))) (snd (tsch fw)) reducing_method
    = Some reduced /\
    Loss.loss_func (Rdefinitions.Q2R w) (Loss.of_tensor2 reduced)
                   (Loss.of_tensor2 (forward net input)) = Some v.
Proof.
  unfold train_iteration.
  destruct (lookup reducing_method (models env)) as [[w net]|] eqn:Hl;
    simpl; [|discriminate].
  destruct (training_input env args indices) as [input|] eqn:Hi;
    simpl; [|discriminate].
  destruct (future_windows (training_data env) args indices) as [fw|] eqn:Hf;
    simpl; [|discriminate].
  destruct (tsch fw) as [power attribution] eqn:Ht.
  destruct (errors_reduced (error_props power) attribution reducing_method)
    as [reduced|] eqn:Hr; simpl; [|discriminate].
  destruct (Loss.loss_func _ _ _) as [v|] eqn:Hv; simpl; [|discriminate].
  intros _. exists w, net, input, fw, reduced, v.
  rewrite Ht. simpl fst. simpl snd. repeat split; assumption.
Qed.

(** The weight under a reducer in a state the program reaches. *)
Lemma reachable_weight (args : Args) (data0 : tensor3)
  (net_mean net_max : Network) (env : Env)
  (reducing_method : String.string) (w : Q) (net : Network) :
  reachable args data0 net_mean net_max env ->
  lookup reducing_method (models env) = Some (w, net) ->
  (reducing_method = "mean"%string /\ w = (5 # 100)%Q) \/
  (reducing_method = "max"%string /\ w = (55 # 100)%Q).
Proof.
  intros Hreach Hl.
  destruct (reachable_models _ _ _ _ _ Hreach) as (n1 & n2 & Hm).
  rewrite Hm in Hl. simpl in Hl.
  destruct (String.eqb_spec reducing_method "mean") as [->|_].
  - injection Hl as <- _. now left.
  - destruct (String.eqb_spec reducing_method "max") as [->|_]; [|discriminate].
    injection Hl as <- _. now right.
Qed.

End TrainingLoss.

Module Objective.
Import Reals Lra Loss LossFacts.
Local Open Scope R_scope.

(** C7. For a reduced-error tensor and a score matrix of one shape with
    entries in [0, 1], the loss of lines 92-97 is the binary cross
    entropy of [reducedError * (1 - score)] against an all-zero target
    plus the penalty weight times the mean score; where no predicted
    failure comes within [exp (-100)] of 1 that is the mean of
    [- ln (1 - reducedError * (1 - score))] plus the penalty.  The penalty
    weight is fixed per reducer in every state the program reaches: 0.05
    for 'mean' and the strictly larger 0.55 for 'max', and a training
    iteration computes its loss with the weight of the reducer it
    trains.  When both tensors are all zeros the loss is 0; a reduced
    error of one on channels that are all kept costs 100, the clamp of
    the criterion. *)
Theorem training_loss_composition {ext : External}
  (args : Args) (data0 : tensor3) (net_mean net_max : Network) (env : Env)
  (n0 n1 : nat) (penaltyWeight : R) (reducedError score : rtensor2) :
  reachable args data0 net_mean net_max env ->
  (1 <= n0)%nat -> (1 <= n1)%nat ->
  shape2 n0 n1 reducedError -> shape2 n0 n1 score ->
  unit_entries reducedError -> unit_entries score ->
  loss_func penaltyWeight reducedError score
  = Some (binary_cross_entropy
            (predicted_failure reducedError score)
            (all_zeros (length (predicted_failure reducedError score)))
          + penaltyWeight * mean score) /\
  (Forall (fun p => exp (-100) <= 1 - p) (predicted_failure reducedError score) ->
   loss_func penaltyWeight reducedError score
   = Some (Rsum (map (fun p => - ln (1 - p))
                     (predicted_failure reducedError score))
           / INR (n0 * n1)
           + penaltyWeight * mean score)) /\
  penalty_weights (models env)
  = [("mean"%string, (5 # 100)%Q); ("max"%string, (55 # 100)%Q)] /\
  (5 # 100 < 55 # 100)%Q /\
  (forall (reducing_method : String.string) (indices : list Z) (env' : Env),
      train_iteration env args reducing_method indices = Some env' ->
      exists (w : Q) (net : Network) (input fw : tensor3) (reduced : tensor2)
             (v : R),
        ((reducing_method = "mean"%string /\ w = (5 # 100)%Q) \/
         (reducing_method = "max"%string /\ w = (55 # 100)%Q)) /\
        lookup reducing_method (models env) = Some (w, net) /\
        training_input env args indices = Some input /\
        future_windows (training_data env) args indices = Some fw /\
        errors_reduced (error_props (fst (tsch fw))) (snd (tsch fw))
                       reducing_method = Some reduced /\
        loss_func (Q2R w) (of_tensor2 reduced)
                  (of_tensor2 (forward net input)) = Some v) /\
  loss_func penaltyWeight (zeros n0 n1) (zeros n0 n1) = Some 0 /\
  loss_func penaltyWeight (ones n0 n1) (zeros n0 n1) = Some 100.
Proof.
  intros Hreach H0 H1 Hse Hss He Hs.
  split; [|split; [|split; [|split; [|split; [|split]]]]].
  - exact (loss_func_spec n0 n1 penaltyWeight reducedError score Hse Hss He Hs).
  - intro Hfar.
    rewrite (loss_func_spec n0 n1 penaltyWeight reducedError score Hse Hss He Hs).
    unfold spec_total_loss.
    rewrite binary_cross_entropy_zero_target,
      (cross_entropy_to_zero_ln _ Hfar),
      (predicted_failure_length n0 n1 _ _ Hse Hss).
    reflexivity.
  - exact (proj2 (proj2 (proj2 (proj2
             (reachable_invariant args data0 net_mean net_max env Hreach))))).
  - reflexivity.
  - intros reducing_method indices env' Hstep.
    destruct (train_iteration_loss env env' args reducing_method indices Hstep)
      as (w & net & input & fw & reduced & v & Hl & Hi & Hf & Hr & Hv).
    exists w, net, input, fw, reduced, v.
    split; [exact (reachable_weight _ _ _ _ _ _ _ _ Hreach Hl)|].
    repeat split; assumption.
  - rewrite (loss_func_spec n0 n1 penaltyWeight _ _
               (zeros_shape n0 n1) (zeros_shape n0 n1)
               (zeros_unit n0 n1) (zeros_unit n0 n1)).
    f_equal. apply spec_total_loss_zeros.
  - rewrite (loss_func_spec n0 n1 penaltyWeight _ _
               (ones_shape n0 n1) (zeros_shape n0 n1)
               (ones_unit n0 n1) (zeros_unit n0 n1)).
    f_equal. now apply spec_total_loss_certain_failure.
Qed.

Lemma training_loss_composition_witness :
  loss_func (5 / 100) [[1; 1 / 2]] [[0; 1]]
  = Some (binary_cross_entropy
            (predicted_failure [[1; 1 / 2]] [[0; 1]])
            (all_zeros (length (predicted_failure [[1; 1 / 2]] [[0; 1]])))
          + 5 / 100 * mean [[0; 1]]) /\
  (Forall (fun p => exp (-100) <= 1 - p)
          (predicted_failure [[1; 1 / 2]] [[0; 1]]) ->
   loss_func (5 / 100) [[1; 1 / 2]] [[0; 1]]
   = Some (Rsum (map (fun p => - ln (1 - p))
                     (predicted_failure [[1; 1 / 2]] [[0; 1]]))
           / INR (1 * 2)
           + 5 / 100 * mean [[0; 1]])) /\
  penalty_weights
    (models (@setup toy synthetic_args (synthetic_series 150) tt tt))
  = [("mean"%string, (5 # 100)%Q); ("max"%string, (55 # 100)%Q)] /\
  (5 # 100 < 55 # 100)%Q /\
  (forall (reducing_method : String.string) (indices : list Z)
          (env' : @Env toy),
      @train_iteration
        toy (@setup toy synthetic_args (synthetic_series 150) tt tt)
        synthetic_args reducing_method indices = Some env' ->
      exists (w : Q) (net : @Network toy) (input fw : tensor3)
             (reduced : tensor2) (v : R),
        ((reducing_method = "mean"%string /\ w = (5 # 100)%Q) \/
         (reducing_method = "max"%string /\ w = (55 # 100)%Q)) /\
        lookup reducing_method
               (models (@setup toy synthetic_args (synthetic_series 150) tt tt))
        = Some (w, net) /\
        @training_input
          toy (@setup toy synthetic_args (synthetic_series 150) tt tt)
          synthetic_args indices = Some input /\
        future_windows
          (training_data (@setup toy synthetic_args (synthetic_series 150) tt tt))
          synthetic_args indices = Some fw /\
        errors_reduced (@error_props toy (fst (@tsch toy fw)))
                       (snd (@tsch toy fw)) reducing_method = Some reduced /\
        loss_func (Q2R w) (of_tensor2 reduced)
                  (of_tensor2 (@forward toy net input)) = Some v) /\
  loss_func (5 / 100) (zeros 1 2) (zeros 1 2) = Some 0 /\
  loss_func (5 / 100) (ones 1 2) (zeros 1 2) = Some 100.
Proof.
  apply (@training_loss_composition
           toy synthetic_args (synthetic_series 150) tt tt
           (@setup toy synthetic_args (synthetic_series 150) tt tt) 1 2).
  - apply reachable_setup.
  - lia.
  - lia.
  - repeat constructor.
  - repeat constructor.
  - repeat constructor; lra.
  - repeat constructor; lra.
Defined.

(** With every score equal to one the penalty is 1 and no failure is
    predicted, whatever the reduced error. *)
Example all_blacklisted (e1 e2 : R) :
  mean [[1; 1]] = 1 /\ predicted_failure [[e1; e2]] [[1; 1]] = [0; 0].
Proof.
  split.
  - unfold mean. simpl. lra.
  - unfold predicted_failure. simpl. f_equal; [|f_equal]; ring.
Qed.

(** The clamp by evaluation: a certain failure on the one channel kept
    costs 100, not 0, and with half of it blacklisted [- ln (1 / 2)]. *)
Example certain_failure_loss (penaltyWeight : R) :
  loss_func penaltyWeight [[1]] [[0]] = Some 100 /\
  loss_func penaltyWeight [[1]] [[1 / 2]]
  = Some (- ln (1 / 2) + penaltyWeight * (1 / 2)).
Proof.
  split.
  - rewrite (loss_func_spec 1 1 penaltyWeight [[1]] [[0]]);
      [| repeat constructor | repeat constructor
       | repeat constructor; lra | repeat constructor; lra].
    f_equal. exact (spec_total_loss_certain_failure penaltyWeight 1 1
                      (le_n 1) (le_n 1)).
  - rewrite (loss_func_spec 1 1 penaltyWeight [[1]] [[1 / 2]]);
      [| repeat constructor | repeat constructor
       | repeat constructor; lra | repeat constructor; lra].
    f_equal. unfold spec_total_loss.
    rewrite binary_cross_entropy_zero_target. rewrite cross_entropy_to_zero_ln.
    + unfold predicted_failure, mean. simpl.
      replace (1 * (1 - 1 / 2)) with (1 / 2) by lra.
      replace (1 - 1 / 2) with (1 / 2) by lra. lra.
    + unfold predicted_failure. simpl. constructor; [|constructor].
      replace (1 - 1 * (1 - 1 / 2)) with (1 / 2) by lra.
      exact exp_floor_small.
Qed.

(** Shapes by evaluation: reduced errors with three channels against
    scores with two raise at line 93; a single reduced error per row is
    broadcast over the channels of the row. *)
Example loss_func_shapes (penaltyWeight : R) :
  loss_func penaltyWeight [[0; 0; 0]] [[0; 0]] = None /\
  loss_func penaltyWeight [[0]] [[0; 0]] = Some 0.
Proof.
  split; [reflexivity|].
  unfold loss_func, sub, mul, broadcast2, broadcast_row. simpl.
  unfold criterion. simpl.
  rewrite !in_unit_true by lra. simpl. f_equal.
  unfold mean, bce_entry. simpl.
  replace (1 - 0 * (1 - 0)) with 1 by lra. rewrite log_clamped_one. lra.
Qed.

End Objective.

(** ** Training iterations go through *)

Lemma of_tensor2_unit (m : tensor2) :
  unit_entriesQ m -> Loss.unit_entries (Loss.of_tensor2 m).
Proof.
  intro H. unfold Loss.unit_entries, Loss.of_tensor2.
  apply Forall_map. eapply Forall_impl; [|exact H]. simpl. intros r Hr.
  apply Forall_map. eapply Forall_impl; [|exact Hr]. simpl. intros q [H0 H1].
  apply Qreals.Qle_Rle in H0, H1.
  rewrite RMicromega.Q2R_0 in H0. rewrite RMicromega.Q2R_1 in H1.
  split; assumption.
Qed.

Lemma of_tensor2_shape (n0 n1 : nat) (m : tensor2) :
  shape2 n0 n1 m -> shape2 n0 n1 (Loss.of_tensor2 m).
Proof.
  intros [Hlen Hrows]. unfold Loss.of_tensor2. split; [now rewrite length_map|].
  apply Forall_map. eapply Forall_impl; [|exact Hrows].
  simpl. intros r Hr. now rewrite length_map.
Qed.

Section TrainingProgress.
Context {ext : External}.

(** A training iteration on windows that can be cut, with error values
    and scores in [0, 1], yields the next state. *)
Lemma train_iteration_progress (env : Env) (args : Args)
  (reducing_method : String.string) (indices : list Z)
  (w : Q) (net : Network) (input fw : tensor3) (reduced : tensor2)
  (n0 n1 : nat) :
  lookup reducing_method (models env) = Some (w, net) ->
  training_input env args indices = Some input ->
  future_windows (training_data env) args indices = Some fw ->
  errors_reduced (error_props (fst (tsch fw))) (snd (tsch fw)) reducing_method
  = Some reduced ->
  shape2 n0 n1 reduced -> shape2 n0 n1 (forward net input) ->
  unit_entriesQ reduced -> unit_entriesQ (forward net input) ->
  train_iteration env args reducing_method indices
  = Some {| data := data env;
            train_samples_cutoff := train_samples_cutoff env;
            training_data := training_data env;
            data_mean := data_mean env;
            data_std := data_std env;
            models := assign reducing_method
                             (w, optimizer_step net input reduced w)
                             (models env) |}.
Proof.
  intros Hl Hi Hf Hr Hsr Hsb Hu Hb. unfold train_iteration.
  rewrite Hl. cbn [bind]. rewrite Hi. cbn [bind]. rewrite Hf. cbn [bind].
  destruct (tsch fw) as [power attribution]. simpl fst in Hr. simpl snd in Hr.
  rewrite Hr. cbn [bind].
  rewrite (LossFacts.loss_func_spec n0 n1 _ _ _
             (of_tensor2_shape _ _ _ Hsr) (of_tensor2_shape _ _ _ Hsb)
             (of_tensor2_unit _ Hu) (of_tensor2_unit _ Hb)).
  cbn [bind]. reflexivity.
Qed.
End TrainingProgress.

(** The hand-built run on 150 time steps: a training iteration at the
    pivot 60 goes through. *)
Lemma toy_env_trained_eq :
  @train_iteration toy toy_env synthetic_args "mean"%string [60%Z]
  = Some toy_env_trained.
Proof.
  unfold toy_env_trained.
  erewrite (@train_iteration_progress
              toy toy_env synthetic_args "mean"%string [60%Z] (5 # 100)%Q tt
              _ _ _ 1 16).
  - reflexivity.
  - reflexivity.
  - vm_compute. reflexivity.
  - vm_compute. reflexivity.
  - vm_compute. reflexivity.
  - repeat constructor.
  - vm_compute. repeat constructor.
  - repeat constructor; discriminate.
  - vm_compute. repeat constructor; discriminate.
Qed.

Lemma toy_random_indices : random_indices synthetic_args 150 [60%Z].
Proof.
  unfold random_indices, Py.randint.
  split; [reflexivity|]. split; [reflexivity|].
  constructor; [|constructor]. vm_compute. split; [discriminate | reflexivity].
Qed.

Example toy_training_step :
  random_indices synthetic_args 150 [60%Z] /\
  exists env' : @Env toy,
    @train_iteration toy toy_env synthetic_args "mean"%string [60%Z] = Some env' /\
    @reachable toy synthetic_args (synthetic_series 150) tt tt env'.
Proof.
  split; [exact toy_random_indices|].
  exists toy_env_trained. split; [exact toy_env_trained_eq|].
  eapply reachable_train;
    [apply reachable_setup | exact toy_random_indices | exact toy_env_trained_eq].
Qed.

(** Loading a saved predictor for 'max' after that iteration. *)
Lemma toy_env_loaded_eq :
  @load_model toy toy_env_trained "max"%string tt = Some toy_env_loaded.
Proof.
  unfold toy_env_loaded.
  assert (Hreach : @reachable toy synthetic_args (synthetic_series 150) tt tt
                              toy_env_trained).
  { eapply reachable_train;
      [apply reachable_setup | exact toy_random_indices
       | exact toy_env_trained_eq]. }
  destruct (@reachable_models toy _ _ _ _ _ Hreach) as (net & net' & Hm).
  unfold load_model. rewrite Hm. reflexivity.
Qed.

Lemma toy_env_loaded_reachable :
  @reachable toy synthetic_args (synthetic_series 150) tt tt toy_env_loaded.
Proof.
  eapply reachable_load; [|exact toy_env_loaded_eq].
  eapply reachable_train;
    [apply reachable_setup | exact toy_random_indices | exact toy_env_trained_eq].
Qed.

Lemma normalization_statistics_fixed_witness :
  @data_mean toy toy_env_loaded
  = Py.mean (Py.slice (synthetic_series 150) 0
                      (train_split synthetic_args * sample_rate synthetic_args)) /\
  @data_std toy toy_env_loaded
  = @torch_std toy
      (Py.slice (synthetic_series 150) 0
                (train_split synthetic_args * sample_rate synthetic_args)) /\
  (~ (@torch_std toy
        (Py.slice (synthetic_series 150) 0
                  (train_split synthetic_args * sample_rate synthetic_args))
      == 0)%Q ->
   (forall (indices : list Z) (input : tensor3),
       @training_input toy toy_env_loaded synthetic_args indices = Some input ->
       exists pw : tensor3,
         past_windows
           (Py.slice (synthetic_series 150) 0
                     (train_split synthetic_args * sample_rate synthetic_args))
           synthetic_args indices = Some pw /\
         input
         = map (map (map
             (fun x =>
                ((x - Py.mean (Py.slice (synthetic_series 150) 0
                                        (train_split synthetic_args
                                         * sample_rate synthetic_args)))
                 / @torch_std toy
                     (Py.slice (synthetic_series 150) 0
                               (train_split synthetic_args
                                * sample_rate synthetic_args)))%Q)))
             (@downsample toy pw
                (inject_Z (target_rate synthetic_args)
                 / inject_Z (sample_rate synthetic_args))%Q)) /\
   (forall input : tensor3,
       @evaluation_input toy toy_env_loaded synthetic_args = Some input ->
       exists (grid : list Z) (pw : tensor3),
         pivots synthetic_args (Z.of_nat (length (synthetic_series 150)))
         = Some grid /\
         past_windows (synthetic_series 150) synthetic_args grid = Some pw /\
         input
         = map (map (map
             (fun x =>
                ((x - Py.mean (Py.slice (synthetic_series 150) 0
                                        (train_split synthetic_args
                                         * sample_rate synthetic_args)))
                 / @torch_std toy
                     (Py.slice (synthetic_series 150) 0
                               (train_split synthetic_args
                                * sample_rate synthetic_args)))%Q)))
             (@downsample toy pw
                (inject_Z (target_rate synthetic_args)
                 / inject_Z (sample_rate synthetic_args))%Q))).
Proof.
  apply (@normalization_statistics_fixed
           toy synthetic_args (synthetic_series 150) tt tt toy_env_loaded).
  exact toy_env_loaded_reachable.
Defined.

(** The standardisation by evaluation: the training portion of the 150
    time steps is all of them, with mean 149/2; the hand-built standard
    deviation is 1; the evaluation input is the two past windows with
    149/2 taken off every entry, the first one starting at 0 - 149/2. *)
Example standardization_toy :
  Qred (@data_mean toy toy_env_loaded) = (149 # 2)%Q /\
  @data_std toy toy_env_loaded = 1%Q /\
  option_map (fun input => map (map (map Qred)) (firstn 2 input))
             (@evaluation_input toy toy_env_loaded synthetic_args)
  = Some [[[- (149 # 2)]; [(- (49 # 2))]]; [[- (147 # 2)]; [- (47 # 2)]]]%Q.
Proof.
  destruct (@reachable_invariant toy _ _ _ _ _ toy_env_loaded_reachable)
    as (Hd & Ht & Hm & Hs & _).
  unfold evaluation_input, past_windows_normalized.
  rewrite Hm, Hs, Ht, Hd. repeat split; vm_compute; reflexivity.
Qed.

(** ** The mask reaches the simulator unchecked *)

Section UncheckedMask.
Context {ext : External}.

(** Whatever mask the thresholding yields is the one that line 152
    hands to the simulator: a predictor that scores all sixteen channels
    of every batch row alike sends it rows without an available channel. *)
Lemma evaluation_mask_constant_scores (env : Env) (args : Args)
  (reducing_method : String.string) (model : Q * Network) (input : tensor3)
  (v : Q) (batch : nat) :
  lookup reducing_method (models env) = Some model ->
  evaluation_input env args = Some input ->
  forward (snd model) input = repeat (repeat v 16) batch ->
  evaluation_mask env args reducing_method
  = Some (repeat (repeat false 16) batch).
Proof.
  intros Hl Hi Hf. unfold evaluation_mask.
  rewrite Hl. cbn [bind]. rewrite Hi. cbn [bind]. rewrite Hf.
  apply available_channels_constant.
Qed.
End UncheckedMask.

(** Both rows of the evaluation batch reach the simulator without a single
    available channel, and the evaluation carries on with what the
    simulator returns for them. *)
Example flat_scores_block_every_channel :
  @evaluation_mask flat_toy flat_env synthetic_args "mean"%string
  = Some [repeat false 16; repeat false 16] /\
  exists series : tensor2,
    @reception_props_values flat_toy flat_env synthetic_args "mean"%string
    = Some series /\
    length series = 150%nat.
Proof.
  split; [vm_compute; reflexivity|].
  eexists. split; [vm_compute; reflexivity | reflexivity].
Qed.

(* ================================================================== *)
(** * Part III. Further properties of the code *)
(* ================================================================== *)

(** ** The split of the Series (lines 60-62) *)

Lemma slice_bound_range (n i : Z) :
  (0 <= n)%Z -> (0 <= Py.slice_bound n i <= n)%Z.
Proof.
  intro Hn. unfold Py.slice_bound. destruct (Z.ltb_spec i 0); lia.
Qed.

Lemma slice_split {A : Type} (l : list A) (c : Z) :
  Py.slice l 0 c ++ Py.slice_from l c = l.
Proof.
  unfold Py.slice, Py.slice_from.
  replace (Py.slice_bound (Z.of_nat (length l)) 0) with 0%Z
    by (unfold Py.slice_bound; simpl; lia).
  simpl skipn. rewrite Z.sub_0_r. apply firstn_skipn.
Qed.

(** X1. Whatever the training split, negative or beyond the end, the
    training portion followed by the validation portion is the Series:
    the two slices of lines 61-62 neither lose nor repeat a row.  The
    training portion has min(cutoff, datapoints) rows, and for a negative
    cutoff all rows but the last [- cutoff]. *)
Theorem training_validation_partition {ext : External}
  (args : Args) (data0 : tensor3) (net_mean net_max : Network) :
  training_data (setup args data0 net_mean net_max) ++ validation_data args data0
  = data0 /\
  Z.of_nat (length (training_data (setup args data0 net_mean net_max)))
  = (if (train_split args * sample_rate args <? 0)%Z
     then Z.max 0 (Z.of_nat (length data0) + train_split args * sample_rate args)
     else Z.min (train_split args * sample_rate args) (Z.of_nat (length data0))).
Proof.
  split.
  - apply slice_split.
  - simpl training_data. rewrite slice_length.
    replace (Py.slice_bound (Z.of_nat (length data0)) 0) with 0%Z
      by (unfold Py.slice_bound; simpl; lia).
    unfold Py.slice_bound.
    destruct (Z.ltb_spec (train_split args * sample_rate args) 0); lia.
Qed.

(** ** Windows at the edges of the Series (lines 80-81 and 142-143) *)

(** X2. Slicing never raises: a future window cut at a pivot inside the
    Series has min(futureLen, datapoints - pivot) rows, so a pivot closer
    than [futureLen] to the end gives a shorter window instead of an
    error. *)
Theorem future_window_rows (series : tensor3) (args : Args) (index : Z) :
  (0 <= index <= Z.of_nat (length series))%Z -> (0 <= futureLen args)%Z ->
  Z.of_nat (length (Py.slice series index
                             (index + future_window args * sample_rate args)))
  = Z.min (futureLen args) (Z.of_nat (length series) - index).
Proof.
  intros Hi HF. rewrite slice_length. fold (futureLen args).
  unfold Py.slice_bound.
  destruct (Z.ltb_spec (index + futureLen args) 0); [lia|].
  destruct (Z.ltb_spec index 0); lia.
Qed.

Lemma future_window_rows_witness :
  Z.of_nat (length (Py.slice (synthetic_series 70) 50
                             (50 + future_window synthetic_args
                                   * sample_rate synthetic_args)))
  = Z.min (futureLen synthetic_args) (Z.of_nat (length (synthetic_series 70)) - 50).
Proof.
  apply (future_window_rows (synthetic_series 70) synthetic_args 50).
  - vm_compute. split; discriminate.
  - vm_compute. discriminate.
Defined.

(** X3. A pivot below [pastLen] makes the start of the past window
    negative, which Python counts from the end of the Series: on a Series
    of at least [pastLen] rows the past window is then empty, not the rows
    before the pivot. *)
Theorem past_window_wraps (series : tensor3) (args : Args) (index : Z) :
  (0 <= index < pastLen args)%Z ->
  (pastLen args <= Z.of_nat (length series))%Z ->
  Py.slice series (index - past_window args * sample_rate args) index = [] /\
  past_windows series args [index] = Some [].
Proof.
  intros Hi Hn.
  assert (E : Py.slice series (index - past_window args * sample_rate args) index
              = []).
  { apply length_zero_iff_nil. apply Nat2Z.inj. rewrite slice_length.
    fold (pastLen args). unfold Py.slice_bound.
    destruct (Z.ltb_spec index 0); [lia|].
    destruct (Z.ltb_spec (index - pastLen args) 0); lia. }
  split; [exact E|]. unfold past_windows. simpl. now rewrite E.
Qed.

Lemma past_window_wraps_witness :
  Py.slice (synthetic_series 70)
           (30 - past_window synthetic_args * sample_rate synthetic_args) 30 = [] /\
  past_windows (synthetic_series 70) synthetic_args [30%Z] = Some [].
Proof.
  apply (past_window_wraps (synthetic_series 70) synthetic_args 30).
  - vm_compute. split; [discriminate | reflexivity].
  - vm_compute. discriminate.
Defined.

(** ** When the evaluation raises (lines 141-143) *)

Lemma cat_dim1_lengths (ts : list tensor3) (r : tensor3) :
  Py.cat_dim1 ts = Some r -> Forall (fun t => length t = length r) ts.
Proof.
  revert r. induction ts as [|t rest IH]; intros r H; [discriminate|].
  destruct rest as [|t' rest].
  - injection H as <-. repeat constructor.
  - change (Py.cat_dim1 (t :: t' :: rest))
      with (r0 <- Py.cat_dim1 (t' :: rest) ;;
            if (length t =? length r0)%nat then Some (map2 (@app _) t r0)
            else None) in H.
    destruct (Py.cat_dim1 (t' :: rest)) as [r0|]; [|discriminate].
    cbn [bind] in H.
    destruct (Nat.eqb_spec (length t) (length r0)) as [E|_]; [|discriminate].
    injection H as <-.
    assert (Hlen : length (map2 (@app _) t r0) = length t)
      by (rewrite length_map2; lia).
    constructor; [now rewrite Hlen|].
    eapply Forall_impl; [|exact (IH r0 eq_refl)].
    simpl. intros x ->. now rewrite Hlen.
Qed.

Lemma pivots_empty (args : Args) (datapoints : Z) :
  (0 < futureLen args)%Z -> (datapoints <= pastLen args)%Z ->
  pivots args datapoints = Some [].
Proof.
  intros HF Hd.
  destruct (pivots_arithmetic args datapoints HF) as (n & Hn & Hlt & _).
  destruct n as [|n]; [exact Hn|].
  pose proof (Hlt 0%nat ltac:(lia)). lia.
Qed.

Lemma pivots_zero_stride (args : Args) (datapoints : Z) :
  futureLen args = 0%Z -> pivots args datapoints = None.
Proof.
  intro H. unfold pivots, Py.np_arange. fold (futureLen args). now rewrite H.
Qed.

Section EvaluationRaises.
Context {ext : External}.

(** X4. Without room for a single pivot the evaluation raises: when the
    future window has no samples [np.arange] rejects its zero step, and
    when the Series is no longer than the past window the grid is empty
    and [torch.cat] rejects the empty list of windows. *)
Theorem evaluation_needs_a_pivot (env : Env) (args : Args)
  (reducing_method : String.string) :
  futureLen args = 0%Z \/
  ((0 < futureLen args)%Z /\ (Z.of_nat (length (data env)) <= pastLen args)%Z) ->
  evaluation_input env args = None /\
  evaluation_mask env args reducing_method = None /\
  reception_props_values env args reducing_method = None.
Proof.
  intros H.
  assert (Hi : evaluation_input env args = None).
  { unfold evaluation_input. destruct H as [H0 | [HF Hd]].
    - now rewrite (pivots_zero_stride args _ H0).
    - now rewrite (pivots_empty args _ HF Hd). }
  split; [exact Hi|]. split.
  - unfold evaluation_mask. rewrite Hi.
    destruct (lookup reducing_method (models env)); reflexivity.
  - unfold reception_props_values. destruct H as [H0 | [HF Hd]].
    + now rewrite (pivots_zero_stride args _ H0).
    + now rewrite (pivots_empty args _ HF Hd).
Qed.

(** X5. A Series that holds at least one whole future window after the
    first past window and ends inside a later one cannot be evaluated: the
    grid has at least two pivots, the last future window is shorter than
    the first, and the concatenation of line 143 raises. *)
Theorem evaluation_raises_on_partial_window (env : Env) (args : Args)
  (reducing_method : String.string) :
  (0 <= pastLen args)%Z -> (0 < futureLen args)%Z ->
  (pastLen args + futureLen args < Z.of_nat (length (data env)))%Z ->
  ((Z.of_nat (length (data env)) - pastLen args) mod futureLen args <> 0)%Z ->
  exists grid : list Z,
    pivots args (Z.of_nat (length (data env))) = Some grid /\
    (2 <= length grid)%nat /\
    future_windows (data env) args grid = None /\
    reception_props_values env args reducing_method = None.
Proof.
  intros HP HF Hlong Hrem.
  set (d := Z.of_nat (length (data env))) in *.
  destruct (pivots_arithmetic args d HF) as (n & Hn & Hlt & Hcover).
  set (f := fun i : nat => (pastLen args + Z.of_nat i * futureLen args)%Z) in *.
  assert (Hn2 : (2 <= n)%nat).
  { destruct n as [|[|n]]; [lia | lia | lia]. }
  assert (Hstrict : (d < pastLen args + Z.of_nat n * futureLen args)%Z).
  { assert (d <> pastLen args + Z.of_nat n * futureLen args)%Z; [|lia].
    intro E. apply Hrem.
    replace (d - pastLen args)%Z with (Z.of_nat n * futureLen args)%Z by lia.
    apply Z.mod_mul. lia. }
  assert (Hnone : future_windows (data env) args (map f (seq 0 n)) = None).
  { destruct (future_windows (data env) args (map f (seq 0 n))) as [r|] eqn:E;
      [exfalso | reflexivity].
    apply cat_dim1_lengths in E. rewrite Forall_map, Forall_map in E.
    pose proof (proj1 (Forall_forall _ _) E 0%nat
                      ltac:(apply in_seq; lia)) as H0.
    pose proof (proj1 (Forall_forall _ _) E (n - 1)%nat
                      ltac:(apply in_seq; lia)) as H1.
    simpl in H0, H1.
    pose proof (Hlt (n - 1)%nat ltac:(lia)) as Hlast.
    apply (f_equal Z.of_nat) in H0, H1.
    rewrite slice_length in H0, H1. fold d in H0, H1.
    fold (futureLen args) in H0, H1. unfold f in H0, H1, Hlast.
    unfold Py.slice_bound in H0, H1.
    replace (Z.of_nat (n - 1)) with (Z.of_nat n - 1)%Z in * by lia.
    destruct (Z.ltb_spec (pastLen args + Z.of_nat 0 * futureLen args
                          + futureLen args) 0) in H0; [lia|].
    destruct (Z.ltb_spec (pastLen args + Z.of_nat 0 * futureLen args) 0) in H0;
      [lia|].
    destruct (Z.ltb_spec (pastLen args + (Z.of_nat n - 1) * futureLen args
                          + futureLen args) 0) in H1; [nia|].
    destruct (Z.ltb_spec (pastLen args + (Z.of_nat n - 1) * futureLen args) 0)
      in H1; [nia|].
    nia. }
  exists (map f (seq 0 n)). split; [exact Hn|]. split.
  - rewrite length_map, length_seq. exact Hn2.
  - split; [exact Hnone|].
    unfold reception_props_values. fold d. rewrite Hn. cbn [bind].
    now rewrite Hnone.
Qed.

End EvaluationRaises.

Lemma evaluation_needs_a_pivot_witness :
  @evaluation_input
    toy (@setup toy synthetic_args (synthetic_series 40) tt tt) synthetic_args
  = None /\
  @evaluation_mask
    toy (@setup toy synthetic_args (synthetic_series 40) tt tt) synthetic_args
    "mean"%string = None /\
  @reception_props_values
    toy (@setup toy synthetic_args (synthetic_series 40) tt tt) synthetic_args
    "mean"%string = None.
Proof.
  apply (@evaluation_needs_a_pivot toy).
  right. split; [reflexivity|]. vm_compute. discriminate.
Defined.

Lemma evaluation_raises_on_partial_window_witness :
  exists grid : list Z,
    pivots synthetic_args
           (Z.of_nat (length (data (@setup toy synthetic_args
                                           (synthetic_series 170) tt tt))))
    = Some grid /\
    (2 <= length grid)%nat /\
    future_windows (data (@setup toy synthetic_args (synthetic_series 170) tt tt))
                   synthetic_args grid = None /\
    @reception_props_values
      toy (@setup toy synthetic_args (synthetic_series 170) tt tt)
      synthetic_args "mean"%string = None.
Proof.
  apply (@evaluation_raises_on_partial_window toy).
  - vm_compute. discriminate.
  - reflexivity.
  - vm_compute. reflexivity.
  - vm_compute. discriminate.
Defined.

(** ** More on the availability mask (lines 148-151) *)

Lemma column_none (k : nat) (m : tensor2) :
  Exists (fun r => (length r <= k)%nat) m -> Py.column k m = None.
Proof.
  unfold Py.column. induction 1 as [r m Hr | r m _ IH]; simpl.
  - now rewrite (proj2 (nth_error_None r k) Hr).
  - destruct (nth_error r k); simpl; [|reflexivity]. now rewrite IH.
Qed.

Lemma np_sort_short_row (k : nat) (m : tensor2) :
  Exists (fun r => (length r <= k)%nat) m ->
  Exists (fun r => (length r <= k)%nat) (Py.np_sort m).
Proof.
  unfold Py.np_sort. intro H. apply Exists_exists in H.
  destruct H as (r & Hin & Hr). apply Exists_exists.
  exists (Py.sort_row r). split; [now apply in_map|].
  now rewrite sort_row_length.
Qed.

Lemma long_or_short_rows (k : nat) (m : tensor2) :
  Forall (fun r => (k < length r)%nat) m \/
  Exists (fun r => (length r <= k)%nat) m.
Proof.
  induction m as [|r m [IH|IH]].
  - left. constructor.
  - destruct (Nat.lt_ge_cases k (length r)) as [H|H].
    + left. now constructor.
    + right. now constructor.
  - right. now constructor.
Qed.

(** X6. The thresholding raises exactly when some row has fewer than nine
    scores (position 8 of the sorted row does not exist); otherwise it
    returns a mask with the rows and row lengths of the score matrix. *)
Theorem available_channels_defined (blacklist : tensor2) :
  (available_channels blacklist = None <->
   Exists (fun r => (length r <= 8)%nat) blacklist) /\
  (forall m : mask,
      available_channels blacklist = Some m ->
      map (@length bool) m = map (@length Q) blacklist).
Proof.
  split; [split|].
  - intro Hnone. destruct (long_or_short_rows 8 blacklist) as [H|H]; [|exact H].
    rewrite (available_channels_rows blacklist H) in Hnone. discriminate.
  - intro H. unfold available_channels.
    now rewrite (column_none 8 _ (np_sort_short_row 8 _ H)).
  - intros m Hm. destruct (long_or_short_rows 8 blacklist) as [H|H].
    + rewrite (available_channels_rows blacklist H) in Hm. injection Hm as <-.
      rewrite map_map. apply map_ext. intro r. apply length_map.
    + unfold available_channels in Hm.
      rewrite (column_none 8 _ (np_sort_short_row 8 _ H)) in Hm. discriminate.
Qed.

(** X7. The available channels of a row are its lowest-scored ones: every
    channel the mask keeps has a strictly lower score than every channel
    of the same row that it excludes. *)
Theorem available_channels_prefer_low_scores
  (blacklist : tensor2) (m : mask) (i j j' : nat)
  (row : list Q) (mrow : list bool) :
  available_channels blacklist = Some m ->
  nth_error blacklist i = Some row -> nth_error m i = Some mrow ->
  nth_error mrow j = Some true -> nth_error mrow j' = Some false ->
  exists x x' : Q,
    nth_error row j = Some x /\ nth_error row j' = Some x' /\ (x < x')%Q.
Proof.
  intros Hm Hrow Hmrow Hj Hj'.
  destruct (long_or_short_rows 8 blacklist) as [H|H].
  - rewrite (available_channels_rows blacklist H) in Hm. injection Hm as <-.
    rewrite nth_error_map, Hrow in Hmrow. injection Hmrow as <-.
    rewrite nth_error_map in Hj, Hj'.
    destruct (nth_error row j) as [x|]; [|discriminate].
    destruct (nth_error row j') as [x'|]; [|discriminate].
    simpl in Hj, Hj'. injection Hj as Hj. injection Hj' as Hj'.
    exists x, x'. split; [reflexivity|]. split; [reflexivity|].
    apply Qltb_lt in Hj. apply Qltb_ge in Hj'.
    now apply Qlt_le_trans with (nth 8 (Py.sort_row row) 0%Q).
  - unfold available_channels in Hm.
    rewrite (column_none 8 _ (np_sort_short_row 8 _ H)) in Hm. discriminate.
Qed.

Lemma available_channels_prefer_low_scores_witness :
  exists x x' : Q,
    nth_error distinct_scores 0 = Some x /\
    nth_error distinct_scores 1 = Some x' /\ (x < x')%Q.
Proof.
  apply (available_channels_prefer_low_scores
           [distinct_scores]
           [[true; false; true; false; true; false; true; false; false; true;
             false; true; false; true; false; true]]
           0 0 1 distinct_scores
           [true; false; true; false; true; false; true; false; false; true;
            false; true; false; true; false; true]).
  - vm_compute. reflexivity.
  - reflexivity.
  - reflexivity.
  - reflexivity.
  - reflexivity.
Defined.

(** ** How the two reductions compare (lines 16-22 and 89-90) *)

Lemma Qsum_nonneg (l : list Q) : Forall (fun x => 0 <= x)%Q l -> (0 <= Qsum l)%Q.
Proof.
  induction 1 as [|x l Hx _ IH]; simpl; [apply Qle_refl|].
  fold (Qsum l). lra.
Qed.

Lemma weighted_sum_unit (es ws : list Q) :
  Forall (fun e => 0 <= e <= 1)%Q es -> Forall (fun w => 0 <= w)%Q ws ->
  (0 <= Qsum (map2 Qmult es ws) <= Qsum ws)%Q.
Proof.
  intros He. revert ws. induction He as [|e es [He0 He1] _ IH]; intros ws Hw.
  - simpl. split; [apply Qle_refl | now apply Qsum_nonneg].
  - destruct Hw as [|w ws Hw Hws]; simpl.
    + split; apply Qle_refl.
    + fold (Qsum (map2 Qmult es ws)). fold (Qsum ws).
      destruct (IH ws Hws) as [H1 H2]. split; nra.
Qed.

Lemma weighted_sum_le_max (es ws : list Q) (M : Q) :
  (0 <= M)%Q ->
  Forall (fun e => 0 <= e)%Q es ->
  Forall (fun w => w == 0 \/ 1 <= w)%Q ws ->
  Forall (fun p => p <= M)%Q (map2 Qmult es ws) ->
  (Qsum (map2 Qmult es ws) <= M * Qsum ws)%Q.
Proof.
  intros HM He. revert ws. induction He as [|e es He _ IH]; intros ws Hw Hp.
  - simpl. apply Qmult_le_0_compat; [exact HM|].
    apply Qsum_nonneg. eapply Forall_impl; [|exact Hw].
    simpl. intros w [H|H]; [rewrite H; apply Qle_refl | lra].
  - destruct Hw as [|w ws Hw Hws]; simpl in *.
    + rewrite Qmult_0_r. apply Qle_refl.
    + fold (Qsum (map2 Qmult es ws)). fold (Qsum ws).
      apply Forall_cons_iff in Hp. destruct Hp as [Hp0 Hp].
      pose proof (IH ws Hws Hp) as IH'.
      destruct Hw as [Hw|Hw].
      * rewrite Hw in *. lra.
      * nra.
Qed.

Lemma nth_Forall_default {A : Type} (P : A -> Prop) (l : list A) (d : A) (i : nat) :
  Forall P l -> P d -> P (nth i l d).
Proof.
  intros Hl Hd. destruct (Nat.lt_ge_cases i (length l)) as [H|H].
  - exact (proj1 (Forall_forall _ _) Hl _ (nth_In l d H)).
  - now rewrite nth_overflow.
Qed.

Lemma column_values_Forall (P : Q -> Prop) (e : tensor2) (i : nat) :
  P 0%Q -> Forall (Forall P) e -> Forall P (column_values e i).
Proof.
  intros H0 He. unfold column_values. apply Forall_map.
  eapply Forall_impl; [|exact He]. simpl. intros row Hrow.
  now apply nth_Forall_default.
Qed.

Lemma fiber_Forall (P : Q -> Prop) (m : tensor3) (i j : nat) :
  P 0%Q -> Forall (Forall (Forall P)) m -> Forall P (fiber m i j).
Proof.
  intros H0 Hm. unfold fiber, cell. apply Forall_map.
  eapply Forall_impl; [|exact Hm]. simpl. intros mm Hmm.
  apply nth_Forall_default; [|exact H0].
  apply nth_Forall_default; [exact Hmm | constructor].
Qed.

Lemma cells_Forall (P : Q -> Prop) (n1 n2 : nat) (r : tensor2) :
  shape2 n1 n2 r ->
  (forall i j, (i < n1)%nat -> (j < n2)%nat -> P (cell r i j)) ->
  Forall (Forall P) r.
Proof.
  intros [Hlen Hrows] Hc.
  apply Forall_forall. intros row Hrow.
  destruct (In_nth r row [] Hrow) as (i & Hi & Ei).
  apply Forall_forall. intros x Hx.
  destruct (In_nth row x 0%Q Hx) as (j & Hj & Ej).
  pose proof (proj1 (Forall_forall _ _) Hrows row Hrow) as Hr. simpl in Hr.
  assert (Hi' : (i < n1)%nat) by lia.
  assert (Hj' : (j < n2)%nat) by lia.
  specialize (Hc i j Hi' Hj').
  unfold cell in Hc. now rewrite Ei, Ej in Hc.
Qed.

(** What lines 89-90 return for the method 'mean', entry by entry. *)
Lemma errors_reduced_mean_cell (n0 n1 n2 : nat) (e : tensor2) (m : tensor3)
  (r : tensor2) :
  (1 <= n0)%nat -> shape2 n0 n1 e -> shape3 n0 n1 n2 m ->
  errors_reduced e m "mean"%string = Some r ->
  shape2 n1 n2 r /\
  forall i j, (i < n1)%nat -> (j < n2)%nat ->
    (cell r i j
     == Qsum (map2 Qmult (column_values e i) (fiber m i j)) / Qsum (fiber m i j))%Q.
Proof.
  intros Hpos He Hm Hr.
  destruct (error_props_per_channel_fiber n0 n1 n2 e m He Hm) as [Hs Hf].
  destruct (reduce_mean_cell n0 n1 n2 _ m Hpos Hs Hm) as (r' & Hr' & Hshape & Hc).
  unfold errors_reduced in Hr. rewrite Hr' in Hr. injection Hr as <-.
  split; [exact Hshape|].
  intros i j Hi Hj. now rewrite (Hc i j Hi Hj), (Hf i j Hi Hj).
Qed.

(** X8. For non-negative error values and attribution weights that count
    interferers (each weight 0 or at least 1), the 'mean' reducer never
    exceeds the 'max' reducer at a position with a positive weight sum:
    the 'max' variant is the pessimistic one. *)
Theorem mean_reduction_below_max (n0 n1 n2 : nat) (e : tensor2) (m : tensor3)
  (rmean rmax : tensor2) (i j : nat) :
  (1 <= n0)%nat -> shape2 n0 n1 e -> shape3 n0 n1 n2 m ->
  Forall (Forall (fun x => 0 <= x)%Q) e ->
  Forall (Forall (Forall (fun w => w == 0 \/ 1 <= w)%Q)) m ->
  errors_reduced e m "mean"%string = Some rmean ->
  errors_reduced e m "max"%string = Some rmax ->
  (i < n1)%nat -> (j < n2)%nat -> (0 < Qsum (fiber m i j))%Q ->
  (cell rmean i j <= cell rmax i j)%Q.
Proof.
  intros Hpos He Hm Hnn Hw Hmean Hmax Hi Hj Hsum.
  destruct (errors_reduced_mean_cell n0 n1 n2 e m rmean Hpos He Hm Hmean)
    as [_ Hc].
  destruct (error_props_per_channel_fiber n0 n1 n2 e m He Hm) as [Hs Hf].
  destruct (max_dim0_cell n0 n1 n2 _ Hpos Hs) as (r' & Hr' & _ & Hmx).
  unfold errors_reduced, reduce in Hmax. simpl String.eqb in Hmax. cbv iota in Hmax.
  rewrite Hr' in Hmax. injection Hmax as <-.
  destruct (Hmx i j Hi Hj) as [Hin Hub]. rewrite (Hf i j Hi Hj) in Hin, Hub.
  rewrite (Hc i j Hi Hj).
  pose proof (column_values_Forall (fun x => 0 <= x)%Q e i (Qle_refl 0) Hnn) as Hes.
  pose proof (fiber_Forall (fun w => w == 0 \/ 1 <= w)%Q m i j
                           (or_introl (Qeq_refl 0)) Hw) as Hws.
  assert (HM : (0 <= cell r' i j)%Q).
  { assert (Hprod : Forall (fun p => 0 <= p)%Q
                           (map2 Qmult (column_values e i) (fiber m i j))).
    { apply (Forall_map2 (fun x => 0 <= x)%Q (fun w => w == 0 \/ 1 <= w)%Q);
        [|exact Hes|exact Hws].
      intros a b Ha [Hb|Hb]; [rewrite Hb; lra | nra]. }
    exact (proj1 (Forall_forall _ _) Hprod _ Hin). }
  apply Qle_shift_div_r; [exact Hsum|].
  now apply weighted_sum_le_max.
Qed.

(** X9. For error probabilities in [0, 1] and non-negative attribution
    weights with a positive sum at every position, everything the 'mean'
    reducer returns lies in [0, 1] again. *)
Theorem mean_reduction_unit_interval (n0 n1 n2 : nat) (e : tensor2) (m : tensor3)
  (rmean : tensor2) :
  (1 <= n0)%nat -> shape2 n0 n1 e -> shape3 n0 n1 n2 m ->
  unit_entriesQ e ->
  Forall (Forall (Forall (fun w => 0 <= w)%Q)) m ->
  (forall i j, (i < n1)%nat -> (j < n2)%nat -> (0 < Qsum (fiber m i j))%Q) ->
  errors_reduced e m "mean"%string = Some rmean ->
  shape2 n1 n2 rmean /\ unit_entriesQ rmean.
Proof.
  intros Hpos He Hm Hu Hw Hsum Hmean.
  destruct (errors_reduced_mean_cell n0 n1 n2 e m rmean Hpos He Hm Hmean)
    as [Hshape Hc].
  split; [exact Hshape|].
  apply (cells_Forall _ n1 n2 rmean Hshape). intros i j Hi Hj.
  rewrite (Hc i j Hi Hj).
  pose proof (column_values_Forall (fun x => 0 <= x <= 1)%Q e i
                                   ltac:(split; [apply Qle_refl | discriminate])
                                   Hu) as Hes.
  pose proof (fiber_Forall (fun w => 0 <= w)%Q m i j (Qle_refl 0) Hw) as Hws.
  destruct (weighted_sum_unit _ _ Hes Hws) as [H1 H2].
  pose proof (Hsum i j Hi Hj) as Hs. split.
  - apply Qle_shift_div_l; [exact Hs|]. now rewrite Qmult_0_l.
  - apply Qle_shift_div_r; [exact Hs|]. now rewrite Qmult_1_l.
Qed.

Lemma mean_reduction_below_max_witness :
  (cell fixture_reduced_mean 0 1 <= cell fixture_reduced_max 0 1)%Q.
Proof.
  apply (mean_reduction_below_max 2 1 2 fixture_errors fixture_attribution).
  - lia.
  - repeat constructor.
  - repeat constructor.
  - repeat constructor; discriminate.
  - repeat (apply Forall_cons || apply Forall_nil);
      first [left; lra | right; lra].
  - reflexivity.
  - reflexivity.
  - lia.
  - lia.
  - reflexivity.
Defined.

Lemma mean_reduction_unit_interval_witness :
  shape2 1 2 fixture_reduced_mean /\ unit_entriesQ fixture_reduced_mean.
Proof.
  apply (mean_reduction_unit_interval 2 1 2 fixture_errors fixture_attribution).
  - lia.
  - repeat constructor.
  - repeat constructor.
  - repeat constructor; discriminate.
  - repeat constructor; discriminate.
  - intros i j Hi Hj. destruct i as [|i]; [|lia].
    destruct j as [|[|j]]; [reflexivity | reflexivity | lia].
  - reflexivity.
Defined.

(** ** The range of the training loss (lines 92-97) *)

Module LossRange.
Import Reals Lra Loss LossFacts.
Local Open Scope R_scope.

Lemma ln_nonpos_unit (x : R) : 0 < x <= 1 -> ln x <= 0.
Proof.
  intros [Hpos H]. rewrite <- ln_1. destruct H as [H|H].
  - left. now apply ln_increasing.
  - rewrite H. right. reflexivity.
Qed.

(** A term of the cross entropy against zero: 100 at a predicted failure
    of one, where the logarithm is clamped, and between 0 and 100 below
    it. *)
Lemma bce_term_range (p : R) :
  0 <= p <= 1 -> 0 <= - log_clamped (1 - p) <= 100.
Proof.
  intros [H0 H1]. unfold log_clamped.
  destruct (Rle_dec (1 - p) 0) as [Hz|Hz]; [lra|].
  pose proof (ln_nonpos_unit (1 - p) ltac:(lra)) as Hln.
  pose proof (Rmax_r (ln (1 - p)) (-100)) as Hr.
  assert (Rmax (ln (1 - p)) (-100) <= 0) by (apply Rmax_lub; lra).
  lra.
Qed.

Lemma Rsum_range (c : R) (l : list R) :
  Forall (fun x => 0 <= x <= c) l -> 0 <= Rsum l <= c * INR (length l).
Proof.
  induction 1 as [|x l Hx _ IH].
  - simpl. lra.
  - change (Rsum (x :: l)) with (x + Rsum l).
    change (length (x :: l)) with (S (length l)). rewrite S_INR. lra.
Qed.

Lemma average_range (c : R) (l : list R) :
  0 <= c -> Forall (fun x => 0 <= x <= c) l ->
  0 <= Rsum l / INR (length l) <= c.
Proof.
  intros Hc Hl. destruct l as [|x l].
  - simpl. unfold Rdiv. rewrite Rmult_0_l. lra.
  - pose proof (Rsum_range c _ Hl) as [H0 H1].
    assert (Hn : 0 < INR (length (x :: l))) by (apply lt_0_INR; simpl; lia).
    split.
    + apply Rmult_le_pos; [exact H0|]. left. now apply Rinv_0_lt_compat.
    + apply Rmult_le_reg_r with (INR (length (x :: l))); [exact Hn|].
      unfold Rdiv. rewrite Rmult_assoc, Rinv_l by lra. lra.
Qed.

Lemma concat_unit (m : rtensor2) :
  unit_entries m -> Forall (fun x => 0 <= x <= 1) (concat m).
Proof.
  induction 1 as [|r m Hr _ IH]; simpl; [constructor|].
  apply Forall_app. now split.
Qed.

(** X10. For reduced errors and scores in [0, 1] and a non-negative
    penalty weight the loss is defined and lies between 0 and
    100 + penalty weight: each cross-entropy term is at most 100 because
    the logarithm is clamped, and the mean score is at most 1. *)
Theorem loss_func_range (n0 n1 : nat) (penalty_weight : R)
  (errors_reduced blacklist : rtensor2) :
  (1 <= n0)%nat -> (1 <= n1)%nat ->
  shape2 n0 n1 errors_reduced -> shape2 n0 n1 blacklist ->
  unit_entries errors_reduced -> unit_entries blacklist ->
  0 <= penalty_weight ->
  exists v : R,
    loss_func penalty_weight errors_reduced blacklist = Some v /\
    0 <= v <= 100 + penalty_weight.
Proof.
  intros _ _ Hse Hsb He Hs Hw.
  exists (spec_total_loss penalty_weight errors_reduced blacklist).
  split; [now apply (loss_func_spec n0 n1)|].
  unfold spec_total_loss. rewrite binary_cross_entropy_zero_target.
  unfold cross_entropy_to_zero, mean.
  assert (Hce : 0 <= Rsum (map (fun x => - log_clamped (1 - x))
                               (predicted_failure errors_reduced blacklist))
                     / INR (length (predicted_failure errors_reduced blacklist))
                <= 100).
  { rewrite <- (length_map (fun x => - log_clamped (1 - x))).
    apply average_range; [lra|].
    apply Forall_map. unfold predicted_failure.
    eapply Forall_impl; [|apply concat_unit, outputs_in_unit; assumption].
    simpl. intros p Hp. now apply bce_term_range. }
  pose proof (average_range 1 (concat blacklist) ltac:(lra) (concat_unit _ Hs))
    as Hmean.
  nra.
Qed.

Lemma loss_func_range_witness :
  exists v : R,
    loss_func (5 / 100) [[1 / 2; 0]] [[0; 1]] = Some v /\
    0 <= v <= 100 + 5 / 100.
Proof.
  apply (loss_func_range 1 2).
  - lia.
  - lia.
  - repeat constructor.
  - repeat constructor.
  - repeat constructor; lra.
  - repeat constructor; lra.
  - lra.
Defined.

Lemma Rsum_ones (l : list R) :
  Forall (fun x => x = 1) l -> Rsum l = INR (length l).
Proof.
  induction 1 as [|x l Hx _ IH]; [reflexivity|].
  change (Rsum (x :: l)) with (x + Rsum l).
  change (length (x :: l)) with (S (length l)). rewrite S_INR, Hx, IH. ring.
Qed.

Lemma concat_all {A : Type} (P : A -> Prop) (m : list (list A)) :
  Forall (Forall P) m -> Forall P (concat m).
Proof.
  induction 1 as [|r m Hr _ IH]; simpl; [constructor|].
  apply Forall_app. now split.
Qed.

Lemma ones_like_entries (m : rtensor2) :
  Forall (Forall (fun x => x = 1)) (ones_like m).
Proof.
  unfold ones_like. apply Forall_map, Forall_forall. intros r _.
  apply Forall_map, Forall_forall. reflexivity.
Qed.

(** X11. When every score is one (everything blacklisted) the loss is the
    penalty weight itself, whatever the reduced errors in [0, 1]: the
    whitelist is zero, no failure is predicted, and the mean score is 1. *)
Theorem loss_func_all_blacklisted (n0 n1 : nat) (penalty_weight : R)
  (errors_reduced : rtensor2) :
  (1 <= n0)%nat -> (1 <= n1)%nat ->
  shape2 n0 n1 errors_reduced -> unit_entries errors_reduced ->
  loss_func penalty_weight errors_reduced (ones_like errors_reduced)
  = Some penalty_weight.
Proof.
  intros H0 H1 Hshape He.
  assert (Hones : unit_entries (ones_like errors_reduced)).
  { unfold unit_entries.
    eapply Forall_impl; [|apply ones_like_entries]. simpl. intros r Hr.
    eapply Forall_impl; [|exact Hr]. simpl. intros x ->. lra. }
  rewrite (loss_func_spec n0 n1 _ _ _ Hshape (ones_like_shape n0 n1 _ Hshape)
                          He Hones).
  f_equal.
  unfold spec_total_loss. rewrite binary_cross_entropy_zero_target.
  unfold cross_entropy_to_zero, mean.
  assert (Hpf : Forall (fun x => x = 0)
                       (predicted_failure errors_reduced (ones_like errors_reduced))).
  { unfold predicted_failure. apply concat_all.
    apply (Forall_map2 (fun _ => True) (Forall (fun x => x = 1)));
      [| apply Forall_forall; trivial | apply ones_like_entries].
    intros r r' _ Hr'.
    apply (Forall_map2 (fun _ => True) (fun x => x = 1));
      [| apply Forall_forall; trivial | exact Hr'].
    intros a b _ ->. ring. }
  rewrite (Rsum_zeros (map _ _)).
  - rewrite (Rsum_ones (concat (ones_like errors_reduced)))
      by apply concat_all, ones_like_entries.
    rewrite (concat_length_shape n0 n1 _ (ones_like_shape n0 n1 _ Hshape)).
    assert (Hn : 0 < INR (n0 * n1)) by (apply lt_0_INR; nia).
    unfold Rdiv. rewrite Rmult_0_l, Rinv_r by lra. ring.
  - apply Forall_map. eapply Forall_impl; [|exact Hpf].
    simpl. intros x ->. replace (1 - 0) with 1 by ring.
    rewrite log_clamped_one. ring.
Qed.

Lemma loss_func_all_blacklisted_witness :
  loss_func (55 / 100) [[1 / 2; 1]] (ones_like [[1 / 2; 1]]) = Some (55 / 100).
Proof.
  apply (loss_func_all_blacklisted 1 2).
  - lia.
  - lia.
  - repeat constructor.
  - repeat constructor; lra.
Defined.

End LossRange.

(** ** A training iteration with the 'mean' reducer (lines 77-101) *)

Lemma mean_cell_unit (e : tensor2) (m : tensor3) (i j : nat) :
  unit_entriesQ e ->
  Forall (Forall (Forall (fun w => 0 <= w)%Q)) m ->
  (0 < Qsum (fiber m i j))%Q ->
  (0 <= Qsum (map2 Qmult (column_values e i) (fiber m i j)) / Qsum (fiber m i j)
   <= 1)%Q.
Proof.
  intros Hu Hw Hs.
  pose proof (column_values_Forall (fun x => 0 <= x <= 1)%Q e i
                                   ltac:(split; [apply Qle_refl | discriminate])
                                   Hu) as Hes.
  pose proof (fiber_Forall (fun w => 0 <= w)%Q m i j (Qle_refl 0) Hw) as Hws.
  destruct (weighted_sum_unit _ _ Hes Hws) as [H1 H2]. split.
  - apply Qle_shift_div_l; [exact Hs|]. now rewrite Qmult_0_l.
  - apply Qle_shift_div_r; [exact Hs|]. now rewrite Qmult_1_l.
Qed.

Lemma lookup_assign_same {V : Type} (k : String.string) (v : V)
  (d : list (String.string * V)) :
  lookup k (assign k v d) = Some v.
Proof.
  induction d as [|[k' v'] d IH]; simpl.
  - now rewrite String.eqb_refl.
  - destruct (String.eqb k k') eqn:E; simpl.
    + now rewrite String.eqb_refl.
    + now rewrite E.
Qed.

Lemma lookup_assign_other {V : Type} (k k' : String.string) (v : V)
  (d : list (String.string * V)) :
  k' <> k -> lookup k' (assign k v d) = lookup k' d.
Proof.
  intro Hne. apply String.eqb_neq in Hne.
  induction d as [|[k0 v0] d IH]; simpl.
  - now rewrite Hne.
  - destruct (String.eqb_spec k k0) as [->|Hk]; simpl.
    + now rewrite Hne.
    + destruct (String.eqb k' k0); [reflexivity | exact IH].
Qed.

Section MeanTraining.
Context {ext : External}.

(** X12. A training iteration of the 'mean' model goes through, without
    the loss raising, whenever its windows can be cut, the simulator
    returns error probabilities in [0, 1] with non-negative attribution
    weights of positive sum at every position, and the predictor returns
    scores in [0, 1] of the shape of the reduced errors (batch rows by
    channels); the next state holds the updated predictor under 'mean'. *)
Theorem mean_training_iteration_defined (env : Env) (args : Args)
  (indices : list Z) (w : Q) (net : Network) (input fw : tensor3)
  (n0 n1 n2 : nat) :
  lookup "mean"%string (models env) = Some (w, net) ->
  training_input env args indices = Some input ->
  future_windows (training_data env) args indices = Some fw ->
  (1 <= n0)%nat ->
  shape2 n0 n1 (error_props (fst (tsch fw))) ->
  shape3 n0 n1 n2 (snd (tsch fw)) ->
  unit_entriesQ (error_props (fst (tsch fw))) ->
  Forall (Forall (Forall (fun x => 0 <= x)%Q)) (snd (tsch fw)) ->
  (forall i j, (i < n1)%nat -> (j < n2)%nat ->
     (0 < Qsum (fiber (snd (tsch fw)) i j))%Q) ->
  shape2 n1 n2 (forward net input) ->
  unit_entriesQ (forward net input) ->
  exists (env' : Env) (net' : Network),
    train_iteration env args "mean"%string indices = Some env' /\
    lookup "mean"%string (models env') = Some (w, net').
Proof.
  intros Hl Hi Hf Hpos He Hm Hu Hw Hsum Hsb Hb.
  assert (Hr : errors_reduced (error_props (fst (tsch fw))) (snd (tsch fw))
                              "mean"%string
               = Some (Py.div2
                         (Py.sum_dim0
                            (error_props_per_channel (error_props (fst (tsch fw)))
                                                     (snd (tsch fw))))
                         (Py.sum_dim0 (snd (tsch fw)))))
    by reflexivity.
  destruct (errors_reduced_mean_cell n0 n1 n2 _ _ _ Hpos He Hm Hr) as [Hshape Hc].
  assert (Hunit : unit_entriesQ
                    (Py.div2
                       (Py.sum_dim0
                          (error_props_per_channel (error_props (fst (tsch fw)))
                                                   (snd (tsch fw))))
                       (Py.sum_dim0 (snd (tsch fw))))).
  { apply (cells_Forall _ n1 n2 _ Hshape). intros i j Hi' Hj'.
    rewrite (Hc i j Hi' Hj').
    exact (mean_cell_unit _ _ i j Hu Hw (Hsum i j Hi' Hj')). }
  unfold train_iteration.
  rewrite Hl. cbn [bind]. rewrite Hi. cbn [bind]. rewrite Hf. cbn [bind].
  destruct (tsch fw) as [power attribution]. simpl fst in *. simpl snd in *.
  rewrite Hr. cbn [bind].
  rewrite (LossFacts.loss_func_spec n1 n2 _ _ _
             (of_tensor2_shape _ _ _ Hshape) (of_tensor2_shape _ _ _ Hsb)
             (of_tensor2_unit _ Hunit) (of_tensor2_unit _ Hb)).
  cbn [bind]. eexists. eexists. split; [reflexivity|].
  simpl models. apply lookup_assign_same.
Qed.

End MeanTraining.

Lemma mean_training_iteration_defined_witness :
  exists (env' : @Env toy) (net' : @Network toy),
    @train_iteration toy toy_env synthetic_args "mean"%string [60%Z] = Some env' /\
    @lookup (Q * @Network toy) "mean"%string (@models toy env')
    = Some ((5 # 100)%Q, net').
Proof.
  eapply (@mean_training_iteration_defined
            toy toy_env synthetic_args [60%Z] (5 # 100)%Q tt _ _ 50 1 16).
  - reflexivity.
  - vm_compute. reflexivity.
  - vm_compute. reflexivity.
  - lia.
  - vm_compute. repeat constructor.
  - vm_compute. repeat constructor.
  - vm_compute. repeat constructor; discriminate.
  - vm_compute. repeat constructor; discriminate.
  - intros i j Hi Hj.
    destruct i as [|i]; [|lia].
    do 16 (destruct j as [|j]; [vm_compute; reflexivity|]). lia.
  - vm_compute. repeat constructor.
  - vm_compute. repeat constructor; discriminate.
Defined.

(** ** What a training iteration changes (lines 72-101) *)

Lemma assign_keys {V : Type} (k : String.string) (v v0 : V)
  (d : list (String.string * V)) :
  lookup k d = Some v0 -> map fst (assign k v d) = map fst d.
Proof.
  induction d as [|[k' v'] d IH]; simpl; [discriminate|].
  destruct (String.eqb_spec k k') as [->|Hne]; simpl.
  - reflexivity.
  - intro H. now rewrite (IH H).
Qed.

Section TrainingUpdate.
Context {ext : External}.

(** X13. A training iteration replaces the predictor stored under its own
    reducer and nothing else of the models: the entry keeps its penalty
    weight, the entry of every other reducer is the one it was, and the
    reducers keep their order. *)
Theorem train_iteration_updates_one_model (env env' : Env) (args : Args)
  (reducing_method : String.string) (indices : list Z) :
  train_iteration env args reducing_method indices = Some env' ->
  (exists (w : Q) (net net' : Network),
      lookup reducing_method (models env) = Some (w, net) /\
      lookup reducing_method (models env') = Some (w, net')) /\
  (forall other : String.string,
      other <> reducing_method ->
      lookup other (models env') = lookup other (models env)) /\
  map fst (models env') = map fst (models env).
Proof.
  unfold train_iteration.
  destruct (lookup reducing_method (models env)) as [[w net]|] eqn:Hl;
    simpl; [|discriminate].
  destruct (training_input env args indices) as [input|]; simpl; [|discriminate].
  destruct (future_windows (training_data env) args indices) as [fw|];
    simpl; [|discriminate].
  destruct (tsch fw) as [power attribution].
  destruct (errors_reduced (error_props power) attribution reducing_method)
    as [reduced|]; simpl; [|discriminate].
  destruct (Loss.loss_func _ _ _); simpl; [|discriminate].
  intro H. injection H as <-. simpl models. split; [|split].
  - exists w, net, (optimizer_step net input reduced w).
    split; [reflexivity | apply lookup_assign_same].
  - intros other Hne. now apply lookup_assign_other.
  - now apply assign_keys with (v0 := (w, net)).
Qed.

End TrainingUpdate.

Lemma train_iteration_updates_one_model_witness :
  (exists (w : Q) (net net' : @Network toy),
      lookup "mean"%string (@models toy toy_env) = Some (w, net) /\
      lookup "mean"%string (@models toy toy_env_trained) = Some (w, net')) /\
  (forall other : String.string,
      other <> "mean"%string ->
      lookup other (@models toy toy_env_trained)
      = lookup other (@models toy toy_env)) /\
  map fst (@models toy toy_env_trained) = map fst (@models toy toy_env).
Proof.
  apply (@train_iteration_updates_one_model
           toy toy_env toy_env_trained synthetic_args "mean"%string [60%Z]).
  exact toy_env_trained_eq.
Defined.

(** ** The reported metrics (lines 25-33) *)

Lemma describe_energy (receptions : tensor2) (cutoff : Z) (args : Args)
  (ed_enabled : bool) :
  (snd (describe receptions cutoff args ed_enabled)
   == (if ed_enabled then 6336 # 1000000000 else 0)
      + (4752 # 10000000) / fst (describe receptions cutoff args ed_enabled))%Q.
Proof.
  unfold describe. cbn [fst snd]. unfold Qdiv.
  destruct ed_enabled; ring.
Qed.

(** X14. Energy detection costs a fixed 6.336 microjoule: for the same
    receptions with a positive reception ratio, the ratio is the same in
    both reports and the energy reported with detection enabled exceeds
    the one reported without it by that amount.  (At a ratio of zero the
    program divides by zero and reports an infinite energy in both.) *)
Theorem describe_detection_cost (receptions : tensor2) (cutoff : Z) (args : Args) :
  (0 < fst (describe receptions cutoff args false))%Q ->
  fst (describe receptions cutoff args true)
  = fst (describe receptions cutoff args false) /\
  (snd (describe receptions cutoff args true)
   - snd (describe receptions cutoff args false)
   == 6336 # 1000000000)%Q.
Proof.
  intros _. split; [reflexivity|].
  rewrite !describe_energy.
  change (fst (describe receptions cutoff args true))
    with (fst (describe receptions cutoff args false)).
  ring.
Qed.

Lemma describe_detection_cost_witness :
  fst (describe [[1 # 2]; [1]]%Q 0 short_split_args true)
  = fst (describe [[1 # 2]; [1]]%Q 0 short_split_args false) /\
  (snd (describe [[1 # 2]; [1]]%Q 0 short_split_args true)
   - snd (describe [[1 # 2]; [1]]%Q 0 short_split_args false)
   == 6336 # 1000000000)%Q.
Proof.
  apply (describe_detection_cost [[1 # 2]; [1]]%Q 0 short_split_args).
  vm_compute. reflexivity.
Defined.

(** X15. The reported energy falls as the reception ratio rises: of two
    reports with positive ratios and the same detection setting, the one
    with the higher ratio states the lower energy. *)
Theorem describe_energy_decreasing (r1 r2 : tensor2) (c1 c2 : Z) (a1 a2 : Args)
  (ed_enabled : bool) :
  (0 < fst (describe r1 c1 a1 ed_enabled))%Q ->
  (fst (describe r1 c1 a1 ed_enabled) < fst (describe r2 c2 a2 ed_enabled))%Q ->
  (snd (describe r2 c2 a2 ed_enabled) < snd (describe r1 c1 a1 ed_enabled))%Q.
Proof.
  intros Hpos Hlt. rewrite !describe_energy.
  set (p1 := fst (describe r1 c1 a1 ed_enabled)) in *.
  set (p2 := fst (describe r2 c2 a2 ed_enabled)) in *.
  assert (Hp2 : (0 < p2)%Q) by (now apply Qlt_trans with p1).
  assert (Hinv : (/ p2 < / p1)%Q) by (now apply -> Qinv_lt_contravar).
  unfold Qdiv. lra.
Qed.

Lemma describe_energy_decreasing_witness :
  (snd (describe [[1]]%Q 0 short_split_args true)
   < snd (describe [[1 # 2]]%Q 0 short_split_args true))%Q.
Proof.
  apply (describe_energy_decreasing [[1 # 2]]%Q [[1]]%Q 0 0
                                    short_split_args short_split_args true).
  - reflexivity.
  - reflexivity.
Defined.






(** ** The order of the stitched entries (line 154) *)

Lemma permute_1_0_cell (n0 n1 : nat) (m : tensor2) (t j : nat) :
  shape2 n0 n1 m -> (t < n0)%nat -> (j < n1)%nat ->
  cell (Py.permute_1_0 m) j t = cell m t j.
Proof.
  intros [Hlen Hrows]. revert n0 t Hlen.
  induction Hrows as [|r m Hr Hrows IH]; intros n0 t Hlen Ht Hj;
    [simpl in Hlen; lia|].
  destruct m as [|r' m].
  - simpl in Hlen. assert (t = 0%nat) by lia. subst t.
    unfold cell. simpl.
    rewrite (nth_indep _ [] [0%Q]) by (rewrite length_map; lia).
    now rewrite (map_nth (fun x => [x]) r 0%Q j).
  - change (Py.permute_1_0 (r :: r' :: m))
      with (map2 cons r (Py.permute_1_0 (r' :: m))).
    assert (Hp : shape2 n1 (length (r' :: m)) (Py.permute_1_0 (r' :: m))).
    { apply permute_1_0_shape; [simpl; lia|]. split; [reflexivity | exact Hrows]. }
    unfold cell at 1.
    rewrite (nth_map2 cons r (Py.permute_1_0 (r' :: m)) j 0%Q [] [])
      by (destruct Hp; lia).
    destruct t as [|t].
    + reflexivity.
    + change (nth (S t) (nth j r 0%Q :: nth j (Py.permute_1_0 (r' :: m)) []) 0%Q)
        with (cell (Py.permute_1_0 (r' :: m)) j t).
      rewrite (IH (length (r' :: m)) t eq_refl) by (simpl in *; lia).
      reflexivity.
Qed.

Lemma concat_nth_shape {A : Type} (n0 n1 : nat) (m : list (list A)) (d : A)
  (j t : nat) :
  shape2 n0 n1 m -> (j < n0)%nat -> (t < n1)%nat ->
  nth (j * n1 + t) (concat m) d = nth t (nth j m []) d.
Proof.
  intros [Hlen Hrows]. revert n0 j Hlen.
  induction Hrows as [|r m Hr _ IH]; intros n0 j Hlen Hj Ht;
    [simpl in Hlen; lia|].
  simpl concat. destruct j as [|j].
  - simpl. apply app_nth1. lia.
  - rewrite app_nth2 by (rewrite Hr; simpl; lia).
    rewrite Hr. replace (S j * n1 + t - n1)%nat with (j * n1 + t)%nat
      by (simpl; lia).
    simpl nth at 3. apply (IH (length m) j eq_refl); [simpl in Hlen; lia | exact Ht].
Qed.

(** X17. The masked segment of the stitched series runs pivot by pivot
    and, within a pivot, in time order: for error values of shape
    (window length, pivots), whenever [.permute(1, 0).view(-1, 1)] yields
    a column, the entry of pivot [j] at window time [t] stands at position
    [j * window length + t] of it; it yields none only for values that are
    not stored column by column and have two or more pivots and time
    steps. *)
Theorem stitched_segment_time_order (len n : nat) (row_major : bool)
  (error_props_values : tensor2) (t j : nat) :
  shape2 len n error_props_values -> (t < len)%nat -> (j < n)%nat ->
  match Py.view_column row_major (Py.permute_1_0 error_props_values) with
  | Some column =>
      nth (j * len + t) column [] = [cell error_props_values t j]
  | None => row_major = false /\ (2 <= n)%nat /\ (2 <= len)%nat
  end.
Proof.
  intros Hshape Ht Hj.
  assert (Hlen : (1 <= len)%nat) by lia.
  pose proof (permute_1_0_shape len n _ Hlen Hshape) as Hp.
  rewrite (view_column_defined n len row_major _ Hp).
  destruct row_major; cbn [orb];
    [| destruct (Nat.leb_spec n 1) as [Hn|Hn]; cbn [orb];
       [| destruct (Nat.leb_spec len 1) as [Hl|Hl]; cbn [orb]]].
  4: { repeat split; lia. }
  all: rewrite (nth_indep _ [] [0%Q])
         by (rewrite length_map, (concat_length_shape n len _ Hp); nia);
       rewrite (map_nth (fun x => [x])); f_equal;
       rewrite (concat_nth_shape n len _ 0%Q j t Hp Hj Ht);
       exact (permute_1_0_cell len n _ t j Hshape Ht Hj).
Qed.

Lemma stitched_segment_time_order_witness :
  match Py.view_column true (Py.permute_1_0 [[1; 2]; [3; 4]; [5; 6]]%Q) with
  | Some column =>
      nth (1 * 3 + 2) column [] = [cell [[1; 2]; [3; 4]; [5; 6]]%Q 2 1]
  | None => true = false /\ (2 <= 2)%nat /\ (2 <= 3)%nat
  end.
Proof.
  apply (stitched_segment_time_order 3 2 true).
  - repeat constructor.
  - lia.
  - lia.
Defined.

(** The same values as a contiguous tensor: the view is refused. *)
Example view_of_contiguous_transpose :
  Py.view_column false (Py.permute_1_0 [[1; 2]; [3; 4]; [5; 6]]%Q) = None /\
  Py.view_column false (Py.permute_1_0 [[1]; [3]; [5]]%Q)
  = Some [[1]; [3]; [5]]%Q /\
  Py.view_column false (Py.permute_1_0 [[1; 2]]%Q) = Some [[1]; [2]]%Q.
Proof. repeat split. Qed.

(** ** The future windows of the grid (line 141) *)

(** X18. With a positive stride every time step from [pastLen] up to the
    end of the Series lies in the future window [pivot, pivot + futureLen)
    of exactly one pivot of the grid: the windows leave no gap and do not
    overlap, whether or not the last one fits the Series. *)
Theorem future_windows_tile (args : Args) (datapoints time : Z) :
  (0 < futureLen args)%Z -> (pastLen args <= time < datapoints)%Z ->
  exists (grid : list Z) (pivot : Z),
    pivots args datapoints = Some grid /\ In pivot grid /\
    (pivot <= time < pivot + futureLen args)%Z /\
    forall other : Z,
      In other grid -> (other <= time < other + futureLen args)%Z ->
      other = pivot.
Proof.
  intros HF Ht.
  destruct (pivots_arithmetic args datapoints HF) as (n & Hn & Hlt & Hcover).
  set (i := ((time - pastLen args) / futureLen args)%Z).
  assert (Hi : (futureLen args * i <= time - pastLen args
                < futureLen args * i + futureLen args)%Z).
  { subst i. pose proof (Z.mul_div_le (time - pastLen args) _ HF).
    pose proof (Z.mul_succ_div_gt (time - pastLen args) _ HF). lia. }
  assert (Hi0 : (0 <= i)%Z) by (subst i; apply Z.div_pos; lia).
  assert (Hin : (Z.to_nat i < n)%nat) by nia.
  exists (map (fun k => (pastLen args + Z.of_nat k * futureLen args)%Z) (seq 0 n)),
         (pastLen args + i * futureLen args)%Z.
  split; [exact Hn|]. split; [|split].
  - apply in_map_iff. exists (Z.to_nat i). split.
    + now rewrite Z2Nat.id.
    + apply in_seq. lia.
  - lia.
  - intros other Hother Hrange. apply in_map_iff in Hother.
    destruct Hother as (k & <- & _).
    assert (Hk : Z.of_nat k = i) by nia.
    now rewrite Hk.
Qed.

Lemma future_windows_tile_witness :
  exists (grid : list Z) (pivot : Z),
    pivots synthetic_args 1020 = Some grid /\ In pivot grid /\
    (pivot <= 1010 < pivot + futureLen synthetic_args)%Z /\
    forall other : Z,
      In other grid -> (other <= 1010 < other + futureLen synthetic_args)%Z ->
      other = pivot.
Proof.
  apply (future_windows_tile synthetic_args 1020 1010).
  - reflexivity.
  - vm_compute. split; [discriminate | reflexivity].
Defined.

(** ** Loading saved predictors (lines 121-123) *)

Section Loading.
Context {ext : External}.

(** X19. Loading a saved predictor for a reducer that the models hold
    succeeds; afterwards that reducer's entry is the saved predictor with
    the penalty weight it had, every other entry and the order of the
    reducers are unchanged, and so are the Series, its training portion
    and the two statistics. *)
Theorem load_model_round_trip (env : Env) (reducing_method : String.string)
  (w : Q) (net saved : Network) :
  lookup reducing_method (models env) = Some (w, net) ->
  exists env' : Env,
    load_model env reducing_method saved = Some env' /\
    lookup reducing_method (models env') = Some (w, saved) /\
    (forall other : String.string,
        other <> reducing_method ->
        lookup other (models env') = lookup other (models env)) /\
    map fst (models env') = map fst (models env) /\
    data env' = data env /\ training_data env' = training_data env /\
    data_mean env' = data_mean env /\ data_std env' = data_std env.
Proof.
  intro Hl. unfold load_model. rewrite Hl. cbn [bind fst].
  eexists. split; [reflexivity|]. simpl.
  split; [apply lookup_assign_same|].
  split; [intros other Hne; now apply lookup_assign_other|].
  split; [now apply assign_keys with (v0 := (w, net))|].
  repeat split.
Qed.

End Loading.

Lemma load_model_round_trip_witness :
  exists env' : @Env toy,
    @load_model toy toy_env "max"%string tt = Some env' /\
    lookup "max"%string (@models toy env') = Some ((55 # 100)%Q, tt) /\
    (forall other : String.string,
        other <> "max"%string ->
        lookup other (@models toy env') = lookup other (@models toy toy_env)) /\
    map fst (@models toy env') = map fst (@models toy toy_env) /\
    @data toy env' = @data toy toy_env /\
    @training_data toy env' = @training_data toy toy_env /\
    @data_mean toy env' = @data_mean toy toy_env /\
    @data_std toy env' = @data_std toy toy_env.
Proof.
  apply (@load_model_round_trip toy toy_env "max"%string (55 # 100)%Q tt tt).
  reflexivity.
Defined.

(** ** Training batches (lines 79-81) *)

Section TrainingBatches.
Context {ext : External}.

(** X20. With a batch size of zero line 79 returns no index, the list of
    windows is empty and [torch.cat] raises: no training iteration goes
    through, for either reducer. *)
Theorem empty_batch_raises (env : Env) (args : Args) (datapoints : Z)
  (reducing_method : String.string) (indices : list Z) :
  batch_size args = 0%Z ->
  random_indices args datapoints indices ->
  indices = [] /\
  training_input env args indices = None /\
  train_iteration env args reducing_method indices = None.
Proof.
  intros Hb (_ & Hlen & _). rewrite Hb in Hlen.
  assert (E : indices = []) by (destruct indices; [reflexivity | simpl in Hlen; lia]).
  subst indices. split; [reflexivity|]. split; [reflexivity|].
  unfold train_iteration.
  destruct (lookup reducing_method (models env)) as [[w net]|]; reflexivity.
Qed.

(** X21. When the training portion holds at least [int(0.80 * datapoints)]
    rows, as it does with the defaults on a Series of 300 seconds, every
    batch that line 79 can draw with a positive batch size gets whole
    windows: [pastLen] past rows and [futureLen] future rows, one sequence
    entry group per drawn pivot. *)
Theorem training_windows_whole (env : Env) (args : Args) (datapoints : Z)
  (indices : list Z) :
  (0 <= pastLen args)%Z -> (0 <= futureLen args)%Z ->
  (1 <= batch_size args)%Z ->
  (Py.int_080 datapoints <= Z.of_nat (length (training_data env)))%Z ->
  random_indices args datapoints indices ->
  exists pw fw : tensor3,
    past_windows (training_data env) args indices = Some pw /\
    future_windows (training_data env) args indices = Some fw /\
    Z.of_nat (length pw) = pastLen args /\
    Z.of_nat (length fw) = futureLen args /\
    training_input env args indices = Some (past_windows_normalized env args pw).
Proof.
  intros HP HF Hb Hlen Hr.
  pose proof (random_indices_within args datapoints (training_data env) indices
                                    Hr Hlen) as Hinv.
  assert (Hne : indices <> []).
  { destruct Hr as (_ & Hsize & _). intro E. subst indices. simpl in Hsize. lia. }
  assert (Hpw : past_windows (training_data env) args indices
                = Some (concat_sequence_axis
                          (Z.to_nat (pastLen args))
                          (map (fun pivot =>
                                  interval_rows (training_data env)
                                                (pivot - pastLen args)
                                                (Z.to_nat (pastLen args)))
                               indices))).
  { unfold past_windows.
    rewrite (past_slices_intervals _ args indices HP HF Hinv).
    apply cat_dim1_spec; [now apply map_not_nil|].
    apply (interval_batch_lengths _ _ (fun pivot => pivot - pastLen args)%Z). }
  assert (Hfw : future_windows (training_data env) args indices
                = Some (concat_sequence_axis
                          (Z.to_nat (futureLen args))
                          (map (fun pivot =>
                                  interval_rows (training_data env) pivot
                                                (Z.to_nat (futureLen args)))
                               indices))).
  { unfold future_windows.
    rewrite (future_slices_intervals _ args indices HP HF Hinv).
    apply cat_dim1_spec; [now apply map_not_nil|].
    apply (interval_batch_lengths _ _ (fun pivot => pivot)). }
  eexists. eexists. split; [exact Hpw|]. split; [exact Hfw|].
  rewrite !concat_sequence_axis_length.
  split; [lia|]. split; [lia|].
  unfold training_input. now rewrite Hpw.
Qed.

End TrainingBatches.

Lemma empty_batch_raises_witness :
  ([] : list Z) = [] /\
  @training_input toy toy_env
                  {| train_split := 80; sample_rate := 10; target_rate := 10;
                     past_window := 5; future_window := 5; iterations := 1;
                     batch_size := 0 |} [] = None /\
  @train_iteration toy toy_env
                   {| train_split := 80; sample_rate := 10; target_rate := 10;
                      past_window := 5; future_window := 5; iterations := 1;
                      batch_size := 0 |} "max"%string [] = None.
Proof.
  apply (@empty_batch_raises toy toy_env _ 150 "max"%string []).
  - reflexivity.
  - unfold random_indices, Py.randint.
    split; [reflexivity|]. split; [reflexivity | constructor].
Defined.

Lemma training_windows_whole_witness :
  exists pw fw : tensor3,
    past_windows (@training_data toy toy_env) synthetic_args [60%Z] = Some pw /\
    future_windows (@training_data toy toy_env) synthetic_args [60%Z] = Some fw /\
    Z.of_nat (length pw) = pastLen synthetic_args /\
    Z.of_nat (length fw) = futureLen synthetic_args /\
    @training_input toy toy_env synthetic_args [60%Z]
    = Some (@past_windows_normalized toy toy_env synthetic_args pw).
Proof.
  apply (@training_windows_whole toy toy_env synthetic_args 150 [60%Z]).
  - vm_compute. discriminate.
  - vm_compute. discriminate.
  - vm_compute. discriminate.
  - vm_compute. discriminate.
  - unfold random_indices, Py.randint.
    split; [reflexivity|]. split; [reflexivity|].
    constructor; [|constructor]. vm_compute. split; [discriminate | reflexivity].
Defined.

(** ** The general form of the overruns *)

Lemma stitched_series_on_short_series_witness :
  exists series : tensor2,
    pivots synthetic_args (Z.of_nat 70) = Some [pastLen synthetic_args] /\
    @reception_props_values toy short_env synthetic_args "max"%string
    = Some series /\
    length series = 70%nat /\
    (Z.of_nat (length series)
     < pastLen synthetic_args + 1 * futureLen synthetic_args)%Z /\
    firstn (Z.to_nat (pastLen synthetic_args)) series
    = firstn (Z.to_nat (pastLen synthetic_args)) (@tsch_receptions toy short_env).
Proof.
  apply (@stitched_series_on_short_series toy) with (C := 1%nat)
                                                   (model := ((55 # 100)%Q, tt)).
  - intros net x. apply Forall_map, Forall_forall. reflexivity.
  - intros fw available n0 n1 Hlen Hframes. split.
    + simpl. now rewrite length_map.
    + simpl. apply Forall_map.
      eapply Forall_impl; [|exact Hframes]. simpl. intros frame Hf.
      rewrite length_map, length_combine, length_seq. lia.
  - intros x n0 n1 n2 [Hlen Hrows]. split.
    + simpl. now rewrite length_map.
    + simpl. apply Forall_map.
      eapply Forall_impl; [|exact Hrows]. simpl. intros m [Hm _].
      now rewrite length_map.
  - intros m n0 n1 [Hlen Hrows]. split.
    + simpl. now rewrite length_map.
    + simpl. apply Forall_map.
      eapply Forall_impl; [|exact Hrows]. simpl. intros r Hr.
      now rewrite length_map.
  - intros a b. simpl. apply map_app.
  - intro a. simpl. apply length_map.
  - vm_compute. discriminate.
  - simpl data. unfold synthetic_series. split.
    + now rewrite length_map, length_seq.
    + apply Forall_map, Forall_forall. intros t _. repeat constructor.
  - vm_compute. split; reflexivity.
  - reflexivity.
Defined.

Lemma pivots_beyond_bound_witness :
  exists (grid : list Z) (pivot : Z),
    pivots synthetic_args 1020 = Some grid /\ In pivot grid /\
    (1020 - futureLen synthetic_args < pivot < 1020)%Z.
Proof.
  apply (pivots_beyond_bound synthetic_args 1020).
  - reflexivity.
  - reflexivity.
  - vm_compute. discriminate.
Defined.

Lemma random_indices_beyond_witness :
  exists indices : list Z,
    random_indices short_split_args 300 indices /\
    ~ Forall (boundary_invariant
                (pastLen short_split_args) (futureLen short_split_args)
                (Z.of_nat (length (Py.slice (synthetic_series 300) 0 100))))
             indices.
Proof.
  apply (random_indices_beyond short_split_args 300
                               (Py.slice (synthetic_series 300) 0 100)).
  - reflexivity.
  - reflexivity.
  - vm_compute. reflexivity.
Defined.

(** ** When the whole budget is used (lines 148-151) *)

Lemma filter_full {A : Type} (f : A -> bool) (l : list A) :
  length (filter f l) = length l -> Forall (fun x => f x = true) l.
Proof.
  induction l as [|x l IH]; simpl; intro H; [constructor|].
  destruct (f x) eqn:E; simpl in H.
  - constructor; [exact E | apply IH; lia].
  - pose proof (filter_length_le f l). lia.
Qed.

Lemma sorted_below (s : list Q) (k k' : nat) (x y : Q) :
  StronglySorted Qle s -> (k <= k')%nat ->
  nth_error s k = Some x -> nth_error s k' = Some y -> (x <= y)%Q.
Proof.
  intros Hs Hk Hx Hy.
  destruct (sorted_split s Hs k' y Hy) as (a & b & E & Hlen & Ha & _).
  rewrite E in Hx. destruct (Nat.eq_dec k k') as [->|Hne].
  - rewrite nth_error_app2 in Hx by lia.
    replace (k' - length a)%nat with 0%nat in Hx by lia.
    injection Hx as ->. apply Qle_refl.
  - rewrite nth_error_app1 in Hx by lia.
    exact (proj1 (Forall_forall _ _) Ha x (nth_error_In _ _ Hx)).
Qed.

(** X22. A row of sixteen scores gets exactly eight available channels if
    and only if its eighth and ninth smallest scores differ; when they are
    equal the tie at the threshold costs at least one channel. *)
Theorem available_budget_used_iff (row : list Q) (mrow : list bool) (t7 t8 : Q) :
  length row = 16%nat ->
  available_channels [row] = Some [mrow] ->
  nth_error (Py.sort_row row) 7 = Some t7 ->
  nth_error (Py.sort_row row) 8 = Some t8 ->
  (count_true mrow = 8%nat <-> (t7 < t8)%Q).
Proof.
  intros Hlen Hm H7 H8.
  assert (Hrows : Forall (fun r : list Q => (8 < length r)%nat) [row])
    by (constructor; [lia | constructor]).
  rewrite (available_channels_rows [row] Hrows) in Hm.
  simpl in Hm. injection Hm as <-.
  rewrite (nth_error_nth _ _ 0%Q H8).
  rewrite count_true_map.
  rewrite (filter_length_perm _ _ _ (sort_row_perm row)).
  pose proof (sort_row_sorted row) as Hs.
  destruct (sorted_split _ Hs 8 t8 H8) as (a & b & E & Hla & Ha & Hb).
  assert (H7a : nth_error a 7 = Some t7).
  { rewrite E in H7. now rewrite nth_error_app1 in H7 by lia. }
  rewrite E, filter_app, length_app.
  rewrite (filter_none _ (t8 :: b)).
  2:{ constructor; [apply Qltb_ge, Qle_refl|].
      eapply Forall_impl; [|exact Hb]. intros x Hx. now apply Qltb_ge. }
  simpl length. rewrite Nat.add_0_r. split.
  - intro Hcount. rewrite <- Hla in Hcount. apply filter_full in Hcount.
    apply Qltb_lt.
    exact (proj1 (Forall_forall _ _) Hcount t7 (nth_error_In _ _ H7a)).
  - intro Hlt. rewrite <- Hla. f_equal. apply filter_all.
    apply Forall_forall. intros x Hx. apply Qltb_lt.
    destruct (In_nth_error _ _ Hx) as [k Hk].
    assert (Hk8 : (k < 8)%nat).
    { rewrite <- Hla. apply nth_error_Some. now rewrite Hk. }
    assert (Hxs : nth_error (Py.sort_row row) k = Some x).
    { rewrite E. now rewrite nth_error_app1 by lia. }
    apply Qle_lt_trans with t7; [|exact Hlt].
    apply (sorted_below _ k 7 x t7 Hs); [lia | exact Hxs | exact H7].
Qed.

Lemma available_budget_used_iff_witness :
  count_true [true; false; true; false; true; false; true; false; false; true;
              false; true; false; true; false; true] = 8%nat
  <-> (7 / 16 < 8 / 16)%Q.
Proof.
  apply (available_budget_used_iff distinct_scores).
  - reflexivity.
  - vm_compute. reflexivity.
  - vm_compute. reflexivity.
  - vm_compute. reflexivity.
Defined.
